(** * finlab_crypto.strategy: the parameter-sweep signal composition engine

    A shallow embedding of [src/finlab_crypto/strategy.py] (the [Filter] and
    [Strategy] decorator classes) and the properties of its sweep, column
    codec, filter composition and back-test entry point.

    Python values are embedded as follows: a [dict] whose order is observable
    (parameter assignments, the [filters] argument) is an association list
    with distinct keys; a [dict] used only through lookups (diagnostic
    bundles, instance attributes, the object store) is a [gmap]; a raised
    exception is the [Raise] branch of [result]. *)

From Stdlib Require Import ZArith String Ascii List Bool Lia.
From Stdlib Require Import Floats.SpecFloat.
From stdpp Require Import base option list gmap strings fin_maps.

Open Scope string_scope.
Open Scope list_scope.

(** ** Exceptions and fallible computations *)

(** A raised Python exception: its class name and its argument, which is
    the message, and for a [KeyError] the key. *)
Record exn := PyErr { exn_class : string; exn_msg : string }.

Inductive result (A : Type) :=
| Ok (a : A)
| Raise (e : exn).
Arguments Ok {A} a.
Arguments Raise {A} e.

#[global] Instance exn_eq_dec : EqDecision exn.
Proof. solve_decision. Defined.
#[global] Instance result_eq_dec `{EqDecision A} : EqDecision (result A).
Proof. solve_decision. Defined.

#[global] Instance result_ret : MRet result := fun _ a => Ok a.
#[global] Instance result_bind : MBind result := fun _ _ f m =>
  match m with
  | Ok a => f a
  | Raise e => Raise e
  end.

Definition is_ok {A} (r : result A) : bool :=
  match r with Ok _ => true | Raise _ => false end.

(** [for x in xs: acc = body(acc, x)], stopping at the first exception. *)
Fixpoint for_each {A S} (body : S -> A -> result S) (xs : list A) (s : S) : result S :=
  match xs with
  | [] => Ok s
  | x :: xs' => s' ← body s x; for_each body xs' s'
  end.

(** ** Scalar values and parameter assignments *)

(** IEEE binary64, the representation of a Python [float]. *)
Definition prec : Z := 53.
Definition emax : Z := 1024.

(** The values a parameter takes: the scalars ([int], [float], [str]) and,
    as one opaque case, the pandas objects (a [pd.Series], a
    [pd.DataFrame]), each known by the name of its class and the text [repr]
    prints for it. No value is callable. *)
Inductive value :=
| VInt (z : Z)
| VFloat (f : spec_float)
| VStr (s : string)
| VObj (cls text : string).

#[global] Instance spec_float_eq_dec : EqDecision spec_float.
Proof. solve_decision. Defined.
#[global] Instance value_eq_dec : EqDecision value.
Proof. solve_decision. Defined.

(** A parameter assignment: an insertion-ordered [dict] from parameter name
    to value. *)
Abbreviation assignment := (list (string * value)).

(** A parameter spec ([variables]): per parameter name, one fixed value or
    the candidate values to sweep. *)
Inductive candidates :=
| Fixed (v : value)
| Sweep (vs : list value).

#[global] Instance candidates_eq_dec : EqDecision candidates.
Proof. solve_decision. Defined.

Abbreviation spec := (list (string * candidates)).

(** [k in d] *)
Definition dict_mem {V} (k : string) (d : list (string * V)) : bool :=
  bool_decide (k ∈ d.*1).

(** [d.pop(k)] for a key that is in [d] *)
Definition dict_pop {V} (k : string) (d : list (string * V)) : list (string * V) :=
  filter (fun kv => kv.1 <> k) d.

(** [d[k] = v] on an insertion-ordered [dict]: the value of an existing key
    is replaced where it stands, a new key goes last. *)
Fixpoint dict_set {V} (k : string) (v : V) (d : list (string * V)) : list (string * V) :=
  match d with
  | [] => [(k, v)]
  | (k', v') :: d' => if bool_decide (k' = k) then (k, v) :: d' else (k', v') :: dict_set k v d'
  end.

(** [d[k]], a [KeyError] when the key is missing. *)
Fixpoint dict_get {V} (k : string) (d : list (string * V)) : result V :=
  match d with
  | [] => Raise (PyErr "KeyError" k)
  | (k', v) :: d' => if bool_decide (k' = k) then Ok v else dict_get k d'
  end.

(** ** Computations on a mutable state

    A call that updates objects in place is a function of the state; what it
    wrote before an exception stays written. *)
Definition prog (S A : Type) : Type := S -> result A * S.

#[global] Instance prog_ret {S} : MRet (prog S) := fun _ a s => (Ok a, s).
#[global] Instance prog_bind {S} : MBind (prog S) := fun _ _ f m s =>
  match m s with
  | (Ok a, s') => f a s'
  | (Raise e, s') => (Raise e, s')
  end.

(** A call that does not touch the state. *)
Definition lift {S A} (r : result A) : prog S A := fun s => (r, s).

(** [for x in xs: body(x)], stopping at the first exception. *)
Fixpoint each {S A} (body : A -> prog S unit) (xs : list A) : prog S unit :=
  match xs with
  | [] => mret ()
  | x :: xs => _ ← body x; each body xs
  end.

(** ** Signal tables *)

(** A boolean column over the row index. *)
Abbreviation column := (list bool).

(** A [pd.DataFrame] of signals: the row index (the timestamps of a
    [pd.DatetimeIndex]), the names of the column levels of its
    [pd.MultiIndex] ([df.columns.names]) and, per column, its label (one
    value per level) with its data. *)
Record table := Table {
  index : list Z;
  names : list string;
  cols : list (list value * column)
}.

(** [df.shape[1]] *)
Definition width (t : table) : nat := length (cols t).

(** A diagnostic series. Composition never looks inside one. *)
Abbreviation artifact := (list Z).

(** [fig_data]: category name -> artifact name -> artifact. *)
Abbreviation bundle := (gmap string (gmap string artifact)).
(** ** The column codec: [str] of an assignment and [eval] of the key

    [ret_f] keys each column by [str(v)] and reads the label back with
    [eval]. Both are Python builtins; this module models them on the
    assignments of this file. A [str] is a sequence of code points; the model
    has the code points below 256, as the characters of [string]. *)

Module Codec.

Local Open Scope N_scope.

(** *** Decimal numerals *)

Definition digit_char (d : N) : ascii := ascii_of_N (48 + d).

Definition digit_of_char (c : ascii) : option N :=
  let n := N_of_ascii c in
  if (48 <=? n) && (n <=? 57) then Some (n - 48) else None.

(** The decimal digits of [n], most significant first; [fuel] bounds their
    number. *)
Fixpoint digits_fuel (fuel : nat) (n : N) : list N :=
  match fuel with
  | O => []
  | S fuel => if n <? 10 then [n] else digits_fuel fuel (n / 10) ++ [n mod 10]
  end.

Definition digits (n : N) : list N := digits_fuel (S (N.to_nat (N.log2 n))) n.

(** The number a list of digits writes. *)
Definition number (ds : list N) : N := foldl (fun acc d => 10 * acc + d) 0 ds.

Fixpoint string_of_digits (ds : list N) : string :=
  match ds with
  | [] => ""
  | d :: ds => String (digit_char d) (string_of_digits ds)
  end.

(** The decimal numeral of an [int]. *)
Definition decimal (z : Z) : string :=
  match z with
  | Z0 => "0"
  | Zpos p => string_of_digits (digits (Npos p))
  | Zneg p => String "-" (string_of_digits (digits (Npos p)))
  end.

(** [sys.get_int_max_str_digits()]: CPython converts no [int] of more
    decimal digits to text, and reads no longer decimal literal. *)
Definition int_max_str_digits : nat := 4300.

Definition int_digits (z : Z) : nat := length (digits (Z.to_N (Z.abs z))).

Definition int_limit_error : exn :=
  PyErr "ValueError"
    ("Exceeds the limit (4300 digits) for integer string conversion; " +:+
     "use sys.set_int_max_str_digits() to increase the limit").

(** [repr] of an [int] *)
Definition repr_int (z : Z) : result string :=
  if bool_decide (int_max_str_digits < int_digits z)%nat then Raise int_limit_error
  else Ok (decimal z).

(** *** String literals *)

Definition squote : ascii := ascii_of_N 39.
Definition dquote : ascii := ascii_of_N 34.
Definition backslash : ascii := ascii_of_N 92.

Definition hex_char (n : N) : ascii :=
  if n <? 10 then ascii_of_N (48 + n) else ascii_of_N (87 + n).

Definition hex_of_char (c : ascii) : option N :=
  let n := N_of_ascii c in
  if (48 <=? n) && (n <=? 57) then Some (n - 48)
  else if (97 <=? n) && (n <=? 102) then Some (n - 87)
  else if (65 <=? n) && (n <=? 70) then Some (n - 55)
  else None.

(** The code points below 256 that [repr] copies as they are. *)
Definition printable (n : N) : bool :=
  (32 <=? n) && (n <? 127) || (161 <=? n) && negb (n =? 173).

Fixpoint contains (c : ascii) (s : string) : bool :=
  match s with
  | EmptyString => false
  | String c' s => bool_decide (c' = c) || contains c s
  end.

(** The quote [repr] puts around [s]: double quotes when [s] has a single
    quote and no double quote. *)
Definition quote_of (s : string) : ascii :=
  if contains squote s && negb (contains dquote s) then dquote else squote.

Definition escape (quote c : ascii) : string :=
  let n := N_of_ascii c in
  if bool_decide (c = quote) || bool_decide (c = backslash) then String backslash (String c "")
  else if n =? 9 then String backslash "t"
  else if n =? 10 then String backslash "n"
  else if n =? 13 then String backslash "r"
  else if printable n then String c ""
  else String backslash (String "x" (String (hex_char (n / 16)) (String (hex_char (n mod 16)) ""))).

Fixpoint escape_all (quote : ascii) (s : string) : string :=
  match s with
  | EmptyString => ""
  | String c s => escape quote c +:+ escape_all quote s
  end.

(** [repr] of a [str] *)
Definition repr_str (s : string) : string :=
  let q := quote_of s in
  String q (escape_all q s +:+ String q "").

(** *** Floats *)

Local Open Scope Z_scope.

(** Exponents are kept above zero by this offset: the smallest binary64
    exponent is [-1074]. *)
Definition bias : Z := 1076.

(** The integer nearest to [num / den], ties to even. *)
Definition round_div (num den : Z) : Z :=
  let q := num / den in
  let r := num mod den in
  if 2 * r <? den then q
  else if den <? 2 * r then q + 1
  else if Z.even q then q else q + 1.

(** The [t >= 0] with [num / den < 2 ^ t], and [2 ^ (t - 1) <= num / den]
    when [t > 0]. *)
Definition magnitude (num den : Z) : Z :=
  let t0 := Z.log2 num - Z.log2 den in
  if t0 <? 0 then 0
  else if den * 2 ^ t0 <=? num then t0 + 1 else t0.

(** The binary64 nearest to the fraction [n / d] (ties to even), with sign
    [s]: what reading a decimal literal does. *)
Definition round_binary64 (s : bool) (n d : Z) : spec_float :=
  let N := n * 2 ^ bias in
  let t := magnitude N d in
  let e := Z.max (t - prec) 2 in
  let q := round_div N (d * 2 ^ e) in
  let '(m, e) := if q =? 2 ^ prec then (2 ^ (prec - 1), e + 1) else (q, e) in
  if m =? 0 then S754_zero s
  else if emax - prec + bias <? e then S754_infinity s
  else S754_finite s (Z.to_pos m) (e - bias).

(** The float a decimal literal with the digits [D] and the exponent [k]
    denotes: [D * 10 ^ k], rounded. *)
Definition float_of_decimal (s : bool) (D : N) (k : Z) : spec_float :=
  round_binary64 s (Z.of_N D * 10 ^ Z.max k 0) (10 ^ Z.max (- k) 0).

(** [m * 2 ^ e] as a fraction. *)
Definition numerator (m : positive) (e : Z) : Z := Zpos m * 2 ^ Z.max e 0.
Definition denominator (e : Z) : Z := 2 ^ Z.max (- e) 0.

Definition decimal_length (n : Z) : Z := Z.of_nat (length (digits (Z.to_N n))).

(** The decimal exponent of [n / d]: [10 ^ g <= n / d < 10 ^ (g + 1)]. *)
Definition exponent10 (n d : Z) : Z :=
  let g := decimal_length n - decimal_length d in
  if d * 10 ^ Z.max g 0 <=? n * 10 ^ Z.max (- g) 0 then g else g - 1.

(** The two decimals of [ndig] digits around [m * 2 ^ e]: the one that reads
    back as the float, the nearer one when both do. *)
Definition candidate (m : positive) (e : Z) (ndig : Z) : option (Z * Z) :=
  let n := numerator m e in
  let d := denominator e in
  let k := exponent10 n d - ndig + 1 in
  let num := n * 10 ^ Z.max (- k) 0 in
  let den := d * 10 ^ Z.max k 0 in
  let lo := num / den in
  let r := num mod den in
  let ok D := bool_decide (float_of_decimal false (Z.to_N D) k = S754_finite false m e) in
  let nearer_lo := (2 * r <? den) || ((2 * r =? den) && Z.even lo) in
  match ok lo, ok (lo + 1) with
  | true, true => Some (if nearer_lo then lo else lo + 1, k)
  | true, false => Some (lo, k)
  | false, true => Some (lo + 1, k)
  | false, false => None
  end.

(** The decimal of [ndig] digits nearest to [m * 2 ^ e]. *)
Definition nearest (m : positive) (e : Z) (ndig : Z) : Z * Z :=
  let n := numerator m e in
  let d := denominator e in
  let k := exponent10 n d - ndig + 1 in
  (round_div (n * 10 ^ Z.max (- k) 0) (d * 10 ^ Z.max k 0), k).

(** The shortest decimal that reads back as the float: [ndig], [ndig + 1],
    ... digits are tried, [fuel] times; 17 digits always do. *)
Fixpoint shortest_from (m : positive) (e : Z) (ndig : Z) (fuel : nat) : Z * Z :=
  match fuel with
  | O => nearest m e 17
  | S fuel =>
      match candidate m e ndig with
      | Some c => c
      | None => shortest_from m e (ndig + 1) fuel
      end
  end.

Definition shortest (m : positive) (e : Z) : Z * Z := shortest_from m e 1 16.

Fixpoint strip_zeros (ds : list N) : list N :=
  match ds with
  | [] => []
  | d :: ds =>
      match strip_zeros ds with
      | [] => if (d =? 0)%N then [] else [d]
      | r => d :: r
      end
  end.

Definition zeros (n : Z) : list N := replicate (Z.to_nat n) 0%N.

Definition repr_exponent (e : Z) : string :=
  String (if e <? 0 then "-"%char else "+"%char)
    (let ds := digits (Z.to_N (Z.abs e)) in
     string_of_digits (if Z.abs e <? 10 then 0%N :: ds else ds)).

(** The text of the float with the significant digits [ds] and the decimal
    point after the first [decpt] of them. *)
Definition format_float (ds : list N) (decpt : Z) : string :=
  let n := Z.of_nat (length ds) in
  if (decpt <=? -4) || (16 <? decpt) then
    match ds with
    | [] => ""
    | [d] => string_of_digits [d] +:+ String "e" (repr_exponent (decpt - 1))
    | d :: ds => string_of_digits [d] +:+ String "." (string_of_digits ds)
                   +:+ String "e" (repr_exponent (decpt - 1))
    end
  else if decpt <=? 0 then
    String "0" (String "." (string_of_digits (zeros (- decpt) ++ ds)))
  else if n <=? decpt then
    string_of_digits (ds ++ zeros (decpt - n)) +:+ ".0"
  else
    string_of_digits (take (Z.to_nat decpt) ds) +:+
      String "." (string_of_digits (drop (Z.to_nat decpt) ds)).

Definition repr_sign (s : bool) : string := if s then "-" else "".

(** [repr] of a [float] *)
Definition repr_float (f : spec_float) : string :=
  match f with
  | S754_nan => "nan"
  | S754_infinity s => repr_sign s +:+ "inf"
  | S754_zero s => repr_sign s +:+ "0.0"
  | S754_finite s m e =>
      let '(D, k) := shortest m e in
      let ds := digits (Z.to_N D) in
      repr_sign s +:+ format_float (strip_zeros ds) (Z.of_nat (length ds) + k)
  end.

(** *** [str] of an assignment *)

Definition repr_value (v : value) : result string :=
  match v with
  | VInt z => repr_int z
  | VFloat f => Ok (repr_float f)
  | VStr s => Ok (repr_str s)
  | VObj _ text => Ok text
  end.

Definition repr_item (kv : string * value) : result string :=
  r ← repr_value kv.2; Ok (repr_str kv.1 +:+ ": " +:+ r).

Fixpoint repr_items (a : assignment) : result string :=
  match a with
  | [] => Ok ""
  | [kv] => repr_item kv
  | kv :: a => r ← repr_item kv; rest ← repr_items a; Ok (r +:+ ", " +:+ rest)
  end.

(** [str(v)] for a [dict] [v]: the items in order, or the exception of the
    first value that does not print. *)
Definition str (a : assignment) : result string :=
  items ← repr_items a; Ok ("{" +:+ items +:+ "}").

(** *** [eval] of a column key

    The texts [eval] is given are those [str] printed. The model reads a
    dict display whose keys are string literals and whose values are string
    literals, numbers or names, with single spaces or none between the
    tokens; any other text is reported as a [SyntaxError], although Python
    accepts more expressions. No name that [repr] prints ([inf], [nan]) is
    bound where [ret_f] calls [eval], so a name raises [NameError] when it is
    evaluated. *)

Definition syntax_error : exn := PyErr "SyntaxError" "invalid syntax".
Definition literal_limit_error (ndigits : nat) : exn :=
  PyErr "SyntaxError"
    ("Exceeds the limit (4300 digits) for integer string conversion: value has " +:+
     string_of_digits (digits (N.of_nat ndigits)) +:+
     " digits; use sys.set_int_max_str_digits() to increase the limit - " +:+
     "Consider hexadecimal for huge integer literals to avoid decimal conversion limits.")%string.
Definition name_error (name : string) : exn :=
  PyErr "NameError" ("name '" +:+ name +:+ "' is not defined").

Inductive expr :=
| ELit (v : value)
| EName (name : string).

Fixpoint skip_spaces (s : string) : string :=
  match s with
  | String c s' => if bool_decide (c = " "%char) then skip_spaces s' else s
  | EmptyString => s
  end.

Fixpoint read_digits (s : string) : list N * string :=
  match s with
  | String c s' =>
      match digit_of_char c with
      | Some d => let '(ds, rest) := read_digits s' in (d :: ds, rest)
      | None => ([], s)
      end
  | EmptyString => ([], s)
  end.

Definition name_start (c : ascii) : bool :=
  let n := N_of_ascii c in
  ((65 <=? n) && (n <=? 90) || (97 <=? n) && (n <=? 122) || (n =? 95))%N.

Definition name_char (c : ascii) : bool :=
  name_start c || bool_decide (is_Some (digit_of_char c)).

Fixpoint read_name (s : string) : string * string :=
  match s with
  | String c s' =>
      if name_char c then let '(n, rest) := read_name s' in (String c n, rest)
      else ("", s)
  | EmptyString => ("", s)
  end.

(** The body of a string literal, after its opening [quote]. *)
Fixpoint read_string (quote : ascii) (s : string) : result (string * string) :=
  match s with
  | EmptyString => Raise syntax_error
  | String c s' =>
      if bool_decide (c = quote) then Ok ("", s')
      else if bool_decide (c = backslash) then
        match s' with
        | String e s'' =>
            if bool_decide (e = backslash) || bool_decide (e = squote) || bool_decide (e = dquote)
            then '(body, rest) ← read_string quote s''; Ok (String e body, rest)
            else if bool_decide (e = "n"%char)
            then '(body, rest) ← read_string quote s''; Ok (String (ascii_of_N 10) body, rest)
            else if bool_decide (e = "r"%char)
            then '(body, rest) ← read_string quote s''; Ok (String (ascii_of_N 13) body, rest)
            else if bool_decide (e = "t"%char)
            then '(body, rest) ← read_string quote s''; Ok (String (ascii_of_N 9) body, rest)
            else if bool_decide (e = "x"%char) then
              match s'' with
              | String h1 (String h2 s3) =>
                  match hex_of_char h1, hex_of_char h2 with
                  | Some n1, Some n2 =>
                      '(body, rest) ← read_string quote s3;
                      Ok (String (ascii_of_N (16 * n1 + n2)) body, rest)
                  | _, _ => Raise syntax_error
                  end
              | _ => Raise syntax_error
              end
            else Raise syntax_error
        | EmptyString => Raise syntax_error
        end
      else if (N_of_ascii c =? 10)%N || (N_of_ascii c =? 13)%N then Raise syntax_error
      else '(body, rest) ← read_string quote s'; Ok (String c body, rest)
  end.

(** The exponent part of a float literal, if there is one. *)
Definition read_exponent (s : string) : result (option Z * string) :=
  match s with
  | String c s1 =>
      if bool_decide (c = "e"%char) || bool_decide (c = "E"%char) then
        let '(neg, s2) :=
          match s1 with
          | String c' s2 =>
              if bool_decide (c' = "-"%char) then (true, s2)
              else if bool_decide (c' = "+"%char) then (false, s2)
              else (false, s1)
          | EmptyString => (false, s1)
          end in
        let '(ds, rest) := read_digits s2 in
        match ds with
        | [] => Raise syntax_error
        | _ => Ok (Some (if neg then - Z.of_N (number ds) else Z.of_N (number ds)), rest)
        end
      else Ok (None, s)
  | EmptyString => Ok (None, s)
  end.

(** The fraction part of a float literal, if there is one. *)
Definition read_fraction (s : string) : option (list N) * string :=
  match s with
  | String c s1 =>
      if bool_decide (c = "."%char) then let '(ds, rest) := read_digits s1 in (Some ds, rest)
      else (None, s)
  | EmptyString => (None, s)
  end.

(** A number literal; [neg] when a minus sign stood before it. *)
Definition read_number (neg : bool) (s : string) : result (value * string) :=
  let '(ip, s1) := read_digits s in
  match ip with
  | [] => Raise syntax_error
  | d0 :: ip' =>
      let '(fp, s2) := read_fraction s1 in
      '(ex, s3) ← read_exponent s2;
      match fp, ex with
      | None, None =>
          if bool_decide (d0 = 0%N) && bool_decide (ip' <> []) && negb (number ip =? 0)%N
          then Raise syntax_error
          else if negb (bool_decide (d0 = 0%N)) && bool_decide (int_max_str_digits < length ip)%nat
          then Raise (literal_limit_error (length ip))
          else Ok (VInt (if neg then - Z.of_N (number ip) else Z.of_N (number ip)), s3)
      | _, _ =>
          let fp := default [] fp in
          Ok (VFloat (float_of_decimal neg (number (ip ++ fp))
                        (default 0 ex - Z.of_nat (length fp))), s3)
      end
  end.

Definition read_value (s : string) : result (expr * string) :=
  match s with
  | String c s' =>
      if bool_decide (c = squote) || bool_decide (c = dquote) then
        '(body, rest) ← read_string c s'; Ok (ELit (VStr body), rest)
      else if bool_decide (c = "-"%char) then
        match s' with
        | String c' _ =>
            if name_start c' then let '(n, rest) := read_name s' in Ok (EName n, rest)
            else '(v, rest) ← read_number true s'; Ok (ELit v, rest)
        | EmptyString => Raise syntax_error
        end
      else if name_start c then let '(n, rest) := read_name s in Ok (EName n, rest)
      else '(v, rest) ← read_number false s; Ok (ELit v, rest)
  | EmptyString => Raise syntax_error
  end.

(** The entries of a dict display, up to its closing brace and the end of
    the text. *)
Fixpoint read_entries (fuel : nat) (s : string) : result (list (string * expr)) :=
  match fuel with
  | O => Raise syntax_error
  | S fuel =>
      match skip_spaces s with
      | String q s1 =>
          if bool_decide (q = squote) || bool_decide (q = dquote) then
            '(key, s2) ← read_string q s1;
            match skip_spaces s2 with
            | String c s3 =>
                if bool_decide (c = ":"%char) then
                  '(v, s4) ← read_value (skip_spaces s3);
                  match skip_spaces s4 with
                  | String c' s5 =>
                      if bool_decide (c' = "}"%char) then
                        match skip_spaces s5 with
                        | EmptyString => Ok [(key, v)]
                        | _ => Raise syntax_error
                        end
                      else if bool_decide (c' = ","%char) then
                        match skip_spaces s5 with
                        | String c'' s6 =>
                            if bool_decide (c'' = "}"%char) then
                              match skip_spaces s6 with
                              | EmptyString => Ok [(key, v)]
                              | _ => Raise syntax_error
                              end
                            else rest ← read_entries fuel s5; Ok ((key, v) :: rest)
                        | EmptyString => Raise syntax_error
                        end
                      else Raise syntax_error
                  | EmptyString => Raise syntax_error
                  end
                else Raise syntax_error
            | EmptyString => Raise syntax_error
            end
          else Raise syntax_error
      | EmptyString => Raise syntax_error
      end
  end.

Definition parse_dict (s : string) : result (list (string * expr)) :=
  match skip_spaces s with
  | String c s1 =>
      if bool_decide (c = "{"%char) then
        match skip_spaces s1 with
        | String c' s2 =>
            if bool_decide (c' = "}"%char) then
              match skip_spaces s2 with
              | EmptyString => Ok []
              | _ => Raise syntax_error
              end
            else read_entries (String.length s) s1
        | EmptyString => Raise syntax_error
        end
      else Raise syntax_error
  | EmptyString => Raise syntax_error
  end.

Definition eval_expr (e : expr) : result value :=
  match e with
  | ELit v => Ok v
  | EName n => Raise (name_error n)
  end.

(** The display is evaluated entry by entry, each stored with [d[k] = v]. *)
Fixpoint eval_entries (es : list (string * expr)) (acc : assignment) : result assignment :=
  match es with
  | [] => Ok acc
  | (k, e) :: es => v ← eval_expr e; eval_entries es (dict_set k v acc)
  end.

(** [eval(s)] *)
Definition eval (s : string) : result assignment :=
  es ← parse_dict s; eval_entries es [].

End Codec.

(** ** Values that read back *)

(** A [float] that is a number: a zero or a finite binary64. *)
Definition finite64 (f : spec_float) : bool :=
  match f with
  | S754_zero _ => true
  | S754_finite _ m e => bounded prec emax m e
  | _ => false
  end.

(** The values whose text [eval] reads back as the value: an [int] within
    the digit limit of the conversion, a [str] and a [float] that is a
    number. *)
Definition supported (v : value) : bool :=
  match v with
  | VInt z => bool_decide (Codec.int_digits z <= Codec.int_max_str_digits)%nat
  | VFloat f => finite64 f
  | VStr _ => true
  | VObj _ _ => false
  end.

(** ** Instances of the decorator classes

    An instance has one namespace: what [__init__] writes ([func],
    [_variables], [filters]) and what [set_parameters] writes with [setattr]
    share it, and an attribute of the instance hides the method of the class
    of the same name. The record keeps the values that [setattr] wrote in
    [attrs] and the [dict] that [set_parameters] stored in [_variables]. A
    parameter named [_variables] is in [attrs] only until [set_parameters]
    stores the [dict] over it, at the end of the same call. The function and
    the methods are those of the class unless [attrs] holds their name, which
    [call] looks up. The attribute [filters] is never read. *)
Record instance := Instance {
  attrs : gmap string value;
  _variables : option assignment
}.

(** [type(v).__name__] *)
Definition type_name (v : value) : string :=
  match v with
  | VInt _ => "int"
  | VFloat _ => "float"
  | VStr _ => "str"
  | VObj cls _ => cls
  end.

(** [setattr(self, key, val)] on an instance of the class [cls]: an
    instance attribute, but for the three names that are descriptors of
    every object, which refuse a value of these types. *)
Definition setattr (cls : string) (key : string) (val : value) : prog instance unit :=
  fun self =>
    if bool_decide (key = "__class__") then
      (Raise (PyErr "TypeError"
                ("__class__ must be set to a class, not '" +:+ type_name val +:+ "' object")),
       self)
    else if bool_decide (key = "__dict__") then
      (Raise (PyErr "TypeError"
                ("__dict__ must be set to a dictionary, not a '" +:+ type_name val +:+ "'")),
       self)
    else if bool_decide (key = "__weakref__") then
      (Raise (PyErr "AttributeError"
                ("attribute '__weakref__' of '" +:+ cls +:+ "' objects is not writable")),
       self)
    else (Ok (), Instance (<[key := val]> (attrs self)) (_variables self)).

(** [for key, val in variables.items(): setattr(self, key, val)] *)
Fixpoint setattrs (cls : string) (variables : assignment) : prog instance unit :=
  match variables with
  | [] => mret ()
  | kv :: variables => _ ← setattr cls kv.1 kv.2; setattrs cls variables
  end.

(** [set_parameters(self, variables)], the same code in both classes. *)
Definition set_variables (variables : assignment) : prog instance unit := fun self =>
  (Ok (), Instance (delete "_variables" (attrs self)) (Some variables)).

Definition set_parameters (cls : string) (variables : assignment) : prog instance unit :=
  _ ← (match variables with
       | [] => mret ()
       | _ => setattrs cls variables
       end : prog instance unit);
  set_variables variables.

(** [self.name], looked up to be called: the method or the function of the
    class, unless a parameter of that name hides it, and no value is
    callable. *)
Definition call (name : string) : prog instance unit := fun self =>
  match attrs self !! name with
  | Some v => (Raise (PyErr "TypeError" ("'" +:+ type_name v +:+ "' object is not callable")), self)
  | None => (Ok (), self)
  end.

(** ** What a user function returns *)

Inductive pyobj :=
| OSeries (idx : list Z) (c : column)
| OBundle (b : bundle)
| ONone
| OBool (b : bool).

(** The result of a filter function: a tuple (or list), a bare [pd.Series],
    [None] or a single boolean. *)
Inductive results :=
| RTuple (items : list pyobj)
| RSeries (idx : list Z) (c : column)
| RNone
| RBool (b : bool).

(** [isinstance(results, Iterable)], with what iterating yields: a tuple
    its items, a [pd.Series] its cells. *)
Definition iterate (r : results) : option (list pyobj) :=
  match r with
  | RTuple items => Some items
  | RSeries _ c => Some (OBool <$> c)
  | RNone => None
  | RBool _ => None
  end.

Definition as_object (r : results) : pyobj :=
  match r with
  | RTuple _ => ONone
  | RSeries idx c => OSeries idx c
  | RNone => ONone
  | RBool b => OBool b
  end.

(** [a, b = items] *)
Definition unpack2 (items : list pyobj) : result (pyobj * pyobj) :=
  match items with
  | [a; b] => Ok (a, b)
  | [] => Raise (PyErr "ValueError" "not enough values to unpack (expected 2, got 0)")
  | [_] => Raise (PyErr "ValueError" "not enough values to unpack (expected 2, got 1)")
  | _ => Raise (PyErr "ValueError" "too many values to unpack (expected 2)")
  end.

(** A [pd.DataFrame] whose columns are keyed by strings. *)
Record frame := Frame {
  f_index : list Z;
  f_cols : list (string * column)
}.

(** [zip] of the unpacked [arrays]: the transposition. *)
Fixpoint zip_star {A} (arrays : list (list A)) : list (list A) :=
  match arrays with
  | [] => []
  | [a] => (fun x => [x]) <$> a
  | a :: rest => zip_with cons a (zip_star rest)
  end.

(** [df.columns = new] with another number of labels *)
Definition length_mismatch (expected new : nat) : exn :=
  PyErr "ValueError"
    ("Length mismatch: Expected axis has " +:+ Codec.decimal (Z.of_nat expected) +:+
     " elements, new values have " +:+ Codec.decimal (Z.of_nat new) +:+ " elements").

(** ** Filter *)

Module Filter.

(** [Filter.set_parameters(self, variables)] *)
Definition set_parameters : assignment -> prog instance unit := set_parameters "Filter".

Section create.

(** A row of the price table. *)
Context {bar : Type}.

(** The decorated function: it reads its parameters on the instance. *)
Variable func : instance -> list bar -> result results.

Variable default_parameters : assignment.

(** The helpers of [finlab_crypto.utility], which is not among the sources,
    and the constructors of pandas: the frame of the signals, the
    [pd.Index] that [columns.map] builds of the mapped values, and the
    labels of [pd.MultiIndex.from_tuples(tuples, names=names)]. pandas gives
    every level one type. *)
Variable enumerate_variables : option spec -> list assignment.
Variable remove_pd_object : assignment -> assignment.
Variable pd_DataFrame : list (string * pyobj) -> result frame.
Variable Index_map : list value -> list value.
Variable MultiIndex_from_tuples : list (list value) -> list string -> result (list (list value)).

(** [Filter.__init__]: the instance, when the default parameters can be
    set. *)
Definition init : result instance :=
  match set_parameters default_parameters (Instance ∅ None) with
  | (Ok _, self) => Ok self
  | (Raise e, _) => Raise e
  end.

(** The assignments [ret_f] runs: the enumeration, or the defaults when it
    is empty. *)
Definition variable_enumerate (variables : option spec) : list assignment :=
  let variable_enumerate := enumerate_variables variables in
  if bool_decide (length variable_enumerate = 0)
  then variable_enumerate ++ [default_parameters]
  else variable_enumerate.

(** [signals[str(v)] = a] *)
Definition store_signal (v : assignment) (a : pyobj) (signals : list (string * pyobj))
    : result (list (string * pyobj)) :=
  key ← Codec.str v; Ok (dict_set key a signals).

(** The body of the loop of [ret_f], for the assignment [v]. *)
Definition variant (ohlcv : list bar) (st : list (string * pyobj) * pyobj) (v : assignment)
    : prog instance (list (string * pyobj) * pyobj) :=
  let '(signals, fig_data) := st in
  _ ← call "set_parameters";
  _ ← set_parameters v;
  _ ← call "func";
  results ← ((fun self => (func self ohlcv, self)) : prog instance results);
  lift (let v := remove_pd_object v in
        match iterate results with
        | Some items =>
            '(a, b) ← unpack2 items;
            signals ← store_signal v a signals;
            Ok (signals, b)
        | None =>
            signals ← store_signal v (as_object results) signals;
            Ok (signals, fig_data)
        end).

(** [for v in variable_enumerate: ...] *)
Fixpoint variants (ohlcv : list bar) (vs : list assignment)
    (st : list (string * pyobj) * pyobj) : prog instance (list (string * pyobj) * pyobj) :=
  match vs with
  | [] => mret st
  | v :: vs => st' ← variant ohlcv st v; variants ohlcv vs st'
  end.

(** The end of [ret_f]: the keys of the columns are read back, parameter by
    parameter, into a [pd.MultiIndex] with one level per parameter. *)
Definition decode_columns (signals : frame) : result table :=
  param_names ←
    match f_cols signals with
    | [] => Raise (PyErr "IndexError" "index 0 is out of bounds for axis 0 with size 0")
    | (s, _) :: _ => a ← Codec.eval s; Ok a.*1
    end;
  arrays ← mapM (fun p =>
                   values ← mapM (fun sc => a ← Codec.eval sc.1; dict_get p a) (f_cols signals);
                   Ok (Index_map values)) param_names;
  let tuples := zip_star arrays in
  columns ← MultiIndex_from_tuples tuples param_names;
  if bool_decide (length columns = length (f_cols signals))
  then Ok (Table (f_index signals) param_names (zip columns (f_cols signals).*2))
  else Raise (length_mismatch (length (f_cols signals)) (length columns)).

(** [Filter.create(self, variables)(ohlcv)] *)
Definition ret_f (variables : option spec) (ohlcv : list bar) : prog instance (table * pyobj) :=
  '(signals, fig_data) ← variants ohlcv (variable_enumerate variables) ([], OBundle ∅);
  signals ← lift (pd_DataFrame signals);
  signals ← lift (decode_columns signals);
  mret (signals, fig_data).

End create.

End Filter.
(** ** The vectorbt and pandas operations [_add_filters] calls

    These are library calls; the definitions follow the library under its
    default broadcasting settings: the row indexes must be the same, and the
    column indexes are kept when they are equal and stacked otherwise, a
    level that repeats another in name and values being dropped. *)

(** The labels of the columns of a frame, in column order. *)
Definition labels (t : table) : list (list value) := (cols t).*1.

(** [df.vbt.tile(n)]: the whole block of columns, [n] times in a row. *)
Definition vbt_tile (n : nat) (t : table) : table :=
  Table (index t) (names t) (mjoin (replicate n (cols t))).

(** [df.vbt.repeat(n)]: each column [n] times in a row. *)
Definition vbt_repeat (n : nat) (t : table) : table :=
  Table (index t) (names t) (c ← cols t; replicate n c).

(** The value of a float that is the integer [z]. *)
Definition float_is_int (f : spec_float) (z : Z) : bool :=
  match f with
  | S754_zero _ => (z =? 0)%Z
  | S754_finite s m e =>
      let sign k := if s then (- k)%Z else k in
      if (0 <=? e)%Z then (z =? sign (Zpos m * 2 ^ e))%Z
      else ((Zpos m mod 2 ^ (- e) =? 0) && (z =? sign (Zpos m / 2 ^ (- e))))%Z
  | _ => false
  end.

(** [x == y] on label values: numbers are compared by value, an [int] with
    a [float] too, and nan is equal to nothing. *)
Definition py_eq (x y : value) : bool :=
  match x, y with
  | VInt a, VInt b => (a =? b)%Z
  | VFloat f, VFloat g => SFeqb f g
  | VInt a, VFloat f | VFloat f, VInt a => float_is_int f a
  | VStr s, VStr t => bool_decide (s = t)
  | _, _ => false
  end.

Definition is_nan (v : value) : bool :=
  match v with VFloat S754_nan => true | _ => false end.

Fixpoint all2 {A} (eq : A -> A -> bool) (l k : list A) : bool :=
  match l, k with
  | [], [] => true
  | x :: l, y :: k => eq x y && all2 eq l k
  | _, _ => false
  end.

(** [pd.Index.equals] on the column indexes of two frames: as many levels,
    and the same values in the same columns, nan being equal to nan there;
    the names of the levels have no part in it. *)
Definition index_equals (a b : table) : bool :=
  bool_decide (length (names a) = length (names b)) &&
  all2 (all2 (fun x y => py_eq x y || is_nan x && is_nan y)) (labels a) (labels b).

(** A level of a column index: its name and its value in every column. *)
Definition level_values (labels : list (list value)) (i : nat) : list (option value) :=
  (fun l => l !! i) <$> labels.

Definition levels_of (names : list string) (labels : list (list value))
    : list (string * list (option value)) :=
  imap (fun i n => (n, level_values labels i)) names.

Definition level_eq (a b : string * list (option value)) : bool :=
  bool_decide (a.1 = b.1) &&
  all2 (fun x y => match x, y with
                   | Some x, Some y => py_eq x y
                   | None, None => true
                   | _, _ => false
                   end) a.2 b.2.

(** [drop_duplicate_levels(index, keep='last')]: the levels are visited
    from the last to the first, and a level equal to one that was kept is
    dropped. The result says for each level whether it is kept. *)
Fixpoint kept_levels (levels : list (string * list (option value)))
    : list bool * list (string * list (option value)) :=
  match levels with
  | [] => ([], [])
  | x :: levels =>
      let '(kept, seen) := kept_levels levels in
      if existsb (level_eq x) seen then (false :: kept, seen)
      else (true :: kept, seen ++ [x])
  end.

(** The items of [l] at the positions that [kept] keeps. *)
Fixpoint select {A} (kept : list bool) (l : list A) : list A :=
  match kept, l with
  | b :: kept, x :: l => if b then x :: select kept l else select kept l
  | _, _ => []
  end.

(** [stack_indexes([a, b])]: the levels of [a] over the levels of [b],
    without the duplicates. *)
Definition stack_indexes (na : list string) (la : list (list value))
    (nb : list string) (lb : list (list value)) : list string * list (list value) :=
  let names := na ++ nb in
  let labels := zip_with app la lb in
  let kept := (kept_levels (levels_of names labels)).1 in
  (select kept names, select kept <$> labels).

(** The column index of [a.vbt & b.vbt] for two frames of the same width. *)
Definition broadcast_columns (a b : table) : list string * list (list value) :=
  if index_equals a b then (names a, labels a)
  else stack_indexes (names a) (labels a) (names b) (labels b).

(** [a.vbt & b.vbt] for two frames of the same width: [np.logical_and] cell
    by cell, under the broadcast column index. Row indexes that differ are
    refused. Frames of different widths are broadcast by vectorbt when one
    of them has a single column; [_add_filters] always builds both operands
    with the same width, so that case is left as the library's error. *)
Definition vbt_and (a b : table) : result table :=
  if negb (bool_decide (index a = index b)) then
    Raise (PyErr "ValueError" "Broadcasting index is not allowed when index_from=strict")
  else if negb (bool_decide (width a = width b)) then
    Raise (PyErr "ValueError" "Indexes could not be broadcast together")
  else
    let '(names, labels) := broadcast_columns a b in
    Ok (Table (index a) names
          (zip labels (zip_with (zip_with andb) (cols a).*2 (cols b).*2))).

(** [df.columns = other.columns]: the labels are replaced, the data stays. *)
Definition set_columns (t other : table) : result table :=
  if negb (bool_decide (width t = width other)) then
    Raise (length_mismatch (width t) (width other))
  else
    Ok (Table (index t) (names other)
          (zip_with (fun co c => (co.1, c.2)) (cols other) (cols t))).

(** [df.columns = df.columns.set_names(new_names)] *)
Definition set_names (new_names : list string) (t : table) : table :=
  Table (index t) new_names (cols t).
(** ** Strategy: filter composition *)

Module Strategy.

(** [Strategy.set_parameters(self, variables)] *)
Definition set_parameters : assignment -> prog instance unit := set_parameters "Strategy".

(** [fname + '_' + n] *)
Definition prefixed (fname n : string) : string := fname +:+ "_" +:+ n.

(** [fig_data[cat][key] = fig] *)
Definition setitem2 (cat key : string) (fig : artifact) (fig_data : bundle) : bundle :=
  alter (insert key fig) cat fig_data.

(** One of the two blocks under [# merge figures], for the category [cat]
    (['figures'] or ['overlaps']). *)
Definition merge_category (cat fname : string) (filter_figures fig_data : bundle) : bundle :=
  match filter_figures !! cat with
  | Some figs =>
      let fig_data :=
        match fig_data !! cat with
        | None => <[cat := ∅]> fig_data
        | Some _ => fig_data
        end in
      map_fold (fun name fig fd => setitem2 cat (prefixed fname name) fig fd) fig_data figs
  | None => fig_data
  end.

Definition merge_figures (fname : string) (filter_figures : option bundle)
    (fig_data : bundle) : bundle :=
  match filter_figures with
  | Some ff => merge_category "overlaps" fname ff (merge_category "figures" fname ff fig_data)
  | None => fig_data
  end.

(** The body of the loop of [_add_filters], for the filter [fname]. *)
Definition add_filter (st : table * table * bundle)
    (f : string * (table * option bundle)) : result (table * table * bundle) :=
  let '(entries, exits, fig_data) := st in
  let '(fname, (filter_df, filter_figures)) := f in
  let filter_df := set_names (prefixed fname <$> names filter_df) filter_df in
  entries' ← vbt_and (vbt_tile (width entries) filter_df)
                     (vbt_repeat (width filter_df) entries);
  let exits := vbt_repeat (width filter_df) exits in
  exits' ← set_columns exits entries';
  Ok (entries', exits', merge_figures fname filter_figures fig_data).

(** [Strategy._add_filters(entries, exits, fig_data, filters)] *)
Definition _add_filters (entries exits : table) (fig_data : bundle)
    (filters : list (string * (table * option bundle)))
    : result (table * table * bundle) :=
  for_each add_filter filters (entries, exits, fig_data).

(** [Strategy._enumerate_filters(ohlcv, filters)]: each filter is called on
    the price table. A filter is the function [Filter.create] returned. *)
Definition _enumerate_filters {bar} (ohlcv : list bar)
    (filters : list (string * (list bar -> result (table * option bundle))))
    : result (list (string * (table * option bundle))) :=
  for_each (fun ret f => r ← f.2 ohlcv; Ok (dict_set f.1 r ret)) filters [].

(** What [df.squeeze()] returns: the frame, a series when one axis has
    length one, a scalar when both have. *)
Inductive squeezed :=
| SqFrame (t : table)
| SqSeries (c : column)
| SqScalar (b : bool).

Definition squeeze (t : table) : squeezed :=
  match cols t, index t with
  | [(_, [b])], [_] => SqScalar b
  | [(_, c)], _ => SqSeries c
  | cs, [_] => SqSeries (cs.*2 ≫= take 1)
  | _, _ => SqFrame t
  end.

(** The object store: the [dict]s the caller holds, by reference. *)
Abbreviation store := (gmap nat spec).

Record world := World {
  heap : store;
  self : instance
}.

(** What [backtest] returns. *)
Inductive outcome {portfolio : Type} :=
| Signals (entries exits : squeezed) (fig_data : bundle)
| Portfolio (p : portfolio).
Arguments outcome : clear implicits.

Definition exit_vars : list string := ["sl_stop"; "ts_stop"; "tp_stop"].

(** [copy.copy(d)]: a new [dict] with the items of [d]. *)
Definition copy_copy (d : nat) : prog world nat := fun w =>
  let d' := fresh (dom (heap w)) in
  (Ok d', World (<[d' := heap w !!! d]> (heap w)) (self w)).

(** [e in d] *)
Definition contains (e : string) (d : nat) : prog world bool := fun w =>
  (Ok (dict_mem e (heap w !!! d)), w).

(** [d[e]] *)
Definition getitem (d : nat) (e : string) : prog world candidates := fun w =>
  (dict_get e (heap w !!! d), w).

(** [d.pop(e)] *)
Definition pop (d : nat) (e : string) : prog world unit := fun w =>
  if dict_mem e (heap w !!! d)
  then (Ok (), World (<[d := dict_pop e (heap w !!! d)]> (heap w)) (self w))
  else (Raise (PyErr "KeyError" e), w).

(** The items of the [dict] at [d] *)
Definition items (d : nat) : prog world spec := fun w => (Ok (heap w !!! d), w).

(** The first loop of [backtest]: the stop parameters go from the copy to
    [stop_vars]. *)
Fixpoint split_stops (es : list string) (variables variables_without_stop : nat)
    (stop_vars : spec) : prog world spec :=
  match es with
  | [] => mret stop_vars
  | e :: es =>
      b ← contains e variables_without_stop;
      if (b : bool) then
        v ← getitem variables e;
        let stop_vars := dict_set e v stop_vars in
        _ ← pop variables_without_stop e;
        split_stops es variables variables_without_stop stop_vars
      else split_stops es variables variables_without_stop stop_vars
  end.

(** [ohlcv.iloc[-lookback:] if lookback else ohlcv] *)
Definition ohlcv_lookback {bar} (ohlcv : list bar) (lookback : option Z) : list bar :=
  match lookback with
  | None => ohlcv
  | Some n =>
      if (n =? 0)%Z then ohlcv
      else if (0 <? n)%Z then drop (length ohlcv - Z.to_nat n) ohlcv
      else drop (Z.to_nat (- n)) ohlcv
  end.

Section backtest.

Context {bar prices portfolio kwargs objective : Type}.

Variable default_parameters : assignment.

(** The helpers of [finlab_crypto.utility], which is not among the sources:
    the enumeration of a spec, the run of the strategy function per
    assignment (it sets the parameters of the instance) and the stop
    overlay. *)
Variable enumerate_variables : option spec -> list assignment.
Variable enumerate_signal :
  list bar -> list assignment -> prog instance (table * table * bundle).
Variable stop_early : list bar -> table -> table -> spec -> result (table * table).

(** [ohlcv.close], the column of the closing prices: an [AttributeError]
    on a price table without it. *)
Variable close : list bar -> result prices.

(** The simulator and the plots: [vbt.Portfolio.from_signals],
    [plot_strategy], and the CSCV estimate with its plots. *)
Variable from_signals : prices -> squeezed -> squeezed -> kwargs -> result portfolio.
Variable plot_strategy :
  list bar -> squeezed -> squeezed -> portfolio -> bundle -> option string -> result unit.
Variable plot_combination : portfolio -> Z -> objective -> result unit.

(** The assignments [backtest] runs: the enumeration, or the defaults when
    it is empty. *)
Definition variable_enumerate (variables_without_stop : spec) : list assignment :=
  match enumerate_variables (Some variables_without_stop) with
  | [] => [default_parameters]
  | variable_enumerate => variable_enumerate
  end.

(** [Strategy._add_stops(ohlcv, entries, exits, variables)] *)
Definition _add_stops (ohlcv : list bar) (entries exits : table) (variables : spec)
    : result (squeezed * squeezed) :=
  '(entries, exits) ← stop_early ohlcv entries exits variables;
  Ok (squeeze entries, squeeze exits).

(** The call of a helper that writes the strategy instance, and the
    look-up of a method on it. *)
Definition on_self {A} (p : prog instance A) : prog world A := fun w =>
  let '(r, self') := p (self w) in (r, World (heap w) self').

Definition is_series (s : squeezed) : bool :=
  match s with SqSeries _ => true | _ => false end.
Definition is_frame (s : squeezed) : bool :=
  match s with SqFrame _ => true | _ => false end.

(** The start of [backtest], down to the fallback on the default
    parameters: the stop parameters and the assignments to run.
    [variables] is the reference of the caller's [dict]. *)
Definition enumerate (variables : nat) : prog world (spec * list assignment) :=
  variables_without_stop ← copy_copy variables;
  stop_vars ← split_stops exit_vars variables variables_without_stop [];
  without_stop ← items variables_without_stop;
  mret (stop_vars, variable_enumerate without_stop).

(** The part of [backtest] down to the call of [_add_stops]: the entries,
    exits and diagnostics of the sweep. *)
Definition compute_signals (ohlcv : list bar) (variables : nat)
    (filters : list (string * (list bar -> result (table * option bundle))))
    (lookback : option Z) : prog world (squeezed * squeezed * bundle) :=
  '(stop_vars, variable_enumerate) ← enumerate variables;
  let ohlcv_lookback := ohlcv_lookback ohlcv lookback in
  '(entries, exits, fig_data) ← on_self (enumerate_signal ohlcv_lookback variable_enumerate);
  '(entries, exits, fig_data) ←
    match filters with
    | [] => mret (entries, exits, fig_data)
    | _ =>
        _ ← on_self (call "_enumerate_filters");
        filter_signals ← lift (_enumerate_filters ohlcv_lookback filters);
        _ ← on_self (call "_add_filters");
        lift (_add_filters entries exits fig_data filter_signals)
    end;
  _ ← on_self (call "_add_stops");
  '(entries, exits) ← lift (_add_stops ohlcv_lookback entries exits stop_vars);
  mret (entries, exits, fig_data).

(** [x.fillna(False)] on what [squeeze] returned: the signal columns hold
    booleans, which it leaves as they are; a scalar is a [numpy.bool_],
    which has no such method. *)
Definition fillna (x : squeezed) : result squeezed :=
  match x with
  | SqScalar _ =>
      Raise (PyErr "AttributeError" "'numpy.bool_' object has no attribute 'fillna'")
  | _ => Ok x
  end.

(** The branch on [side]. The arguments of [from_signals] are evaluated
    from the left. *)
Definition simulate (ohlcv_lookback : list bar) (entries exits : squeezed)
    (side : string) (args : kwargs) : result portfolio :=
  if bool_decide (side = "long") then
    close ← close ohlcv_lookback;
    entries ← fillna entries;
    exits ← fillna exits;
    from_signals close entries exits args
  else if bool_decide (side = "short") then
    Raise (PyErr "Exception" "Shorting is not support yet")
  else Raise (PyErr "Exception" "side should be 'long' or 'short'").

(** The plots at the end of [backtest]. *)
Definition report (ohlcv_lookback : list bar) (entries exits : squeezed)
    (portfolio' : portfolio) (fig_data : bundle) (plot : bool)
    (cscv_nbins : Z) (cscv_objective : objective) (html : option string) : result unit :=
  if (plot || bool_decide (html <> None)) && is_series entries then
    plot_strategy ohlcv_lookback entries exits portfolio' fig_data html
  else if plot && is_frame entries then
    plot_combination portfolio' cscv_nbins cscv_objective
  else Ok ().

(** [Strategy.backtest(self, ohlcv, variables, filters, lookback, plot,
    signals, side, cscv_nbins, cscv_objective, html, **args)] *)
Definition backtest (ohlcv : list bar) (variables : nat)
    (filters : list (string * (list bar -> result (table * option bundle))))
    (lookback : option Z) (plot signals : bool) (side : string)
    (cscv_nbins : Z) (cscv_objective : objective) (html : option string) (args : kwargs)
    : prog world (outcome portfolio) :=
  '(entries, exits, fig_data) ← compute_signals ohlcv variables filters lookback;
  if signals then mret (Signals entries exits fig_data)
  else
    let ohlcv_lookback := ohlcv_lookback ohlcv lookback in
    portfolio' ← lift (simulate ohlcv_lookback entries exits side args);
    _ ← lift (report ohlcv_lookback entries exits portfolio' fig_data plot
                cscv_nbins cscv_objective html);
    mret (Portfolio portfolio').

End backtest.

End Strategy.

(** ** The helpers of [finlab_crypto.utility]

    The module is not among the sources. The theorems take its functions as
    parameters; the definitions below are the instances the examples run. *)

Module utility.

Definition candidate_values (c : candidates) : list value :=
  match c with
  | Fixed v => [v]
  | Sweep vs => vs
  end.

(** The Cartesian product of the candidate sets, the first key outermost. *)
Fixpoint product (variables : spec) : list assignment :=
  match variables with
  | [] => [[]]
  | (name, c) :: variables =>
      v ← candidate_values c; a ← product variables; [(name, v) :: a]
  end.

(** Modelled from the spec: [enumerate_variables], section 4.1: the ordered
    list of the assignments that form the Cartesian product of each key's
    candidate set, the first declared key in the outer loop. The fallback to
    the default parameters is the caller's ([ret_f], [backtest]), so an
    empty or missing spec enumerates to no assignment here. *)
Definition enumerate_variables (variables : option spec) : list assignment :=
  match variables with
  | None | Some [] => []
  | Some variables => product variables
  end.

(** Modelled from the spec: [remove_pd_object], which the spec does not
    describe beyond its use, the encoding of section 4.2: what it returns is
    printed as the column key and the key is read back with [eval]. The
    model keeps the parameters whose value reads back from its text and
    drops the others: the pandas objects, the infinite floats and nan, and
    the integers too long to print. *)
Definition remove_pd_object (v : assignment) : assignment :=
  filter (fun kv => supported kv.2) v.

End utility.

(** ** Column labels *)

(** The columns of a frame form a [pd.MultiIndex]: every label has one
    value per level. *)
Definition levels_ok (t : table) : Prop :=
  Forall (fun l => length l = length (names t)) (labels t).

(** The level names a filter contributes: its own, behind its name. *)
Definition filter_names (f : string * (table * option bundle)) : list string :=
  Strategy.prefixed f.1 <$> names f.2.1.

(** The columns of [tile la & repeat lb]: one per pair, the [j]-th of [la]
    with the [i]-th of [lb] at position [i * length la + j]. *)
Definition cross {A B C} (f : A -> B -> C) (la : list A) (lb : list B) : list C :=
  zip_with f (mjoin (replicate (length lb) la)) (lb ≫= replicate (length la)).

(** ** Properties of computations *)

(** A property of the state that every step of a computation keeps is kept
    by the computation. *)
Definition keeps {S A} (P : S -> Prop) (m : prog S A) : Prop :=
  forall s, P s -> P (m s).2.

(** ** Attributes *)

(** The attributes of an instance after [setattr] of the items of [a] in
    turn. *)
Definition written (a : assignment) (m : gmap string value) : gmap string value :=
  foldl (fun m kv => <[kv.1 := kv.2]> m) m a.

(** ** Values and texts of the codec *)

(** An [int], a [str] or a float that is a number. *)
Definition plain (v : value) : bool :=
  match v with
  | VInt _ | VStr _ => true
  | VFloat f => finite64 f
  | VObj _ _ => false
  end.

(** What [str] prints when every value prints. *)
Definition text_value (v : value) : string :=
  match v with
  | VInt z => Codec.decimal z
  | VFloat f => Codec.repr_float f
  | VStr s => Codec.repr_str s
  | VObj _ text => text
  end.

Definition text_item (kv : string * value) : string :=
  Codec.repr_str kv.1 +:+ ": " +:+ text_value kv.2.

Fixpoint text_items (a : assignment) : string :=
  match a with
  | [] => ""
  | [kv] => text_item kv
  | kv :: a => text_item kv +:+ ", " +:+ text_items a
  end.

Definition text (a : assignment) : string := "{" +:+ text_items a +:+ "}".

(** The level of the parameter [p] in the columns of the assignments
    [vs]: its value in each of them, in order. *)
Definition level (p : string) (vs : list assignment) : list value :=
  omap (fun a : assignment => (list_to_map a : gmap string value) !! p) vs.

(** A finite binary64 other than zero: the mantissa has at most 53 bits,
    and exactly 53 above the smallest exponent. *)
Definition valid64 (m : positive) (e : Z) : Prop :=
  (Zpos m < 2 ^ 53 /\ -1074 <= e <= 971 /\ (e = -1074 \/ 2 ^ 52 <= Zpos m))%Z.

(** The first character of the text satisfies [P]. *)
Definition head_is (P : ascii -> bool) (s : string) : bool :=
  match s with
  | String c _ => P c
  | EmptyString => false
  end.

Definition is_digit (c : ascii) : bool := bool_decide (is_Some (Codec.digit_of_char c)).

(** What follows a value in the text of a dict: a comma or the closing
    brace. *)
Definition closes (rest : string) : Prop :=
  exists r, rest = String "," r \/ rest = String "}" r.

(** The parts of a float literal after its integer digits. *)
Definition fraction_text (fp : option (list N)) : string :=
  match fp with
  | Some fp => String "." (Codec.string_of_digits fp)
  | None => ""
  end.

Definition exponent_text (ex : option Z) : string :=
  match ex with
  | Some ex => String "e" (Codec.repr_exponent ex)
  | None => ""
  end.

(** The entry of a dict display whose value is a literal. *)
Definition literal (kv : string * value) : string * Codec.expr := (kv.1, Codec.ELit kv.2).

(** ** Columns under composition *)

(** The rows at which [c'] is true are rows at which [c] is. *)
Definition implies (c' c : column) : Prop :=
  forall i, c' !! i = Some true -> c !! i = Some true.

(** The AND of a strategy column with one column of every filter, in the
    order of the filters. *)
Definition and_all (ce : column) (cfs : list column) : column :=
  foldl (fun c cf => zip_with andb cf c) ce cfs.

(** The operands of [&] in the round of [_add_filters] for the filter [f]:
    the table of the filter under its prefixed level names, once per column
    of [entries], and each column of [entries] once per column of the
    filter. *)
Definition tiled (entries : table) (f : string * (table * option bundle)) : table :=
  vbt_tile (width entries) (set_names (filter_names f) f.2.1).

Definition repeated (entries : table) (f : string * (table * option bundle)) : table :=
  vbt_repeat (width f.2.1) entries.

(** [a.vbt & b.vbt] when every level of both column indexes is kept: the
    levels of [a] over those of [b]. *)
Definition stacked (a b : table) : table :=
  Table (index a) (names a ++ names b)
    (zip (zip_with app (labels a) (labels b))
         (zip_with (zip_with andb) (cols a).*2 (cols b).*2)).

(** vectorbt stacks the column indexes of [a] and [b] as they are: the two
    are not equal, and no level repeats another in name and values. *)
Definition stacks (a b : table) : bool :=
  negb (index_equals a b) &&
  forallb id (kept_levels (levels_of (names a ++ names b)
                             (zip_with app (labels a) (labels b)))).1.

(** Every round of the composition of [entries] with [filters] stacks. *)
Fixpoint stacking (entries : table) (filters : list (string * (table * option bundle)))
    : bool :=
  match filters with
  | [] => true
  | f :: filters =>
      stacks (tiled entries f) (repeated entries f) &&
      stacking (stacked (tiled entries f) (repeated entries f)) filters
  end.

(** The number of columns a list of filters multiplies the strategy's by. *)
Definition variants_of (filters : list (string * (table * option bundle))) : nat :=
  foldr (fun f n => width f.2.1 * n) 1 filters.

(** ** Sample data *)

Module Examples.

Definition rows : list Z := [1; 2; 3]%Z.

(** A strategy swept over three values of [n]. *)
Definition strat_entries : table :=
  Table rows ["n"]
    [([VInt 10], [true; true; false]);
     ([VInt 20], [true; false; false]);
     ([VInt 30], [false; true; true])].

Definition strat_exits : table :=
  Table rows ["n"]
    [([VInt 10], [false; false; true]);
     ([VInt 20], [false; true; false]);
     ([VInt 30], [true; false; false])].

(** The filter [mmi] swept over two values of [timeperiod]. *)
Definition mmi_signals : table :=
  Table rows ["timeperiod"]
    [([VInt 20], [true; false; true]);
     ([VInt 60], [true; true; false])].

(** A second filter, [vol], that reuses the field name [timeperiod]. *)
Definition vol_signals : table :=
  Table rows ["timeperiod"]
    [([VInt 5], [true; true; true]);
     ([VInt 20], [false; true; true])].

(** Two filters whose prefixed artifact names coincide: [a] + [b_c] and
    [a_b] + [c] are both [a_b_c]. The first also carries a category that is
    neither [figures] nor [overlaps]. *)
Definition colliding_filters : list (string * (table * option bundle)) :=
  [("a", (mmi_signals,
          Some {[ "figures" := {[ "b_c" := [1]%Z ]}; "notes" := {[ "n" := [7]%Z ]} ]}));
   ("a_b", (vol_signals, Some {[ "figures" := {[ "c" := [2]%Z ]} ]}))].

(** The helpers and collaborators of a run on a price table of three rows:
    the strategy returns the tables above whatever its parameters are, there
    is no stop, and the simulator returns the number of columns it got. *)
Definition ohlcv : list Z := [100; 101; 102]%Z.

Definition enumerate_signal (ohlcv : list Z) (vs : list assignment)
    : prog instance (table * table * bundle) :=
  _ ← each Strategy.set_parameters vs; mret (strat_entries, strat_exits, ∅).

Definition stop_early (ohlcv : list Z) (entries exits : table) (stops : spec)
    : result (table * table) := Ok (entries, exits).

Definition close (ohlcv : list Z) : result (list Z) := Ok ohlcv.

Definition from_signals (close : list Z) (entries exits : Strategy.squeezed) (args : unit)
    : result nat :=
  Ok (match entries with Strategy.SqFrame t => width t | _ => 1 end).

Definition plot_strategy (ohlcv : list Z) (entries exits : Strategy.squeezed) (p : nat)
    (fig_data : bundle) (html : option string) : result unit := Ok ().

Definition plot_combination (p : nat) (nbins : Z) (objective : unit) : result unit := Ok ().

(** The caller's [variables], at the reference [0]: a sweep of [n] and a
    stop loss. *)
Definition caller : Strategy.world :=
  Strategy.World
    {[ 0 := [("n", Sweep [VInt 10; VInt 20; VInt 30]); ("sl_stop", Fixed (VInt 1))] ]}
    (Instance ∅ None).

(** A filter whose function fails on the price table. *)
Definition broken_filter (ohlcv : list Z) : result (table * option bundle) :=
  Raise (PyErr "KeyError" "volume").

Definition run_backtest (filters : list (string * (list Z -> result (table * option bundle))))
    (signals : bool) (side : string) : result (Strategy.outcome nat) * Strategy.world :=
  Strategy.backtest [("n", VInt 10)] utility.enumerate_variables enumerate_signal stop_early
    close from_signals plot_strategy plot_combination
    ohlcv 0 filters None false signals side 10 () None () caller.

(** The filter [mmi] with the parameter [timeperiod], 20 by default: a
    signal, and as its diagnostics the period it ran with. *)
Definition timeperiod (self : instance) : Z :=
  match attrs self !! "timeperiod" with
  | Some (VInt n) => n
  | _ => 0
  end.

Definition mmi (self : instance) (ohlcv : list Z) : result results :=
  Ok (RTuple [OSeries rows ((fun close => bool_decide (timeperiod self + 71 <= close)%Z) <$> ohlcv);
              OBundle {[ "figures" := {[ "mmi_index" := [timeperiod self] ]} ]}]).

Definition mmi_defaults : assignment := [("timeperiod", VInt 20)].

(** A frame of series that share the row index. *)
Definition pd_DataFrame (signals : list (string * pyobj)) : result frame :=
  cs ← mapM (fun kv => match kv.2 with
                       | OSeries _ c => Ok (kv.1, c)
                       | _ => Raise (PyErr "ValueError" "no series")
                       end) signals;
  Ok (Frame rows cs).

(** The levels of these examples hold values of one type, which pandas
    keeps as they are; an index has at least one level. *)
Definition Index_map (values : list value) : list value := values.

Definition MultiIndex_from_tuples (tuples : list (list value)) (names : list string)
    : result (list (list value)) :=
  match names with
  | [] => Raise (PyErr "ValueError" "Must pass non-zero number of levels/codes")
  | _ => Ok tuples
  end.

(** The instance of the filter [mmi], as [__init__] leaves it. *)
Definition mmi_instance : instance :=
  Instance {[ "timeperiod" := VInt 20 ]} (Some mmi_defaults).

Definition run_filter (variables : option spec) : result (table * pyobj) * instance :=
  Filter.ret_f mmi mmi_defaults utility.enumerate_variables utility.remove_pd_object
    pd_DataFrame Index_map MultiIndex_from_tuples variables ohlcv mmi_instance.

Definition sweep_10_30 : option spec := Some [("timeperiod", Sweep [VInt 10; VInt 30])].

(** [{'timeperiod': 20, 'threshold': 0.1, 'price': 'close'}]; the float
    [0.1] is [7205759403792794 * 2 ^ -56]. *)
Definition scalars : assignment :=
  [("timeperiod", VInt 20);
   ("threshold", VFloat (S754_finite false 7205759403792794 (-56)));
   ("price", VStr "close")].

(** [{'threshold': float('inf')}] *)
Definition unbounded : assignment := [("threshold", VFloat (S754_infinity false))].

(** A filter function that fails on the period 30, and one that returns the
    bare signal series, without diagnostics. *)
Definition fussy (self : instance) (ohlcv : list Z) : result results :=
  if bool_decide (timeperiod self = 30%Z)
  then Raise (PyErr "ZeroDivisionError" "division by zero")
  else mmi self ohlcv.

Definition bare (self : instance) (ohlcv : list Z) : result results :=
  Ok (RSeries rows ((fun close => bool_decide (timeperiod self + 71 <= close)%Z) <$> ohlcv)).

(** The filters [mmi] and [vol] as [Filter.create] returns them. *)
Definition mmi_filter (ohlcv : list Z) : result (table * option bundle) :=
  Ok (mmi_signals, None).
Definition vol_filter (ohlcv : list Z) : result (table * option bundle) :=
  Ok (vol_signals, None).

Definition two_filters : list (string * (table * option bundle)) :=
  [("mmi", (mmi_signals, None)); ("vol", (vol_signals, None))].

(** A filter [a_b] with the parameter [c], and a strategy whose first level
    is already named [a_b_c] and holds the same value. *)
Definition ab_signals : table := Table rows ["c"] [([VInt 20], [true; false; true])].
Definition abc_entries : table :=
  Table rows ["a_b_c"; "n"] [([VInt 20; VInt 10], [true; true; false])].
Definition abc_exits : table :=
  Table rows ["a_b_c"; "n"] [([VInt 20; VInt 10], [false; false; true])].

(** A strategy of one column, whose only price row gives a table of one
    cell. *)
Definition one_cell : table := Table [1%Z] ["n"] [([VInt 10], [true])].

End Examples.

(** * Properties of the column codec *)

(** Division and remainder by a constant are linear arithmetic. *)
Ltac Zify.zify_post_hook ::= Z.to_euclidean_division_equations.

Section decimal_facts.
Import Codec.
Local Open Scope N_scope.

Lemma number_snoc ds d : number (ds ++ [d]) = 10 * number ds + d.
Proof. unfold number. by rewrite foldl_snoc. Qed.

Lemma number_app ds1 ds2 :
  number (ds1 ++ ds2) = number ds1 * 10 ^ N.of_nat (length ds2) + number ds2.
Proof.
  induction ds2 as [|d ds2 IH] using rev_ind.
  - rewrite app_nil_r. change (number []) with 0. simpl length.
    change (N.of_nat 0) with 0. by rewrite N.pow_0_r, N.mul_1_r, N.add_0_r.
  - rewrite app_assoc, !number_snoc, IH, length_app. simpl.
    replace (N.of_nat (length ds2 + 1)) with (N.succ (N.of_nat (length ds2))) by lia.
    rewrite N.pow_succ_r'. lia.
Qed.

Lemma digits_fuel_spec fuel n :
  n < 2 ^ N.of_nat (S fuel) ->
  number (digits_fuel (S fuel) n) = n /\
  Forall (fun d => d < 10) (digits_fuel (S fuel) n) /\
  digits_fuel (S fuel) n <> [] /\
  (0 < n -> 10 ^ N.of_nat (length (digits_fuel (S fuel) n) - 1) <= n
            /\ n < 10 ^ N.of_nat (length (digits_fuel (S fuel) n))).
Proof.
  revert n. induction fuel as [|fuel IH]; intros n Hn.
  - change (2 ^ N.of_nat 1) with 2 in Hn. simpl.
    destruct (N.ltb_spec n 10) as [Hlt|Hge]; [|lia].
    split_and!; [unfold number; simpl; lia|by repeat constructor|done|].
    simpl. intros. lia.
  - change (digits_fuel (S (S fuel)) n)
      with (if n <? 10 then [n] else digits_fuel (S fuel) (n / 10) ++ [n mod 10]).
    destruct (N.ltb_spec n 10) as [Hlt|Hge].
    + split_and!; [unfold number; simpl; lia|by repeat constructor|done|].
      simpl. intros. lia.
    + assert (n / 10 < 2 ^ N.of_nat (S fuel)) as Hdiv.
      { apply N.Div0.div_lt_upper_bound.
        replace (N.of_nat (S (S fuel))) with (N.succ (N.of_nat (S fuel))) in Hn by lia.
        rewrite N.pow_succ_r' in Hn. lia. }
      destruct (IH _ Hdiv) as (Hnum & Hall & Hne & Hlen).
      pose proof (N.div_mod n 10 ltac:(lia)) as Hdm.
      pose proof (N.mod_lt n 10 ltac:(lia)) as Hmod.
      split_and!.
      * rewrite number_snoc, Hnum. lia.
      * apply Forall_app. split; [done|]. by repeat constructor.
      * by destruct (digits_fuel (S fuel) (n / 10)).
      * intros _. rewrite length_app. change (length [n mod 10]) with 1%nat.
        assert (0 < n / 10) as Hpos by (apply N.div_str_pos; lia).
        destruct (Hlen Hpos) as [Hlo Hhi].
        set (l := length (digits_fuel (S fuel) (n / 10))) in *.
        assert (l <> 0%nat) as Hl by (subst l; by destruct (digits_fuel (S fuel) (n / 10))).
        replace (N.of_nat (l + 1 - 1)) with (N.succ (N.of_nat (l - 1))) by lia.
        replace (N.of_nat (l + 1)) with (N.succ (N.of_nat l)) by lia.
        rewrite !N.pow_succ_r'.
        generalize dependent (10 ^ N.of_nat (l - 1)).
        lia.
Qed.

Lemma digits_fuel_enough n : n < 2 ^ N.of_nat (S (N.to_nat (N.log2 n))).
Proof.
  destruct (N.eq_dec n 0) as [->|Hn]; [done|].
  replace (N.of_nat (S (N.to_nat (N.log2 n)))) with (N.succ (N.log2 n)) by lia.
  apply N.log2_spec. lia.
Qed.

Lemma number_digits n : number (digits n) = n.
Proof. apply digits_fuel_spec, digits_fuel_enough. Qed.

Lemma digits_lt n : Forall (fun d => d < 10) (digits n).
Proof. apply digits_fuel_spec, digits_fuel_enough. Qed.

Lemma digits_nonempty n : digits n <> [].
Proof. apply digits_fuel_spec, digits_fuel_enough. Qed.

Lemma digits_bounds n :
  0 < n ->
  10 ^ N.of_nat (length (digits n) - 1) <= n /\ n < 10 ^ N.of_nat (length (digits n)).
Proof. apply digits_fuel_spec, digits_fuel_enough. Qed.

End decimal_facts.

Section string_facts.
Import Codec.

Lemma append_cons c (s t : string) : String c s +:+ t = String c (s +:+ t).
Proof. done. Qed.

Lemma append_assoc (s1 s2 s3 : string) : (s1 +:+ s2) +:+ s3 = s1 +:+ (s2 +:+ s3).
Proof. induction s1 as [|c s1 IH]; [done|]. by rewrite !append_cons, IH. Qed.

Lemma append_nil_r (s : string) : s +:+ "" = s.
Proof. induction s as [|c s IH]; [done|]. by rewrite append_cons, IH. Qed.

Lemma string_of_digits_app ds1 ds2 :
  string_of_digits (ds1 ++ ds2) = string_of_digits ds1 +:+ string_of_digits ds2.
Proof. induction ds1 as [|d ds1 IH]; [done|]. simpl. by rewrite append_cons, IH. Qed.

Lemma digit_cases (d : N) :
  (d < 10)%N -> d ∈ [0; 1; 2; 3; 4; 5; 6; 7; 8; 9]%N.
Proof.
  intros Hd. assert (d = N.of_nat (N.to_nat d)) as -> by lia.
  assert (N.to_nat d < 10)%nat as Hlt by lia. revert Hlt.
  generalize (N.to_nat d). intros k Hk.
  do 10 (destruct k as [|k]; [set_solver|]). lia.
Qed.

Lemma digit_char_spec d :
  (d < 10)%N ->
  digit_of_char (digit_char d) = Some d /\
  name_start (digit_char d) = false /\
  digit_char d <> squote /\ digit_char d <> dquote /\ digit_char d <> "-"%char /\
  digit_char d <> " "%char /\ digit_char d <> "."%char /\
  digit_char d <> "e"%char /\ digit_char d <> "E"%char.
Proof.
  intros Hd%digit_cases. repeat (apply elem_of_cons in Hd as [->|Hd]; [by vm_compute|]).
  by apply elem_of_nil in Hd.
Qed.

Lemma read_digits_printed ds rest :
  Forall (fun d => d < 10)%N ds -> head_is is_digit rest = false ->
  read_digits (string_of_digits ds +:+ rest) = (ds, rest).
Proof.
  intros Hds Hrest. induction Hds as [|d ds Hd Hds IH].
  - change (string_of_digits [] +:+ rest) with rest.
    destruct rest as [|c rest]; [done|]. simpl in *.
    unfold is_digit in Hrest. apply bool_decide_eq_false in Hrest.
    destruct (digit_of_char c); [|done]. by destruct Hrest.
  - simpl string_of_digits. rewrite append_cons. simpl.
    destruct (digit_char_spec d Hd) as [-> _]. by rewrite IH.
Qed.

Lemma read_string_escape q c tail :
  q = squote \/ q = dquote ->
  read_string q (escape q c +:+ tail)
  = '(body, rest) ← read_string q tail; Ok (String c body, rest).
Proof.
  intros [-> | ->];
    destruct c as [[] [] [] [] [] [] [] []]; reflexivity.
Qed.

Lemma read_string_printed q s rest :
  q = squote \/ q = dquote ->
  read_string q (escape_all q s +:+ String q rest) = Ok (s, rest).
Proof.
  intros Hq. induction s as [|c s IH].
  - change (escape_all q "" +:+ String q rest) with (String q rest). simpl.
    by rewrite bool_decide_true.
  - simpl escape_all. rewrite append_assoc, read_string_escape by done. by rewrite IH.
Qed.

Lemma quote_of_cases s : quote_of s = squote \/ quote_of s = dquote.
Proof. unfold quote_of. destruct (_ && _); auto. Qed.

Lemma repr_str_append s rest :
  repr_str s +:+ rest = String (quote_of s) (escape_all (quote_of s) s +:+ String (quote_of s) rest).
Proof. unfold repr_str. by rewrite append_cons, append_assoc. Qed.

End string_facts.

Section rounding_facts.
Import Codec.
Local Open Scope Z_scope.

Lemma round_div_nearest num den m :
  0 < den -> - den < 2 * (num - m * den) < den -> round_div num den = m.
Proof.
  intros Hden Hm. unfold round_div.
  pose proof (Z.div_mod num den ltac:(lia)) as Hdm.
  pose proof (Z.mod_pos_bound num den Hden) as Hr.
  set (q := num / den) in *. set (r := num mod den) in *. clearbody q r.
  destruct (Z.lt_trichotomy q m) as [Hlt|[Heq|Hgt]].
  - assert (q + 1 <= m) as Hle by lia.
    destruct (Z.ltb_spec (2 * r) den); [nia|].
    destruct (Z.ltb_spec den (2 * r)); [nia|]. exfalso. nia.
  - subst q.
    destruct (Z.ltb_spec (2 * r) den); [done|]. exfalso. nia.
  - assert (m + 1 <= q) as Hle by lia. exfalso. nia.
Qed.

Lemma round_div_error num den :
  0 < den -> 0 <= num ->
  0 <= round_div num den /\ - den <= 2 * (round_div num den * den - num) <= den.
Proof.
  intros Hden Hnum. unfold round_div.
  pose proof (Z.div_mod num den ltac:(lia)) as Hdm.
  pose proof (Z.mod_pos_bound num den Hden) as Hr.
  pose proof (Z.div_pos num den Hnum Hden) as Hq.
  set (q := num / den) in *. set (r := num mod den) in *. clearbody q r.
  destruct (Z.ltb_spec (2 * r) den); [nia|].
  destruct (Z.ltb_spec den (2 * r)); [nia|].
  destruct (Z.even q); nia.
Qed.

Lemma round_div_scale num den c :
  0 < den -> 0 < c -> round_div (num * c) (den * c) = round_div num den.
Proof.
  intros Hden Hc. unfold round_div.
  rewrite Z.div_mul_cancel_r, Z.mul_mod_distr_r by lia.
  set (q := num / den). set (r := num mod den).
  assert ((2 * (r * c) <? den * c) = (2 * r <? den)) as ->.
  { destruct (Z.ltb_spec (2 * r) den), (Z.ltb_spec (2 * (r * c)) (den * c)); try done; nia. }
  assert ((den * c <? 2 * (r * c)) = (den <? 2 * r)) as ->.
  { destruct (Z.ltb_spec den (2 * r)), (Z.ltb_spec (den * c) (2 * (r * c))); try done; nia. }
  done.
Qed.

Lemma pow2_pos k : 0 < 2 ^ k \/ k < 0.
Proof. destruct (Z.le_gt_cases 0 k); [left; by apply Z.pow_pos_nonneg|by right]. Qed.

(** The magnitude is the one exponent that brackets the fraction. *)
Lemma magnitude_spec N d :
  0 <= N -> 0 < d ->
  0 <= magnitude N d /\ N < d * 2 ^ magnitude N d /\
  (0 < magnitude N d -> d * 2 ^ (magnitude N d - 1) <= N).
Proof.
  intros HN Hd. unfold magnitude.
  pose proof (Z.log2_nonneg N) as Ha. pose proof (Z.log2_nonneg d) as Hb.
  destruct (Z.log2_spec d Hd) as [Hd1 Hd2].
  set (a := Z.log2 N) in *. set (b := Z.log2 d) in *.
  destruct (Z.eq_dec N 0) as [->|HN0].
  { subst a. change (Z.log2 0) with 0.
    destruct (Z.ltb_spec (0 - b) 0); [rewrite Z.pow_0_r; lia|].
    assert (b = 0) as -> by lia. change (2 ^ (0 - 0)) with 1.
    destruct (Z.leb_spec (d * 1) 0); [lia|]. change (2 ^ 0) with 1. lia. }
  destruct (Z.log2_spec N ltac:(lia)) as [HN1 HN2]. fold a in HN1, HN2.
  destruct (Z.ltb_spec (a - b) 0) as [Hlt|Hge].
  - simpl. split_and!; [lia| |lia].
    assert (2 ^ Z.succ a <= 2 ^ b) by (apply Z.pow_le_mono_r; lia). lia.
  - assert (2 ^ Z.succ a = 2 ^ (a - b) * 2 * 2 ^ b) as Hsa.
    { rewrite <-(Z.pow_1_r 2) at 3. rewrite <-!Z.pow_add_r by lia. f_equal. lia. }
    assert (2 ^ a = 2 ^ (a - b) * 2 ^ b) as Hpa.
    { rewrite <-Z.pow_add_r by lia. f_equal. lia. }
    assert (0 < 2 ^ (a - b)) as Hp by (apply Z.pow_pos_nonneg; lia).
    assert (0 < 2 ^ b) as Hpb by (apply Z.pow_pos_nonneg; lia).
    destruct (Z.leb_spec (d * 2 ^ (a - b)) N) as [Hle|Hgt].
    + split_and!; [lia| |].
      * replace (a - b + 1) with (Z.succ (a - b)) by lia.
        rewrite Z.pow_succ_r by lia. nia.
      * intros _. replace (a - b + 1 - 1) with (a - b) by lia. done.
    + split_and!; [lia|lia|].
      intros Hpos.
      assert (2 ^ (a - b) = 2 * 2 ^ (a - b - 1)) as Hpred.
      { rewrite <-Z.pow_succ_r by lia. f_equal. lia. }
      assert (0 < 2 ^ (a - b - 1)) by (apply Z.pow_pos_nonneg; lia).
      rewrite Z.pow_succ_r in Hd2 by lia. nia.
Qed.

Lemma magnitude_unique N d t :
  0 <= N -> 0 < d ->
  0 <= t -> N < d * 2 ^ t -> (0 < t -> d * 2 ^ (t - 1) <= N) ->
  magnitude N d = t.
Proof.
  intros HN Hd Ht Hhi Hlo.
  destruct (magnitude_spec N d HN Hd) as (Ht' & Hhi' & Hlo').
  set (t' := magnitude N d) in *. clearbody t'.
  destruct (Z.lt_trichotomy t t') as [Hlt|[->|Hgt]]; [|done|]; exfalso.
  - specialize (Hlo' ltac:(lia)).
    assert (2 ^ t <= 2 ^ (t' - 1)) by (apply Z.pow_le_mono_r; lia). nia.
  - specialize (Hlo ltac:(lia)).
    assert (2 ^ t' <= 2 ^ (t - 1)) by (apply Z.pow_le_mono_r; lia). nia.
Qed.

Lemma magnitude_scale N d c :
  0 <= N -> 0 < d -> 0 < c -> magnitude (N * c) (d * c) = magnitude N d.
Proof.
  intros HN Hd Hc. destruct (magnitude_spec N d HN Hd) as (Ht & Hhi & Hlo).
  apply magnitude_unique; [nia|nia|done|nia|]. intros Hpos. specialize (Hlo Hpos). nia.
Qed.

(** The rounding depends on the value of the fraction alone. *)
Lemma round_binary64_scale s n d c :
  0 <= n -> 0 < d -> 0 < c -> round_binary64 s (n * c) (d * c) = round_binary64 s n d.
Proof.
  intros Hn Hd Hc. unfold round_binary64.
  assert (0 < 2 ^ bias) as Hb by done.
  replace (n * c * 2 ^ bias) with (n * 2 ^ bias * c) by lia.
  rewrite magnitude_scale by nia.
  set (e := Z.max (magnitude (n * 2 ^ bias) d - prec) 2).
  assert (0 < 2 ^ e) as He by (apply Z.pow_pos_nonneg; lia).
  replace (d * c * 2 ^ e) with (d * 2 ^ e * c) by lia.
  rewrite round_div_scale by nia. done.
Qed.

Lemma digits2_pos_spec m :
  2 ^ (Zpos (digits2_pos m) - 1) <= Zpos m < 2 ^ Zpos (digits2_pos m).
Proof.
  induction m as [m IH|m IH|]; simpl digits2_pos; [| |done].
  - rewrite Pos2Z.inj_succ. change (Zpos m~1) with (2 * Zpos m + 1).
    replace (Z.succ (Zpos (digits2_pos m)) - 1) with (Z.succ (Zpos (digits2_pos m) - 1)) by lia.
    rewrite !Z.pow_succ_r by lia. lia.
  - rewrite Pos2Z.inj_succ. change (Zpos m~0) with (2 * Zpos m).
    replace (Z.succ (Zpos (digits2_pos m)) - 1) with (Z.succ (Zpos (digits2_pos m) - 1)) by lia.
    rewrite !Z.pow_succ_r by lia. lia.
Qed.

Lemma bounded_valid64 m e : bounded prec emax m e = true -> valid64 m e.
Proof.
  unfold bounded, canonical_mantissa, fexp, emin, prec, emax.
  intros [Hc He]%andb_prop. apply Z.eqb_eq in Hc. apply Z.leb_le in He.
  pose proof (digits2_pos_spec m) as [Hlo Hhi].
  set (k := Zpos (digits2_pos m)) in *.
  assert (k <= 53) as Hk by lia.
  unfold valid64. split_and!; [|lia|lia|].
  - assert (2 ^ k <= 2 ^ 53) by (apply Z.pow_le_mono_r; lia). lia.
  - destruct (Z.eq_dec e (-1074)) as [|Hne]; [by left|right].
    assert (k = 53) as Hk53 by lia. rewrite Hk53 in Hlo. exact Hlo.
Qed.

Lemma pow2_le_inv a b d N :
  0 < d -> 0 <= a -> d * 2 ^ a <= N -> N < d * 2 ^ b -> a < b.
Proof.
  intros Hd Ha Hlo Hhi. destruct (Z.lt_ge_cases a b) as [|Hge]; [done|exfalso].
  destruct (Z.lt_ge_cases b 0) as [Hb|Hb].
  - rewrite (Z.pow_neg_r 2 b) in Hhi by done.
    assert (0 < 2 ^ a) by (apply Z.pow_pos_nonneg; lia). nia.
  - assert (2 ^ b <= 2 ^ a) by (apply Z.pow_le_mono_r; lia). nia.
Qed.

Section round_correct.
Context (s : bool) (m : positive) (e : Z) (n d : Z).
Context (Hvalid : valid64 m e) (Hn : 0 <= n) (Hd : 0 < d).

Let E := e + bias.
Let N := n * 2 ^ bias.

Local Lemma pow_E k : 0 <= k -> 2 ^ (E + k) = 2 ^ E * 2 ^ k.
Proof. intros. apply Z.pow_add_r; unfold E, bias; destruct Hvalid as (_ & ? & _); lia. Qed.

(** The fraction is rounded on the grid of exponent [e] when it is below
    the top of the binade. *)
Local Lemma round_on_grid :
  Z.max (magnitude N d - prec) 2 = E ->
  - (d * 2 ^ E) < 2 * (N - Zpos m * (d * 2 ^ E)) < d * 2 ^ E ->
  round_binary64 s n d = S754_finite s m e.
Proof.
  intros Hgrid Hnear. unfold round_binary64. fold N. rewrite Hgrid.
  destruct Hvalid as (Hm & He & _).
  assert (0 < 2 ^ E) by (apply Z.pow_pos_nonneg; unfold E, bias; lia).
  rewrite (round_div_nearest _ _ (Zpos m)) by (done || nia).
  unfold prec at 1. rewrite (proj2 (Z.eqb_neq _ _)) by lia.
  rewrite (proj2 (Z.eqb_neq _ _)) by lia.
  rewrite (proj2 (Z.ltb_ge _ _)) by (unfold E, emax, prec; lia).
  f_equal. unfold E. lia.
Qed.

Lemma round_correct_half :
  e = -1074 \/ 2 ^ 52 < Zpos m ->
  - (d * 2 ^ E) < 2 * (N - Zpos m * 2 ^ E * d) < d * 2 ^ E ->
  round_binary64 s n d = S754_finite s m e.
Proof.
  intros Hcase Hnear. destruct Hvalid as (Hm & He & _).
  assert (2 <= E) as HE2 by (unfold E, bias; lia).
  assert (0 <= N) as HN by (unfold N; assert (0 < 2 ^ bias) by done; nia).
  assert (0 < 2 ^ E) as HE by (apply Z.pow_pos_nonneg; unfold E, bias; lia).
  destruct (magnitude_spec N d HN Hd) as (Ht & Hhi & Hlo).
  set (t := magnitude N d) in *.
  assert (N < d * 2 ^ (E + 53)) as Hup.
  { rewrite pow_E by lia. nia. }
  assert (t <= E + 53) as Htup.
  { destruct (Z.le_gt_cases t (E + 53)) as [|Hgt]; [done|exfalso].
    specialize (Hlo ltac:(lia)).
    pose proof (pow2_le_inv (t - 1) (E + 53) d N Hd ltac:(lia) Hlo Hup). lia. }
  apply round_on_grid; [|nia]. fold t.
  destruct Hcase as [->|Hbig].
  - unfold E, bias, prec in *. lia.
  - assert (d * 2 ^ (E + 52) <= N) as Hdown.
    { rewrite pow_E by lia. nia. }
    pose proof (pow2_le_inv (E + 52) t d N Hd ltac:(unfold E, bias; lia) Hdown Hhi).
    unfold prec. unfold E, bias in *. lia.
Qed.

Lemma round_correct_quarter :
  Zpos m = 2 ^ 52 -> e <> -1074 ->
  - (d * 2 ^ E) < 4 * (N - Zpos m * 2 ^ E * d) ->
  2 * (N - Zpos m * 2 ^ E * d) < d * 2 ^ E ->
  round_binary64 s n d = S754_finite s m e.
Proof.
  intros Hm52 Hnorm Hlow Hhigh. destruct Hvalid as (Hm & He & _).
  assert (2 <= E) as HE2 by (unfold E, bias; lia).
  assert (0 <= N) as HN by (unfold N; assert (0 < 2 ^ bias) by done; nia).
  assert (0 < 2 ^ E) as HE by (apply Z.pow_pos_nonneg; unfold E, bias; lia).
  destruct (magnitude_spec N d HN Hd) as (Ht & Hhi & Hlo).
  set (t := magnitude N d) in *.
  assert (2 ^ E = 2 * 2 ^ (E - 1)) as HE1.
  { rewrite <-Z.pow_succ_r by (unfold E, bias; lia). f_equal. lia. }
  assert (0 < 2 ^ (E - 1)) as HE1pos by (apply Z.pow_pos_nonneg; unfold E, bias; lia).
  destruct (Z.le_gt_cases (Zpos m * 2 ^ E * d) N) as [Hge|Hlt].
  - (* at or above the float: the grid of [e] *)
    assert (N < d * 2 ^ (E + 53)) as Hup by (rewrite pow_E by lia; nia).
    assert (t <= E + 53) as Htup.
    { destruct (Z.le_gt_cases t (E + 53)) as [|Hgt]; [done|exfalso].
      specialize (Hlo ltac:(lia)).
      pose proof (pow2_le_inv (t - 1) (E + 53) d N Hd ltac:(lia) Hlo Hup). lia. }
    assert (d * 2 ^ (E + 52) <= N) as Hdown by (rewrite pow_E by lia; nia).
    pose proof (pow2_le_inv (E + 52) t d N Hd ltac:(unfold E, bias; lia) Hdown Hhi).
    apply round_on_grid; [|nia]. fold t. unfold prec. unfold E, bias in *. lia.
  - (* below the float: the grid of [e - 1], rounded up to the float *)
    assert (N < d * 2 ^ (E + 52)) as Hup by (rewrite pow_E by lia; nia).
    assert (t <= E + 52) as Htup.
    { destruct (Z.le_gt_cases t (E + 52)) as [|Hgt]; [done|exfalso].
      specialize (Hlo ltac:(lia)).
      pose proof (pow2_le_inv (t - 1) (E + 52) d N Hd ltac:(lia) Hlo Hup). lia. }
    assert (d * 2 ^ (E + 51) <= N) as Hdown by (rewrite pow_E by lia; nia).
    pose proof (pow2_le_inv (E + 51) t d N Hd ltac:(unfold E, bias; lia) Hdown Hhi).
    assert (t = E + 52) as Ht52 by lia.
    unfold round_binary64. fold N. fold t. rewrite Ht52.
    replace (Z.max (E + 52 - prec) 2) with (E - 1) by (unfold prec, E, bias in *; lia).
    rewrite (round_div_nearest _ _ (2 ^ 53)) by (try done; nia).
    unfold prec at 1. rewrite Z.eqb_refl.
    change (2 ^ (prec - 1) =? 0) with false. cbv iota.
    rewrite (proj2 (Z.ltb_ge _ _)) by (unfold E, emax, prec; lia).
    f_equal; [|unfold E; lia].
    unfold prec. change (53 - 1) with 52. rewrite <-Hm52. done.
Qed.

End round_correct.

End rounding_facts.

Section decimal_float_facts.
Import Codec.
Local Open Scope Z_scope.

Lemma pow10_pos k : 0 < 10 ^ Z.max k 0.
Proof. apply Z.pow_pos_nonneg; lia. Qed.

Lemma round_binary64_zero s d : 0 < d -> round_binary64 s 0 d = S754_zero s.
Proof.
  intros Hd. unfold round_binary64. change (0 * 2 ^ bias) with 0.
  rewrite (magnitude_unique 0 d 0) by (simpl; lia).
  change (Z.max (0 - prec) 2) with 2.
  rewrite (round_div_nearest 0 (d * 2 ^ 2) 0) by lia. done.
Qed.

Lemma float_of_decimal_zero s k : float_of_decimal s 0 k = S754_zero s.
Proof. unfold float_of_decimal. apply round_binary64_zero, pow10_pos. Qed.

(** Zeros moved between the digits and the exponent change nothing. *)
Lemma float_of_decimal_shift s (D : N) k j :
  0 <= j ->
  float_of_decimal s (D * Z.to_N (10 ^ j)) (k - j) = float_of_decimal s D k.
Proof.
  intros Hj. unfold float_of_decimal.
  assert (0 < 10 ^ j) as Hpj by (apply Z.pow_pos_nonneg; lia).
  rewrite N2Z.inj_mul, Z2N.id by lia.
  assert (0 <= Z.of_N D) as HD by lia. set (D' := Z.of_N D) in *. clearbody D'.
  destruct (Z.le_gt_cases j k) as [Hle|Hgt].
  - rewrite (Z.max_l (k - j)), (Z.max_r (- (k - j))), (Z.max_l k), (Z.max_r (- k)) by lia.
    f_equal. rewrite <-Z.mul_assoc, <-Z.pow_add_r by lia. do 2 f_equal. lia.
  - rewrite (Z.max_r (k - j)), (Z.max_l (- (k - j))) by lia.
    destruct (Z.le_gt_cases 0 k) as [Hk|Hk].
    + rewrite (Z.max_l k), (Z.max_r (- k)) by lia.
      change (10 ^ 0) with 1. rewrite Z.mul_1_r.
      rewrite <-(round_binary64_scale s (D' * 10 ^ k) 1 (10 ^ (j - k)));
        [|apply Z.mul_nonneg_nonneg; [done|apply Z.pow_nonneg; lia]|lia
         |apply Z.pow_pos_nonneg; lia].
      replace (- (k - j)) with (j - k) by lia. rewrite Z.mul_1_l.
      rewrite <-Z.mul_assoc, <-Z.pow_add_r by lia. by replace (k + (j - k)) with j by lia.
    + rewrite (Z.max_r k), (Z.max_l (- k)) by lia.
      change (10 ^ 0) with 1. rewrite !Z.mul_1_r.
      rewrite <-(round_binary64_scale s D' (10 ^ (- k)) (10 ^ j));
        [|done|apply Z.pow_pos_nonneg; lia|done].
      rewrite <-Z.pow_add_r by lia. by replace (- (k - j)) with (- k + j) by lia.
Qed.

Lemma decimal_length_bounds n :
  0 < n -> 10 ^ (decimal_length n - 1) <= n < 10 ^ decimal_length n /\ 0 < decimal_length n.
Proof.
  intros Hn. unfold decimal_length.
  destruct (digits_bounds (Z.to_N n) ltac:(lia)) as [Hlo Hhi].
  pose proof (digits_nonempty (Z.to_N n)) as Hne.
  set (l := length (digits (Z.to_N n))) in *.
  assert (l <> 0%nat) as Hl by (subst l; by destruct (digits (Z.to_N n))).
  apply N2Z.inj_le in Hlo. apply N2Z.inj_lt in Hhi.
  rewrite N2Z.inj_pow, Z2N.id in * by lia.
  rewrite nat_N_Z in Hhi. replace (Z.of_N (N.of_nat (l - 1))) with (Z.of_nat l - 1) in Hlo by lia.
  change (Z.of_N 10) with 10 in *. lia.
Qed.

(** The decimal exponent is a lower bound. *)
Lemma exponent10_lower n d :
  0 < n -> 0 < d ->
  d * 10 ^ Z.max (exponent10 n d) 0 <= n * 10 ^ Z.max (- exponent10 n d) 0.
Proof.
  intros Hn Hd. unfold exponent10.
  destruct (decimal_length_bounds n Hn) as ([Hn1 _] & Ha).
  destruct (decimal_length_bounds d Hd) as ([_ Hd2] & Hb).
  set (a := decimal_length n) in *. set (b := decimal_length d) in *. clearbody a b.
  destruct (Z.leb_spec (d * 10 ^ Z.max (a - b) 0) (n * 10 ^ Z.max (- (a - b)) 0)); [done|].
  destruct (Z.le_gt_cases 0 (a - b - 1)) as [Hge|Hlt].
  - rewrite Z.max_l, Z.max_r by lia. change (10 ^ 0) with 1.
    assert (10 ^ (a - 1) = 10 ^ b * 10 ^ (a - b - 1)) as Hsplit.
    { rewrite <-Z.pow_add_r by lia. f_equal. lia. }
    assert (0 < 10 ^ (a - b - 1)) by (apply Z.pow_pos_nonneg; lia). nia.
  - rewrite Z.max_r, Z.max_l by lia. change (10 ^ 0) with 1.
    assert (10 ^ b = 10 ^ (a - 1) * 10 ^ (- (a - b - 1))) as Hsplit.
    { rewrite <-Z.pow_add_r by lia. f_equal. lia. }
    assert (0 < 10 ^ (- (a - b - 1))) by (apply Z.pow_pos_nonneg; lia). nia.
Qed.

(** The arithmetic of the 17 digits: a decimal within half a unit of its
    17th digit of the float lies within the rounding interval of the float,
    because [2 ^ 53 < 10 ^ 16]. *)
Lemma seventeen_digits_half (m nx dx D A B P T : Z) :
  0 < m < 2 ^ 53 -> 0 < dx -> 0 < A -> 0 < B -> 0 < P -> 0 < T ->
  nx * P = m * T * dx ->
  - (dx * B) <= 2 * (D * (dx * B) - nx * A) <= dx * B ->
  10 ^ 16 * (dx * B) <= nx * A ->
  - (A * T) < 2 * (D * B * P - m * T * A) < A * T.
Proof.
  intros Hm Hdx HA HB HP HT Hx Herr Hbig.
  assert (2 * (D * B * P - m * T * A) * dx = P * (2 * (D * (dx * B) - nx * A))) as HX.
  { replace (2 * (D * B * P - m * T * A) * dx)
      with (2 * D * B * P * dx - 2 * A * (m * T * dx)) by ring.
    rewrite <-Hx. ring. }
  assert (P * B < T * A) as HPB.
  { assert (10 ^ 16 * (P * (dx * B)) <= P * (nx * A)) as H1 by nia.
    assert (P * (nx * A) = m * (T * A * dx)) as H2.
    { replace (P * (nx * A)) with (nx * P * A) by ring. rewrite Hx. ring. }
    assert (0 < T * A * dx) as H3 by nia.
    assert (m * (T * A * dx) < 10 ^ 16 * (T * A * dx)) as H4.
    { apply Z.mul_lt_mono_pos_r; [done|]. change (2 ^ 53) with 9007199254740992 in Hm.
      change (10 ^ 16) with 10000000000000000. lia. }
    assert (P * B * dx < T * A * dx) as H5.
    { change (10 ^ 16) with 10000000000000000 in *. nia. }
    nia. }
  set (X := 2 * (D * B * P - m * T * A)) in *.
  assert (- (P * (dx * B)) <= X * dx <= P * (dx * B)) as HXb by nia.
  split; nia.
Qed.

Lemma seventeen_digits_quarter (m nx dx D A B P T : Z) :
  m = 2 ^ 52 -> 0 < dx -> 0 < A -> 0 < B -> 0 < P -> 0 < T ->
  nx * P = m * T * dx ->
  - (dx * B) <= 2 * (D * (dx * B) - nx * A) <= dx * B ->
  10 ^ 16 * (dx * B) <= nx * A ->
  - (A * T) < 4 * (D * B * P - m * T * A).
Proof.
  intros Hm Hdx HA HB HP HT Hx Herr Hbig.
  assert (2 * (D * B * P - m * T * A) * dx = P * (2 * (D * (dx * B) - nx * A))) as HX.
  { replace (2 * (D * B * P - m * T * A) * dx)
      with (2 * D * B * P * dx - 2 * A * (m * T * dx)) by ring.
    rewrite <-Hx. ring. }
  assert (2 * (P * B) < T * A) as HPB.
  { assert (10 ^ 16 * (P * (dx * B)) <= P * (nx * A)) as H1 by nia.
    assert (P * (nx * A) = m * (T * A * dx)) as H2.
    { replace (P * (nx * A)) with (nx * P * A) by ring. rewrite Hx. ring. }
    assert (0 < T * A * dx) as H3 by nia.
    subst m. change (2 ^ 52) with 4503599627370496 in *.
    change (10 ^ 16) with 10000000000000000 in *.
    assert (2 * (P * B) * dx < T * A * dx) as H5 by nia.
    nia. }
  set (X := 2 * (D * B * P - m * T * A)) in *.
  assert (- (P * (dx * B)) <= X * dx) as HXb by nia.
  replace (4 * (D * B * P - m * T * A)) with (2 * X) by (subst X; ring).
  nia.
Qed.

(** The decimal exponent leaves 17 digits before the point. *)
Lemma exponent10_scaled nx dx :
  0 < nx -> 0 < dx ->
  10 ^ 16 * (dx * 10 ^ Z.max (exponent10 nx dx - 17 + 1) 0)
  <= nx * 10 ^ Z.max (- (exponent10 nx dx - 17 + 1)) 0.
Proof.
  intros Hnx Hdx. pose proof (exponent10_lower nx dx Hnx Hdx) as Hlow.
  set (g := exponent10 nx dx) in *. clearbody g.
  destruct (Z.le_gt_cases 16 g) as [Hg|Hg].
  - rewrite (Z.max_l g), (Z.max_r (- g)) in Hlow by lia.
    rewrite (Z.max_l (g - 17 + 1)), (Z.max_r (- (g - 17 + 1))) by lia.
    change (10 ^ 0) with 1 in *.
    assert (10 ^ g = 10 ^ 16 * 10 ^ (g - 17 + 1)) as Hsplit.
    { rewrite <-Z.pow_add_r by lia. f_equal. lia. }
    rewrite Hsplit in Hlow. nia.
  - rewrite (Z.max_r (g - 17 + 1)), (Z.max_l (- (g - 17 + 1))) by lia.
    change (10 ^ 0) with 1. rewrite Z.mul_1_r.
    destruct (Z.le_gt_cases 0 g) as [Hg0|Hg0].
    + rewrite (Z.max_l g), (Z.max_r (- g)) in Hlow by lia. change (10 ^ 0) with 1 in Hlow.
      assert (10 ^ 16 = 10 ^ g * 10 ^ (- (g - 17 + 1))) as Hsplit.
      { rewrite <-Z.pow_add_r by lia. f_equal. lia. }
      rewrite Hsplit.
      assert (0 < 10 ^ (- (g - 17 + 1))) by (apply Z.pow_pos_nonneg; lia). nia.
    + rewrite (Z.max_r g), (Z.max_l (- g)) in Hlow by lia. change (10 ^ 0) with 1 in Hlow.
      assert (10 ^ (- (g - 17 + 1)) = 10 ^ (- g) * 10 ^ 16) as Hsplit.
      { rewrite <-Z.pow_add_r by lia. f_equal. lia. }
      rewrite Hsplit. change (10 ^ 16) with 10000000000000000. nia.
Qed.

Lemma float_value_identity m e :
  -1074 <= e ->
  numerator m e * 2 ^ bias = Zpos m * 2 ^ (e + bias) * denominator e.
Proof.
  intros He. unfold numerator, denominator, bias in *.
  rewrite <-!Z.mul_assoc, <-!Z.pow_add_r by lia. do 2 f_equal. lia.
Qed.

(** Seventeen digits always read back. *)
Lemma nearest17_reads_back m e :
  valid64 m e ->
  10 ^ 16 <= (nearest m e 17).1 /\
  float_of_decimal false (Z.to_N (nearest m e 17).1) (nearest m e 17).2
  = S754_finite false m e.
Proof.
  intros Hvalid. pose proof Hvalid as (Hm & He & Hnorm).
  unfold nearest. cbn [fst snd].
  assert (0 < numerator m e) as Hnx.
  { unfold numerator. assert (0 < 2 ^ Z.max e 0) by (apply Z.pow_pos_nonneg; lia). lia. }
  assert (0 < denominator e) as Hdx by (apply Z.pow_pos_nonneg; lia).
  pose proof (exponent10_scaled _ _ Hnx Hdx) as Hbig.
  pose proof (float_value_identity m e ltac:(lia)) as Hx.
  set (nx := numerator m e) in *. set (dx := denominator e) in *.
  set (k := exponent10 nx dx - 17 + 1) in *.
  pose proof (pow10_pos k) as HB. pose proof (pow10_pos (- k)) as HA.
  set (A := 10 ^ Z.max (- k) 0) in *. set (B := 10 ^ Z.max k 0) in *.
  destruct (round_div_error (nx * A) (dx * B) ltac:(nia) ltac:(nia)) as [HD0 Herr].
  set (D := round_div (nx * A) (dx * B)) in *.
  assert (10 ^ 16 <= D) as HD16.
  { change (10 ^ 16) with 10000000000000000 in *. nia. }
  split; [done|].
  unfold float_of_decimal. rewrite Z2N.id by lia. fold A B.
  assert (0 < 2 ^ bias) as HP by done.
  assert (0 < 2 ^ (e + bias)) as HT by (apply Z.pow_pos_nonneg; unfold bias; lia).
  assert (0 <= D * B) as HDB by nia.
  clearbody nx dx A B D.
  destruct (Z.eq_dec e (-1074)) as [He0|He0];
    [|destruct (Z.eq_dec (Zpos m) (2 ^ 52)) as [Hm52|Hm52]].
  - apply round_correct_half; [done|done|done|by left|].
    pose proof (seventeen_digits_half (Zpos m) nx dx D A B (2 ^ bias) (2 ^ (e + bias))
                  ltac:(lia) Hdx HA HB HP HT Hx Herr Hbig). nia.
  - apply round_correct_quarter; try done.
    + pose proof (seventeen_digits_quarter (Zpos m) nx dx D A B (2 ^ bias) (2 ^ (e + bias))
                    Hm52 Hdx HA HB HP HT Hx Herr Hbig). nia.
    + pose proof (seventeen_digits_half (Zpos m) nx dx D A B (2 ^ bias) (2 ^ (e + bias))
                    ltac:(lia) Hdx HA HB HP HT Hx Herr Hbig). nia.
  - apply round_correct_half; [done|done|done|right; lia|].
    pose proof (seventeen_digits_half (Zpos m) nx dx D A B (2 ^ bias) (2 ^ (e + bias))
                  ltac:(lia) Hdx HA HB HP HT Hx Herr Hbig). nia.
Qed.

(** The shortest decimal reads back as the float. *)
Lemma shortest_from_reads_back m e ndig fuel :
  valid64 m e ->
  0 < (shortest_from m e ndig fuel).1 /\
  float_of_decimal false (Z.to_N (shortest_from m e ndig fuel).1) (shortest_from m e ndig fuel).2
  = S754_finite false m e.
Proof.
  intros Hvalid. revert ndig. induction fuel as [|fuel IH]; intros ndig.
  - change (shortest_from m e ndig 0) with (nearest m e 17).
    destruct (nearest17_reads_back m e Hvalid) as [HD Hread].
    split; [|done]. change (10 ^ 16) with 10000000000000000 in HD. lia.
  - change (shortest_from m e ndig (S fuel))
      with (match candidate m e ndig with
            | Some c => c
            | None => shortest_from m e (ndig + 1) fuel
            end).
    destruct (candidate m e ndig) as [[D k]|] eqn:Hc; [|apply IH].
    cbn [fst snd].
    assert (float_of_decimal false (Z.to_N D) k = S754_finite false m e) as Hread.
    { unfold candidate in Hc.
      repeat match type of Hc with
      | context [bool_decide ?P] => destruct (bool_decide_reflect P)
      end; simplify_eq; try done;
      match goal with |- context [if ?b then _ else _] => destruct b end; done. }
    split; [|done].
    destruct (Z.lt_ge_cases 0 D) as [|HD]; [done|exfalso].
    replace (Z.to_N D) with 0%N in Hread by lia.
    by rewrite float_of_decimal_zero in Hread.
Qed.

End decimal_float_facts.

Section float_text_facts.
Import Codec.
Local Open Scope Z_scope.

Lemma closes_no_digit rest : closes rest -> head_is is_digit rest = false.
Proof. by intros [r [-> | ->]]. Qed.

Lemma number_cons_zero ds : number (0%N :: ds) = number ds.
Proof. done. Qed.

Lemma number_zeros z : number (zeros z) = 0%N.
Proof.
  unfold zeros. induction (Z.to_nat z) as [|k IH]; [done|].
  simpl replicate. by rewrite number_cons_zero.
Qed.

Lemma length_zeros z : 0 <= z -> Z.of_nat (length (zeros z)) = z.
Proof. intros. unfold zeros. rewrite length_replicate. lia. Qed.

Lemma zeros_lt z : Forall (fun d => d < 10)%N (zeros z).
Proof. unfold zeros. apply Forall_replicate. done. Qed.

Lemma number_zeros_app z ds : number (zeros z ++ ds) = number ds.
Proof. rewrite number_app, number_zeros. lia. Qed.

Lemma number_app_zeros ds z :
  0 <= z -> number (ds ++ zeros z) = (number ds * Z.to_N (10 ^ z))%N.
Proof.
  intros Hz. rewrite number_app, number_zeros, N.add_0_r. f_equal.
  apply N2Z.inj. rewrite N2Z.inj_pow, Z2N.id by (apply Z.pow_nonneg; lia).
  rewrite nat_N_Z, length_zeros by done. done.
Qed.

Lemma read_fraction_some fp rest :
  Forall (fun d => d < 10)%N fp -> head_is is_digit rest = false ->
  read_fraction (String "." (string_of_digits fp +:+ rest)) = (Some fp, rest).
Proof. intros Hfp Hrest. simpl. by rewrite read_digits_printed. Qed.

Lemma read_fraction_none rest : closes rest -> read_fraction rest = (None, rest).
Proof. by intros [r [-> | ->]]. Qed.

Lemma read_exponent_none rest : closes rest -> read_exponent rest = Ok (None, rest).
Proof. by intros [r [-> | ->]]. Qed.

Lemma read_exponent_some ex rest :
  head_is is_digit rest = false ->
  read_exponent (String "e" (repr_exponent ex +:+ rest)) = Ok (Some ex, rest).
Proof.
  intros Hrest. unfold repr_exponent. rewrite append_cons.
  pose proof (digits_lt (Z.to_N (Z.abs ex))) as Hlt.
  pose proof (number_digits (Z.to_N (Z.abs ex))) as Hnum.
  pose proof (digits_nonempty (Z.to_N (Z.abs ex))) as Hne.
  set (ds := digits (Z.to_N (Z.abs ex))) in *.
  set (padded := if Z.abs ex <? 10 then 0%N :: ds else ds).
  assert (Forall (fun d => d < 10)%N padded /\ number padded = Z.to_N (Z.abs ex)
          /\ padded <> []) as (Hp1 & Hp2 & Hp3).
  { subst padded. destruct (Z.abs ex <? 10); [|done].
    split_and!; [by constructor|by rewrite number_cons_zero|done]. }
  clearbody padded.
  unfold read_exponent. rewrite bool_decide_true by done. cbn [orb].
  destruct (Z.ltb_spec ex 0) as [Hneg|Hpos].
  - rewrite bool_decide_true by done.
    rewrite read_digits_printed by done.
    destruct padded; [done|]. rewrite Hp2. do 3 f_equal. lia.
  - rewrite bool_decide_false, bool_decide_true by done.
    rewrite read_digits_printed by done.
    destruct padded; [done|]. rewrite Hp2. do 3 f_equal. lia.
Qed.

Lemma read_number_float s ip fp ex rest :
  ip <> [] -> Forall (fun d => d < 10)%N ip ->
  Forall (fun d => d < 10)%N (default [] fp) ->
  is_Some fp \/ is_Some ex ->
  closes rest ->
  read_number s (string_of_digits ip +:+ fraction_text fp +:+ exponent_text ex +:+ rest)
  = Ok (VFloat (float_of_decimal s (number (ip ++ default [] fp))
                  (default 0 ex - Z.of_nat (length (default [] fp)))), rest).
Proof.
  intros Hip Hipd Hfpd Hsome Hrest. unfold read_number.
  pose proof (closes_no_digit _ Hrest) as Hnd.
  assert (head_is is_digit (exponent_text ex +:+ rest) = false) as Hnd_ex.
  { destruct ex; [done|]. exact Hnd. }
  assert (head_is is_digit (fraction_text fp +:+ exponent_text ex +:+ rest) = false) as Hnd_fp.
  { destruct fp; [done|]. exact Hnd_ex. }
  rewrite read_digits_printed by done.
  destruct ip as [|d0 ip']; [done|].
  assert (read_fraction (fraction_text fp +:+ exponent_text ex +:+ rest)
          = (fp, exponent_text ex +:+ rest)) as ->.
  { destruct fp as [fp|]; simpl fraction_text.
    - rewrite append_cons. by apply read_fraction_some.
    - change ("" +:+ ?x) with x. destruct ex as [ex|].
      + done.
      + change ("" +:+ rest) with rest. by apply read_fraction_none. }
  assert (read_exponent (exponent_text ex +:+ rest) = Ok (ex, rest)) as ->.
  { destruct ex as [ex|]; simpl exponent_text.
    - rewrite append_cons. by apply read_exponent_some.
    - by apply read_exponent_none. }
  cbn [mbind result_bind].
  destruct fp as [fp|], ex as [ex|]; try done.
  destruct Hsome as [[? [=]]|[? [=]]].
Qed.

Local Ltac same_exponent :=
  match goal with
  | |- context [float_of_decimal _ _ ?x] =>
      match goal with
      | |- _ = ?r =>
          match r with
          | context [float_of_decimal _ _ ?y] =>
              replace x with y by (unfold id; simpl; lia); reflexivity
          end
      end
  end.

Lemma format_float_reads s ds decpt rest :
  ds <> [] -> Forall (fun d => d < 10)%N ds -> closes rest ->
  read_number s (format_float ds decpt +:+ rest)
  = Ok (VFloat (float_of_decimal s (number ds) (decpt - Z.of_nat (length ds))), rest).
Proof.
  intros Hne Hds Hrest. unfold format_float.
  destruct ((decpt <=? -4) || (16 <? decpt)) eqn:Hexp.
  - (* exponent notation *)
    destruct ds as [|d ds']; [done|]. apply Forall_cons in Hds as [Hd Hds'].
    destruct ds' as [|d' ds''].
    + transitivity (read_number s (string_of_digits [d] +:+ fraction_text None
                                     +:+ exponent_text (Some (decpt - 1)) +:+ rest)).
      { f_equal; simpl fraction_text; rewrite ?append_assoc, ?append_cons; done. }
      rewrite read_number_float;
        [|done|by repeat constructor|done|right; by eexists|done].
      cbn [default from_option id length app]. same_exponent.
    + transitivity (read_number s (string_of_digits [d] +:+ fraction_text (Some (d' :: ds''))
                                     +:+ exponent_text (Some (decpt - 1)) +:+ rest)).
      { f_equal; simpl fraction_text; rewrite ?append_assoc, ?append_cons; done. }
      rewrite read_number_float;
        [|done|by repeat constructor|done|left; by eexists|done].
      cbn [default from_option id length app]. same_exponent.
  - apply orb_false_elim in Hexp as [H1 H2].
    apply Z.leb_gt in H1. apply Z.ltb_ge in H2.
    destruct (Z.leb_spec decpt 0) as [Hle|Hgt].
    + (* 0.000ddd *)
      transitivity (read_number s (string_of_digits [0%N]
                                     +:+ fraction_text (Some (zeros (- decpt) ++ ds))
                                     +:+ exponent_text None +:+ rest)).
      { f_equal; simpl fraction_text; rewrite ?append_assoc, ?append_cons; done. }
      rewrite read_number_float;
        [|done|by repeat constructor|apply Forall_app; split; [apply zeros_lt|done]
         |left; by eexists|done].
      cbn [default from_option id length app]. rewrite number_cons_zero, number_zeros_app.
      rewrite length_app, Nat2Z.inj_add, length_zeros by lia. same_exponent.
    + destruct (Z.leb_spec (Z.of_nat (length ds)) decpt) as [Hfull|Hpart].
      * (* ddd000.0 *)
        transitivity (read_number s
                        (string_of_digits (ds ++ zeros (decpt - Z.of_nat (length ds)))
                           +:+ fraction_text (Some [0%N]) +:+ exponent_text None +:+ rest)).
        { f_equal; simpl fraction_text; rewrite ?append_assoc, ?append_cons; done. }
        rewrite read_number_float;
          [|by destruct ds|apply Forall_app; split; [done|apply zeros_lt]
           |by repeat constructor|left; by eexists|done].
        cbn [default from_option id length app]. rewrite number_snoc, N.add_0_r.
        rewrite number_app_zeros by lia.
        rewrite <-(float_of_decimal_shift s (number ds) _
                     (decpt - Z.of_nat (length ds) + 1)) by lia.
        replace (10 * (number ds * Z.to_N (10 ^ (decpt - Z.of_nat (length ds)))))%N
          with (number ds * Z.to_N (10 ^ (decpt - Z.of_nat (length ds) + 1)))%N.
        { same_exponent. }
        rewrite Z.pow_add_r by lia. change (10 ^ 1) with 10.
        rewrite Z2N.inj_mul by (try apply Z.pow_nonneg; lia). lia.
      * (* dd.ddd *)
        transitivity (read_number s
                        (string_of_digits (take (Z.to_nat decpt) ds)
                           +:+ fraction_text (Some (drop (Z.to_nat decpt) ds))
                           +:+ exponent_text None +:+ rest)).
        { f_equal; simpl fraction_text; rewrite ?append_assoc, ?append_cons; done. }
        rewrite read_number_float;
          [| |by apply Forall_take|by apply Forall_drop|left; by eexists|done].
        -- cbn [default from_option id length app]. rewrite take_drop, length_drop. same_exponent.
        -- destruct ds; [done|]. destruct (Z.to_nat decpt) eqn:?; [lia|done].
Qed.

Lemma format_float_head ds decpt :
  ds <> [] -> Forall (fun d => d < 10)%N ds ->
  exists d tail, (d < 10)%N /\ format_float ds decpt = String (digit_char d) tail.
Proof.
  intros Hne Hds. unfold format_float.
  destruct ds as [|d ds']; [done|]. apply Forall_cons in Hds as [Hd Hds'].
  destruct ((decpt <=? -4) || (16 <? decpt)).
  { destruct ds'; by eexists d, _. }
  destruct (Z.leb_spec decpt 0) as [Hle|Hgt]; [by exists 0%N; eexists|].
  destruct (_ <=? decpt); [by eexists d, _|].
  destruct (Z.to_nat decpt) eqn:Hz; [lia|].
  by eexists d, _.
Qed.

End float_text_facts.

Section codec_facts.
Import Codec.
Local Open Scope Z_scope.

Lemma strip_zeros_spec ds :
  exists z : nat, ds = strip_zeros ds ++ replicate z 0%N.
Proof.
  induction ds as [|d ds [z IH]]; [by exists 0%nat|].
  simpl. destruct (strip_zeros ds) as [|r rs] eqn:Hs.
  - destruct (N.eqb_spec d 0) as [->|Hd].
    + exists (S z). simpl in *. by rewrite IH.
    + exists z. simpl in *. by rewrite IH.
  - exists z. simpl in *. by rewrite IH at 1.
Qed.

Lemma strip_zeros_zeros ds :
  exists z, 0 <= z /\ ds = strip_zeros ds ++ zeros z.
Proof.
  destruct (strip_zeros_spec ds) as [z Hz]. exists (Z.of_nat z).
  split; [lia|]. unfold zeros. by rewrite Nat2Z.id.
Qed.

Lemma float_of_decimal_sign s D k m e :
  float_of_decimal false D k = S754_finite false m e ->
  float_of_decimal s D k = S754_finite s m e.
Proof.
  unfold float_of_decimal, round_binary64.
  repeat match goal with
  | |- context [let '(_, _) := ?x in _] => destruct x
  | |- context [if ?b then _ else _] => destruct b
  end; by intros [= -> ->].
Qed.

Lemma number_lt ds :
  Forall (fun d => d < 10)%N ds -> (number ds < 10 ^ N.of_nat (length ds))%N.
Proof.
  induction ds as [|d ds IH] using rev_ind; intros Hds; [done|].
  apply Forall_app in Hds as [Hds Hd]. rewrite Forall_singleton in Hd.
  rewrite number_snoc, length_app. simpl length.
  replace (N.of_nat (length ds + 1)) with (N.succ (N.of_nat (length ds))) by lia.
  rewrite N.pow_succ_r'. specialize (IH Hds). lia.
Qed.

Lemma digits_head p : exists d ds, digits (Npos p) = d :: ds /\ d <> 0%N.
Proof.
  pose proof (digits_bounds (Npos p) ltac:(done)) as [Hlo _].
  pose proof (number_digits (Npos p)) as Hnum.
  pose proof (digits_lt (Npos p)) as Hlt.
  destruct (digits (Npos p)) as [|d ds]; [done|]. exists d, ds. split; [done|].
  intros ->. apply Forall_cons in Hlt as [_ Hlt]. apply number_lt in Hlt.
  rewrite number_cons_zero in Hnum. simpl length in Hlo.
  replace (S (length ds) - 1)%nat with (length ds) in Hlo by lia. lia.
Qed.

(** Where [read_value] sends the text of a number. *)
Lemma read_value_number neg d tail :
  (d < 10)%N ->
  read_value (repr_sign neg +:+ String (digit_char d) tail)
  = '(v, rest) ← read_number neg (String (digit_char d) tail); Ok (ELit v, rest).
Proof.
  intros Hd%digit_cases.
  repeat (apply elem_of_cons in Hd as [->|Hd]; [by destruct neg|]).
  by apply elem_of_nil in Hd.
Qed.

Lemma read_number_int neg d ip rest :
  Forall (fun d => d < 10)%N (d :: ip) -> d <> 0%N \/ ip = [] ->
  (length (d :: ip) <= int_max_str_digits)%nat -> closes rest ->
  read_number neg (string_of_digits (d :: ip) +:+ rest)
  = Ok (VInt (if neg then - Z.of_N (number (d :: ip)) else Z.of_N (number (d :: ip))), rest).
Proof.
  intros Hds Hlead Hlen Hrest. unfold read_number.
  rewrite read_digits_printed by (done || by apply closes_no_digit).
  rewrite read_fraction_none, read_exponent_none by done.
  cbn [mbind result_bind].
  rewrite (bool_decide_false (int_max_str_digits < length (d :: ip))%nat) by lia.
  rewrite andb_false_r.
  destruct Hlead as [Hd| ->].
  - by rewrite (bool_decide_false (d = 0%N)).
  - rewrite (bool_decide_false ([] <> [])) by (by intros []).
    by rewrite andb_false_r.
Qed.

Lemma decimal_reads z rest :
  (int_digits z <= int_max_str_digits)%nat -> closes rest ->
  read_value (decimal z +:+ rest) = Ok (ELit (VInt z), rest).
Proof.
  intros Hlim Hrest. destruct z as [|p|p].
  - change (decimal 0 +:+ rest)
      with (repr_sign false +:+ String (digit_char 0) rest).
    rewrite read_value_number by done.
    change (String (digit_char 0) rest) with (string_of_digits [0%N] +:+ rest).
    rewrite read_number_int; [done|by repeat constructor|by right| |done].
    unfold int_max_str_digits. simpl. lia.
  - destruct (digits_head p) as (d & ds & Hds & Hd).
    pose proof (digits_lt (Npos p)) as Hlt. pose proof (number_digits (Npos p)) as Hnum.
    change (int_digits (Zpos p)) with (length (digits (Npos p))) in Hlim.
    unfold decimal. rewrite Hds in *.
    change (string_of_digits (d :: ds) +:+ rest)
      with (repr_sign false +:+ String (digit_char d) (string_of_digits ds +:+ rest)).
    rewrite read_value_number by (by apply Forall_cons in Hlt as [? _]).
    change (String (digit_char d) (string_of_digits ds +:+ rest))
      with (string_of_digits (d :: ds) +:+ rest).
    rewrite read_number_int; [|done|by left|done|done]. by rewrite Hnum.
  - destruct (digits_head p) as (d & ds & Hds & Hd).
    pose proof (digits_lt (Npos p)) as Hlt. pose proof (number_digits (Npos p)) as Hnum.
    change (int_digits (Zneg p)) with (length (digits (Npos p))) in Hlim.
    unfold decimal. rewrite Hds in *.
    change (String "-" (string_of_digits (d :: ds)) +:+ rest)
      with (repr_sign true +:+ String (digit_char d) (string_of_digits ds +:+ rest)).
    rewrite read_value_number by (by apply Forall_cons in Hlt as [? _]).
    change (String (digit_char d) (string_of_digits ds +:+ rest))
      with (string_of_digits (d :: ds) +:+ rest).
    rewrite read_number_int; [|done|by left|done|done]. by rewrite Hnum.
Qed.

Lemma repr_str_reads s rest :
  read_value (repr_str s +:+ rest) = Ok (ELit (VStr s), rest).
Proof.
  rewrite repr_str_append. unfold read_value.
  destruct (quote_of_cases s) as [Hq|Hq].
  - rewrite (bool_decide_true (quote_of s = squote)) by done. cbn [orb].
    by rewrite read_string_printed by auto.
  - rewrite (bool_decide_true (quote_of s = dquote)) by done. rewrite orb_true_r.
    by rewrite read_string_printed by auto.
Qed.

Lemma repr_float_reads f rest :
  finite64 f = true -> closes rest ->
  read_value (repr_float f +:+ rest) = Ok (ELit (VFloat f), rest).
Proof.
  intros Hf Hrest. destruct f as [s|s| |s m e]; try done.
  - (* zeros *)
    cbn [repr_float]. rewrite append_assoc.
    change ("0.0" +:+ rest) with (String (digit_char 0) (String "." (String "0" rest))).
    rewrite read_value_number by done.
    change (String (digit_char 0) (String "." (String "0" rest)))
      with (format_float [0%N] 1 +:+ rest).
    rewrite format_float_reads; [|done|by repeat constructor|done].
    cbn [mbind result_bind]. by rewrite float_of_decimal_zero.
  - simpl in Hf. apply bounded_valid64 in Hf.
    unfold repr_float, shortest.
    destruct (shortest_from_reads_back m e 1 16 Hf) as [HD Hread].
    destruct (shortest_from m e 1 16) as [D k]. cbn [fst snd] in HD, Hread.
    pose proof (number_digits (Z.to_N D)) as Hnum.
    pose proof (digits_lt (Z.to_N D)) as Hlt.
    destruct (strip_zeros_zeros (digits (Z.to_N D))) as (z & Hz & Hds).
    set (ds := digits (Z.to_N D)) in *. set (ds1 := strip_zeros ds) in *.
    assert (ds1 <> []) as Hne.
    { intros Hnil. rewrite Hds, Hnil in Hnum. simpl in Hnum.
      rewrite number_zeros in Hnum. lia. }
    assert (Forall (fun d => d < 10)%N ds1) as Hlt1.
    { rewrite Hds in Hlt. by apply Forall_app in Hlt as [? _]. }
    assert (Z.of_nat (length ds) = Z.of_nat (length ds1) + z) as Hlen.
    { rewrite Hds at 1. rewrite length_app, Nat2Z.inj_add, length_zeros by done. done. }
    destruct (format_float_head ds1 (Z.of_nat (length ds) + k) Hne Hlt1)
      as (d & tail & Hd & Hhead).
    rewrite append_assoc, Hhead, append_cons, read_value_number by done.
    rewrite <-append_cons, <-Hhead, format_float_reads by done.
    cbn [mbind result_bind].
    assert (float_of_decimal s (number ds1) (Z.of_nat (length ds) + k - Z.of_nat (length ds1))
            = S754_finite s m e) as ->; [|done].
    apply float_of_decimal_sign.
    transitivity (float_of_decimal false (number ds1 * Z.to_N (10 ^ z)) (k + z - z)).
    + rewrite float_of_decimal_shift by done. f_equal. lia.
    + rewrite Z.add_simpl_r, <-number_app_zeros, <-Hds, Hnum by done. exact Hread.
Qed.

Lemma text_value_reads v rest :
  supported v = true -> closes rest ->
  read_value (text_value v +:+ rest) = Ok (ELit v, rest).
Proof.
  intros Hv Hrest. destruct v as [z|f|s|c t]; simpl text_value.
  - apply decimal_reads; [|done]. by apply bool_decide_eq_true in Hv.
  - by apply repr_float_reads.
  - by apply repr_str_reads.
  - done.
Qed.

Lemma read_value_skip s r : read_value s = Ok r -> skip_spaces s = s.
Proof.
  destruct s as [|c s]; [done|]. intros Hread. simpl.
  destruct (bool_decide_reflect (c = " "%char)) as [->|]; [|done].
  by vm_compute in Hread.
Qed.

Lemma read_entries_space fuel s : read_entries fuel (String " " s) = read_entries fuel s.
Proof. by destruct fuel. Qed.

Lemma text_items_head a rest :
  a <> [] ->
  exists q tail, (q = squote \/ q = dquote) /\ text_items a +:+ rest = String q tail.
Proof.
  destruct a as [|[k v] a]; [done|]. intros _. exists (quote_of k).
  destruct a as [|kv a]; simpl text_items; unfold text_item; cbn [fst snd];
    rewrite !append_assoc, repr_str_append; eauto using quote_of_cases.
Qed.

Lemma read_entries_last fuel key v :
  supported v = true ->
  read_entries (S fuel) (repr_str key +:+ String ":" (String " " (text_value v +:+ "}")))
  = Ok [(key, ELit v)].
Proof.
  intros Hv.
  assert (closes "}") as Hcl by (exists ""; by right).
  pose proof (text_value_reads v "}" Hv Hcl) as Hread.
  pose proof (read_value_skip _ _ Hread) as Hskip.
  rewrite repr_str_append.
  destruct (quote_of_cases key) as [-> | ->]; simpl;
    rewrite read_string_printed by auto; simpl; by rewrite Hskip, Hread.
Qed.

Lemma read_entries_more fuel key v a :
  supported v = true -> a <> [] ->
  read_entries (S fuel)
    (repr_str key +:+ String ":" (String " " (text_value v +:+
       String "," (String " " (text_items a +:+ "}")))))
  = rest ← read_entries fuel (text_items a +:+ "}"); Ok ((key, ELit v) :: rest).
Proof.
  intros Hv Ha.
  destruct (text_items_head a "}" Ha) as (q & tail & Hq & ->).
  assert (closes (String "," (String " " (String q tail)))) as Hcl by (eexists; by left).
  pose proof (text_value_reads v _ Hv Hcl) as Hread.
  pose proof (read_value_skip _ _ Hread) as Hskip.
  rewrite repr_str_append.
  destruct (quote_of_cases key) as [-> | ->]; simpl;
    rewrite read_string_printed by auto; simpl; rewrite Hskip, Hread; simpl;
    destruct Hq as [-> | ->]; simpl; by rewrite read_entries_space.
Qed.

Lemma text_items_last kv :
  text_items [kv] +:+ "}"
  = repr_str kv.1 +:+ String ":" (String " " (text_value kv.2 +:+ "}")).
Proof. simpl text_items. unfold text_item. by rewrite !append_assoc. Qed.

Lemma text_items_more kv kv' a :
  text_items (kv :: kv' :: a) +:+ "}"
  = repr_str kv.1 +:+ String ":" (String " " (text_value kv.2 +:+
      String "," (String " " (text_items (kv' :: a) +:+ "}")))).
Proof.
  change (text_items (kv :: kv' :: a))
    with (text_item kv +:+ ", " +:+ text_items (kv' :: a)).
  unfold text_item. by rewrite !append_assoc.
Qed.

Lemma read_entries_printed fuel a :
  a <> [] -> (length a <= fuel)%nat -> Forall (fun kv => supported kv.2 = true) a ->
  read_entries fuel (text_items a +:+ "}") = Ok (literal <$> a).
Proof.
  revert fuel. induction a as [|kv a IH]; intros fuel Hne Hfuel Hall; [done|].
  destruct fuel as [|fuel]; [simpl in Hfuel; lia|].
  apply Forall_cons in Hall as [Hv Hall]. simpl in Hfuel.
  destruct a as [|kv' a].
  - rewrite text_items_last. by rewrite read_entries_last.
  - rewrite text_items_more, read_entries_more by done.
    rewrite IH; [done|done|simpl in *; lia|done].
Qed.

Lemma length_append (s t : string) :
  String.length (s +:+ t) = (String.length s + String.length t)%nat.
Proof. induction s as [|c s IH]; [done|]. rewrite append_cons. simpl. by rewrite IH. Qed.

Lemma length_text_items a : (length a <= String.length (text_items a))%nat.
Proof.
  induction a as [|kv a IH]; [done|].
  assert (1 <= String.length (text_item kv))%nat as Hitem.
  { unfold text_item, repr_str. rewrite append_cons. simpl. lia. }
  destruct a as [|kv' a]; [done|].
  change (text_items (kv :: kv' :: a))
    with (text_item kv +:+ ", " +:+ text_items (kv' :: a)).
  rewrite !length_append. simpl in *. lia.
Qed.

Lemma parse_dict_printed a :
  Forall (fun kv => supported kv.2 = true) a ->
  parse_dict (text a) = Ok (literal <$> a).
Proof.
  intros Hall. destruct a as [|kv a]; [done|].
  pose proof (length_text_items (kv :: a)) as Hlen.
  destruct (text_items_head (kv :: a) "}" ltac:(done)) as (q & tail & Hq & Htxt).
  unfold parse_dict, text.
  change ("{" +:+ text_items (kv :: a) +:+ "}")
    with (String "{" (text_items (kv :: a) +:+ "}")).
  cbn [skip_spaces]. rewrite bool_decide_false by done.
  rewrite bool_decide_true by done.
  rewrite Htxt at 1.
  assert (skip_spaces (String q tail) = String q tail) as ->
    by (by destruct Hq as [-> | ->]).
  rewrite (bool_decide_false (q = "}"%char)) by (by destruct Hq as [-> | ->]).
  apply read_entries_printed; [done| |done].
  cbn [String.length]. rewrite length_append. lia.
Qed.

Lemma eval_entries_literals a acc :
  eval_entries (literal <$> a) acc
  = Ok (foldl (fun acc kv => dict_set kv.1 kv.2 acc) acc a).
Proof. revert acc. induction a as [|[k v] a IH]; intros acc; [done|]. simpl. apply IH. Qed.

Lemma dict_set_fresh {V} k (v : V) d : k ∉ d.*1 -> dict_set k v d = d ++ [(k, v)].
Proof.
  induction d as [|[k' v'] d IH]; [done|]. intros Hk. simpl.
  apply not_elem_of_cons in Hk as [Hne Hk].
  rewrite bool_decide_false by done. by rewrite IH.
Qed.

Lemma foldl_dict_set (a acc : assignment) :
  NoDup (acc.*1 ++ a.*1) ->
  foldl (fun acc kv => dict_set kv.1 kv.2 acc) acc a = acc ++ a.
Proof.
  revert acc. induction a as [|[k v] a IH]; intros acc Hnd.
  - by rewrite app_nil_r.
  - simpl. rewrite dict_set_fresh.
    + rewrite IH; [by rewrite <-app_assoc|].
      by rewrite fmap_app, <-app_assoc.
    + apply NoDup_app in Hnd as (_ & Hdisj & _). intros Hin.
      apply (Hdisj _ Hin). simpl. left.
Qed.

End codec_facts.

Section str_facts.
Import Codec.

(** [str] prints the text when every value prints. *)
Lemma repr_value_text v : supported v = true -> repr_value v = Ok (text_value v).
Proof.
  destruct v as [z|f|s|c t]; try done. intros Hz%bool_decide_eq_true.
  unfold repr_value, repr_int. rewrite bool_decide_false by lia. done.
Qed.

Lemma repr_value_ok v k : repr_value v = Ok k -> k = text_value v.
Proof.
  destruct v as [z|f|s|c t]; simpl; try (by intros [= <-]).
  unfold repr_int. case_bool_decide; [done|]. by intros [= <-].
Qed.

Lemma repr_value_supported v k : plain v = true -> repr_value v = Ok k -> supported v = true.
Proof.
  destruct v as [z|f|s|c t]; try done. intros _. simpl. unfold repr_int.
  case_bool_decide as Hlim; [done|]. intros _. apply bool_decide_eq_true. lia.
Qed.

Lemma repr_items_cons kv kv' a :
  repr_items (kv :: kv' :: a)
  = r ← repr_item kv; rest ← repr_items (kv' :: a); Ok (r +:+ ", " +:+ rest).
Proof. done. Qed.

Lemma repr_items_text a :
  Forall (fun kv => supported kv.2 = true) a -> repr_items a = Ok (text_items a).
Proof.
  induction a as [|kv a IH]; [done|]. intros [Hv Ha]%Forall_cons.
  assert (repr_item kv = Ok (text_item kv)) as Hkv
    by (unfold repr_item; by rewrite repr_value_text).
  destruct a as [|kv' a]; [done|].
  rewrite repr_items_cons, Hkv, IH by done. done.
Qed.

Lemma str_text a : Forall (fun kv => supported kv.2 = true) a -> str a = Ok (text a).
Proof. intros Ha. unfold str. by rewrite repr_items_text. Qed.

(** A key that [str] printed is the text of the assignment, whose integers
    are within the digit limit. *)
Lemma repr_items_ok a k :
  Forall (fun kv => plain kv.2 = true) a -> repr_items a = Ok k ->
  Forall (fun kv => supported kv.2 = true) a.
Proof.
  revert k. induction a as [|kv a IH]; intros k; [done|]. intros [Hv Ha]%Forall_cons.
  assert (forall r, repr_item kv = Ok r -> supported kv.2 = true) as Hitem.
  { intros r. unfold repr_item. destruct (repr_value kv.2) as [t|e] eqn:Hr; [|done].
    intros _. by eapply repr_value_supported. }
  destruct a as [|kv' a].
  - intros Hk. constructor; [by eapply Hitem|done].
  - rewrite repr_items_cons. destruct (repr_item kv) as [r|e] eqn:Hr; [|done].
    cbn [mbind result_bind]. destruct (repr_items (kv' :: a)) as [rest|e] eqn:Hrest; [|done].
    intros _. constructor; [by eapply Hitem|by eapply IH].
Qed.

Lemma str_ok a k :
  Forall (fun kv => plain kv.2 = true) a -> str a = Ok k ->
  Forall (fun kv => supported kv.2 = true) a /\ k = text a.
Proof.
  intros Ha. unfold str. destruct (repr_items a) as [items|e] eqn:Hitems; [|done].
  intros [= <-]. pose proof (repr_items_ok a items Ha Hitems) as Hs.
  split; [done|]. rewrite (repr_items_text a Hs) in Hitems. by injection Hitems as <-.
Qed.

Lemma eval_text (a : assignment) :
  NoDup a.*1 -> Forall (fun kv => supported kv.2 = true) a -> eval (text a) = Ok a.
Proof.
  intros Hnd Hall. unfold eval.
  rewrite parse_dict_printed by done. cbn [mbind result_bind].
  rewrite eval_entries_literals. f_equal. by apply (foldl_dict_set a []).
Qed.

End str_facts.

Section codec_theorems.
Import Codec.

(** C1, as the code has it: for every parameter assignment [a] whose values
    are integers of at most 4300 decimal digits, strings and floats that
    are numbers (any float but the infinities and nan), and that
    [remove_pd_object] returns as it is, [str] prints the column key and
    [eval] of the key is [a] again: the same keys in the same order with
    the same values. A [dict] has every key once. *)
Theorem eval_str_inverse (remove_pd_object : assignment -> assignment) (a : assignment) :
  remove_pd_object a = a ->
  NoDup a.*1 ->
  Forall (fun kv => supported kv.2 = true) a ->
  exists key, str (remove_pd_object a) = Ok key /\ eval key = Ok a.
Proof.
  intros -> Hnd Hall. exists (text a). split; [by apply str_text|by apply eval_text].
Qed.

End codec_theorems.

Section codec_examples.
Import Codec Examples.

(** The key of a column, as Python prints it. *)
Example str_scalars :
  str scalars = Ok "{'timeperiod': 20, 'threshold': 0.1, 'price': 'close'}".
Proof. vm_compute. reflexivity. Qed.

(** Floats print as Python prints them: the shortest decimal that reads
    back, with an exponent below [1e-04] and from [1e+16] on. *)
Example repr_float_examples :
  repr_float (S754_finite false 5902958103587057 (-69)) = "1e-05" /\
  repr_float (S754_finite false 4768371582031250 21) = "1e+22" /\
  repr_float (S754_finite true 5629499534213120 (-51)) = "-2.5" /\
  repr_float (S754_finite false 5404319552844596 (-54)) = "0.30000000000000004".
Proof. repeat split; vm_compute; reflexivity. Qed.

(** The assignment [{'threshold': float('inf')}] is built from a float, and
    its key does not decode to it: [remove_pd_object] drops the parameter,
    whose text [inf] does not read back, the key is the text of the empty
    [dict], and [eval] of the key is the empty [dict], not the assignment of
    one parameter. *)
Lemma eval_str_unbounded :
  unbounded = [("threshold", VFloat (S754_infinity false))] /\
  utility.remove_pd_object unbounded = [] /\
  str (utility.remove_pd_object unbounded) = Ok "{}" /\
  eval "{}" = Ok [].
Proof. repeat split; vm_compute; reflexivity. Qed.

Lemma eval_str_inverse_witness :
  exists key, str (utility.remove_pd_object scalars) = Ok key /\ eval key = Ok scalars.
Proof.
  apply eval_str_inverse.
  - reflexivity.
  - apply (bool_decide_unpack _). vm_compute. exact I.
  - repeat constructor.
Defined.

End codec_examples.

(** * Properties of the filter composition *)

Section tile_repeat.
Context {A : Type}.
Implicit Types (l : list A) (x : A) (i j p q : nat).

Lemma length_tile p l : length (mjoin (replicate p l)) = p * length l.
Proof. induction p as [|p IH]; simpl; [done|]. rewrite length_app, IH. lia. Qed.

Lemma length_repeat q l : length (l ≫= replicate q) = length l * q.
Proof.
  induction l as [|x l IH]; csimpl; [done|].
  rewrite length_app, length_replicate, IH. lia.
Qed.

Lemma lookup_tile p l i j x :
  i < p -> l !! j = Some x -> mjoin (replicate p l) !! (i * length l + j) = Some x.
Proof.
  intros Hi Hj. revert i Hi. induction p as [|p IH]; intros i Hi; [lia|].
  simpl. destruct i as [|i].
  - simpl. by apply lookup_app_l_Some.
  - rewrite lookup_app_r by (simpl; lia).
    replace (S i * length l + j - length l) with (i * length l + j) by (simpl; lia).
    apply IH. lia.
Qed.

Lemma lookup_repeat q l i j x :
  l !! i = Some x -> j < q -> (l ≫= replicate q) !! (i * q + j) = Some x.
Proof.
  revert i. induction l as [|y l IH]; intros i Hi Hj; [done|].
  csimpl. destruct i as [|i]; simpl in *.
  - injection Hi as ->. rewrite lookup_app_l by (rewrite length_replicate; lia).
    by apply lookup_replicate_2.
  - rewrite lookup_app_r by (rewrite length_replicate; lia).
    rewrite length_replicate.
    replace (q + i * q + j - q) with (i * q + j) by lia. by apply IH.
Qed.

End tile_repeat.

Section columns.
Context {A B : Type}.
Implicit Types (f : A -> B) (l : list A) (n : nat).

Lemma fmap_tile f n l : f <$> mjoin (replicate n l) = mjoin (replicate n (f <$> l)).
Proof. induction n as [|n IH]; simpl; [done|]. by rewrite fmap_app, IH. Qed.

Lemma fmap_repeat f n l : f <$> (l ≫= replicate n) = (f <$> l) ≫= replicate n.
Proof.
  induction l as [|x l IH]; csimpl; [done|]. by rewrite fmap_app, fmap_replicate, IH.
Qed.

Lemma elem_of_tile n l x : x ∈ mjoin (replicate n l) -> x ∈ l.
Proof.
  induction n as [|n IH]; simpl; [by intros ?%elem_of_nil|].
  intros [?|?]%elem_of_app; [done|by apply IH].
Qed.

Lemma elem_of_repeat l n x : x ∈ l ≫= replicate n -> x ∈ l.
Proof.
  intros (y & Hx & Hy)%list_elem_of_bind. by apply elem_of_replicate in Hx as [-> _].
Qed.

Lemma elem_of_repeat_2 l n x : 0 < n -> x ∈ l -> x ∈ l ≫= replicate n.
Proof.
  intros Hn Hx. apply list_elem_of_bind. exists x. split; [|done].
  apply elem_of_replicate. split; [done|lia].
Qed.

End columns.

Section zips.
Context {L D : Type}.
Implicit Types (ls : list L) (ds : list D) (l : list (L * D)).

Lemma zip_fst ls ds : length ls = length ds -> (zip ls ds).*1 = ls.
Proof.
  revert ds. induction ls as [|x ls IH]; intros [|d ds] Hlen; simpl in *; try done.
  f_equal. apply IH. lia.
Qed.

Lemma zip_snd ls ds : length ls = length ds -> (zip ls ds).*2 = ds.
Proof.
  revert ds. induction ls as [|x ls IH]; intros [|d ds] Hlen; simpl in *; try done.
  f_equal. apply IH. lia.
Qed.

Lemma zip_zip_with (f : L -> L -> L) (g : D -> D -> D) l1 l2 :
  zip (zip_with f l1.*1 l2.*1) (zip_with g l1.*2 l2.*2)
  = zip_with (fun a b => (f a.1 b.1, g a.2 b.2)) l1 l2.
Proof.
  revert l2. induction l1 as [|a l1 IH]; intros [|b l2]; simpl; try done.
  f_equal. apply IH.
Qed.

Lemma relabel_labels {L'} (l1 : list (L * D)) (l2 : list (L' * D)) :
  length l1 = length l2 ->
  (zip_with (fun co c => (co.1, c.2)) l1 l2).*1 = l1.*1.
Proof.
  revert l2. induction l1 as [|c l1 IH]; intros [|d l2] Hlen; simpl in *; try done.
  f_equal. apply IH. lia.
Qed.

Lemma relabel_data {L'} (l1 : list (L * D)) (l2 : list (L' * D)) :
  length l1 = length l2 ->
  (zip_with (fun co c => (co.1, c.2)) l1 l2).*2 = l2.*2.
Proof.
  revert l2. induction l1 as [|c l1 IH]; intros [|d l2] Hlen; simpl in *; try done.
  f_equal. apply IH. lia.
Qed.

End zips.

Section cross.
Context {A B C : Type} (f : A -> B -> C).
Implicit Types (la : list A) (lb : list B).

Lemma length_cross la lb : length (cross f la lb) = length lb * length la.
Proof. unfold cross. rewrite length_zip_with, length_tile, length_repeat. lia. Qed.

Lemma lookup_cross_pair la lb i j a b :
  la !! j = Some a -> lb !! i = Some b ->
  cross f la lb !! (i * length la + j) = Some (f a b).
Proof.
  intros Ha Hb. unfold cross. rewrite lookup_zip_with.
  rewrite (lookup_tile _ _ _ _ a); [|by eapply lookup_lt_Some|done].
  simpl. rewrite (lookup_repeat _ _ _ _ b); [done|done|by eapply lookup_lt_Some].
Qed.

Lemma lookup_cross_inv la lb k c :
  cross f la lb !! k = Some c ->
  exists i j a b, k = i * length la + j /\ la !! j = Some a /\ lb !! i = Some b /\ c = f a b.
Proof.
  intros Hk. pose proof (lookup_lt_Some _ _ _ Hk) as Hlt.
  rewrite length_cross in Hlt.
  assert (0 < length la) as Hq by (destruct (length la); lia).
  assert (k `div` length la < length lb) as Hi by (apply Nat.Div0.div_lt_upper_bound; lia).
  assert (k `mod` length la < length la) as Hj by (apply Nat.mod_upper_bound; lia).
  destruct (lookup_lt_is_Some_2 _ _ Hi) as [b Hb].
  destruct (lookup_lt_is_Some_2 _ _ Hj) as [a Ha].
  exists (k `div` length la), (k `mod` length la), a, b.
  assert (k = k `div` length la * length la + k `mod` length la) as Hdiv
    by (rewrite (Nat.div_mod_eq k (length la)) at 1; lia).
  split_and!; try done.
  rewrite Hdiv, (lookup_cross_pair _ _ _ _ a b) in Hk by done. congruence.
Qed.

End cross.

Section broadcast.
Implicit Types (a b : table).

Lemma length_kept_levels levels : length (kept_levels levels).1 = length levels.
Proof.
  induction levels as [|x levels IH]; [done|]. simpl.
  destruct (kept_levels levels) as [kept seen]. simpl in IH.
  destruct (existsb (level_eq x) seen); simpl; by rewrite IH.
Qed.

Lemma length_select_fmap {A} kept (ls : list (list A)) :
  length (select kept <$> ls) = length ls.
Proof. apply length_fmap. Qed.

Lemma select_all {A} kept (l : list A) :
  forallb id kept = true -> length l <= length kept -> select kept l = l.
Proof.
  revert l. induction kept as [|k kept IH]; intros [|x l]; simpl; try done; try lia.
  intros [Hk Hkept]%andb_true_iff Hlen. unfold id in Hk. subst k.
  f_equal. apply IH; [done|lia].
Qed.

(** The column index of [a.vbt & b.vbt] has a label for each column. *)
Lemma length_broadcast_columns a b :
  width a = width b -> length (broadcast_columns a b).2 = width a.
Proof.
  intros Hw. unfold broadcast_columns, stack_indexes, labels.
  destruct (index_equals a b); simpl.
  - by rewrite length_fmap.
  - rewrite length_fmap, length_zip_with, !length_fmap. unfold width in Hw. unfold width. lia.
Qed.

(** [&] returns on two frames of the same rows and the same width. *)
Lemma vbt_and_ok a b :
  index a = index b -> width a = width b ->
  exists t, vbt_and a b = Ok t /\
    index t = index a /\
    (names t, labels t) = broadcast_columns a b /\
    (cols t).*2 = zip_with (zip_with andb) (cols a).*2 (cols b).*2.
Proof.
  intros Hidx Hw. unfold vbt_and.
  rewrite !bool_decide_true by done. simpl.
  pose proof (length_broadcast_columns a b Hw) as Hlen.
  destruct (broadcast_columns a b) as [ns ls]. simpl in Hlen.
  assert (length ls = length (zip_with (zip_with andb) (cols a).*2 (cols b).*2)) as Hz.
  { rewrite length_zip_with, !length_fmap. unfold width in *. lia. }
  eexists. split; [reflexivity|]. unfold labels. simpl.
  by rewrite zip_fst, zip_snd.
Qed.

(** When no level repeats another and the two column indexes differ, the
    result is the one with every level. *)
Lemma broadcast_stacked a b :
  stacks a b = true -> levels_ok a -> levels_ok b ->
  broadcast_columns a b = (names a ++ names b, zip_with app (labels a) (labels b)).
Proof.
  intros [Hne Hkept]%andb_true_iff Ha Hb. unfold broadcast_columns, stack_indexes.
  apply negb_true_iff in Hne. rewrite Hne.
  set (kept := (kept_levels _).1) in *.
  assert (length kept = length (names a ++ names b)) as Hlen.
  { subst kept. rewrite length_kept_levels. unfold levels_of. by rewrite length_imap. }
  f_equal.
  - apply select_all; [done|lia].
  - rewrite <-(list_fmap_id (zip_with app (labels a) (labels b))) at 2.
    apply Forall_fmap_ext_1, Forall_forall. intros l Hl.
    apply elem_of_zip_with in Hl as (x & y & -> & Hx & Hy).
    unfold levels_ok in Ha, Hb. rewrite Forall_forall in Ha, Hb.
    apply select_all; [done|].
    pose proof (Ha x Hx). pose proof (Hb y Hy). rewrite Hlen. simpl. rewrite !length_app. lia.
Qed.

End broadcast.
Section compose_one.
Import Strategy.
Implicit Types (entries exits : table) (fig_data : bundle)
  (f : string * (table * option bundle)).

Lemma width_data (t : table) : length (cols t).*2 = width t.
Proof. apply length_fmap. Qed.

Lemma width_tiled entries f : width (tiled entries f) = width entries * width f.2.1.
Proof. unfold tiled, vbt_tile, width. simpl. apply length_tile. Qed.

Lemma width_repeated entries f : width (repeated entries f) = width entries * width f.2.1.
Proof. unfold repeated, vbt_repeat, width. simpl. apply length_repeat. Qed.

Lemma same_labels_width (a b : table) : labels a = labels b -> width a = width b.
Proof.
  unfold labels, width. intros H.
  by rewrite <-(length_fmap fst (cols a)), <-(length_fmap fst (cols b)), H.
Qed.

Lemma table_eta (t : table) : t = Table (index t) (names t) (zip (labels t) (cols t).*2).
Proof. destruct t as [i n c]. unfold labels. simpl. by rewrite zip_fst_snd. Qed.

(** One round of the loop, when the row indexes agree and [entries] and
    [exits] have the same number of columns: the data of the columns, and
    the column index that [&] gave. *)
Lemma add_filter_run entries exits fig_data f :
  index f.2.1 = index entries ->
  width exits = width entries ->
  exists entries1 exits1,
    add_filter (entries, exits, fig_data) f
      = Ok (entries1, exits1, merge_figures f.1 f.2.2 fig_data) /\
    index entries1 = index entries /\ index exits1 = index exits /\
    (names entries1, labels entries1)
      = broadcast_columns (tiled entries f) (repeated entries f) /\
    (cols entries1).*2 = cross (zip_with andb) (cols f.2.1).*2 (cols entries).*2 /\
    (cols exits1).*2 = (cols exits).*2 ≫= replicate (width f.2.1) /\
    names exits1 = names entries1 /\ labels exits1 = labels entries1.
Proof.
  destruct f as [fname [filter_df filter_figures]]. cbn [fst snd]. intros Hidx Hw.
  unfold add_filter. cbv zeta.
  change (width (set_names _ filter_df)) with (width filter_df).
  change (vbt_tile (width entries) (set_names _ filter_df))
    with (tiled entries (fname, (filter_df, filter_figures))).
  change (vbt_repeat (width filter_df) entries)
    with (repeated entries (fname, (filter_df, filter_figures))).
  set (f := (fname, (filter_df, filter_figures))).
  destruct (vbt_and_ok (tiled entries f) (repeated entries f))
    as (e1 & Hand & Hi1 & Hl1 & Hd1); [done|by rewrite width_tiled, width_repeated|].
  rewrite Hand. cbn [mbind result_bind].
  assert ((cols e1).*2 = cross (zip_with andb) (cols filter_df).*2 (cols entries).*2) as Hdata.
  { rewrite Hd1. unfold cross, tiled, repeated, vbt_tile, vbt_repeat. cbn [cols set_names].
    rewrite fmap_tile, fmap_repeat, !length_fmap. done. }
  assert (length (cols e1) = length (cols exits ≫= replicate (width filter_df))) as Hlen.
  { rewrite <-(length_fmap snd (cols e1)), Hdata, length_cross, length_repeat, !length_fmap.
    unfold width in *. lia. }
  unfold set_columns.
  rewrite bool_decide_true by (unfold width, vbt_repeat; simpl; by rewrite Hlen). simpl.
  eexists _, _. split; [reflexivity|]. unfold labels. simpl.
  split_and!; try done.
  - by rewrite Hi1, <-Hidx.
  - rewrite relabel_data by done. apply fmap_repeat.
  - by apply relabel_labels.
Qed.

(** The same round when [&] stacks the two column indexes. *)
Lemma add_filter_stacked entries exits fig_data f :
  index f.2.1 = index entries ->
  width exits = width entries ->
  levels_ok entries -> levels_ok f.2.1 ->
  stacks (tiled entries f) (repeated entries f) = true ->
  exists exits1,
    add_filter (entries, exits, fig_data) f
      = Ok (stacked (tiled entries f) (repeated entries f), exits1,
            merge_figures f.1 f.2.2 fig_data) /\
    width exits1 = width (stacked (tiled entries f) (repeated entries f)) /\
    names exits1 = names (stacked (tiled entries f) (repeated entries f)) /\
    labels exits1 = labels (stacked (tiled entries f) (repeated entries f)).
Proof.
  intros Hidx Hw He Hf Hst.
  destruct (add_filter_run entries exits fig_data f Hidx Hw)
    as (e1 & x1 & Hrun & Hi1 & _ & Hl1 & Hd1 & Hdx & Hxn & Hxl).
  rewrite broadcast_stacked in Hl1; [|done|..].
  - injection Hl1 as Hn1 Hl1.
    assert (e1 = stacked (tiled entries f) (repeated entries f)) as <-.
    { rewrite (table_eta e1), Hn1, Hl1. unfold stacked. f_equal.
      - rewrite Hi1. unfold tiled. simpl. done.
      - f_equal. rewrite Hd1. unfold cross, tiled, repeated, vbt_tile, vbt_repeat.
        cbn [cols set_names]. by rewrite fmap_tile, fmap_repeat, !length_fmap. }
    exists x1. split_and!; try done. by apply same_labels_width.
  - unfold levels_ok, tiled, vbt_tile, labels in *. cbn [cols names set_names].
    rewrite fmap_tile. apply Forall_forall. intros l Hl%elem_of_tile.
    rewrite Forall_forall in Hf. rewrite (Hf l Hl). unfold filter_names.
    by rewrite length_fmap.
  - unfold levels_ok, repeated, vbt_repeat, labels in *. cbn [cols names].
    rewrite fmap_repeat. apply Forall_forall. intros l Hl%elem_of_repeat.
    rewrite Forall_forall in He. by apply He.
Qed.

Local Abbreviation and_cols :=
  (fun ca cb : list value * column => (ca.1 ++ cb.1, zip_with andb ca.2 cb.2)).

(** The stacked table of a round: the levels of the filter over those of
    [entries], and one column per pair. *)
Lemma stacked_round entries f :
  index (stacked (tiled entries f) (repeated entries f)) = index f.2.1 /\
  names (stacked (tiled entries f) (repeated entries f)) = filter_names f ++ names entries /\
  cols (stacked (tiled entries f) (repeated entries f))
    = cross and_cols (cols f.2.1) (cols entries).
Proof.
  split_and!; try done.
  unfold stacked, tiled, repeated, vbt_tile, vbt_repeat, labels, cross. cbn [cols set_names].
  apply (zip_zip_with app (zip_with andb)).
Qed.

End compose_one.
Section compose_theorems.
Import Strategy.
Implicit Types (entries exits filter_df : table) (fig_data : bundle).

(** C3. Composing an entries/exits pair of [p] columns with a filter table
    of [q] columns on the same row index returns [p * q] columns, the pair
    (strategy column [i], filter column [j]) at position [i * q + j]: the
    data of the entries column is the elementwise AND of the two, the data
    of the exits column is that of the strategy's exits column, unchanged.
    Every position is that of one pair. *)
Theorem add_filters_cross_product entries exits fig_data fname filter_df filter_figures :
  index filter_df = index entries ->
  width exits = width entries ->
  exists entries' exits' fig_data',
    _add_filters entries exits fig_data [(fname, (filter_df, filter_figures))]
      = Ok (entries', exits', fig_data') /\
    width entries' = width entries * width filter_df /\
    width exits' = width entries * width filter_df /\
    (forall i j ce cx cf,
       (cols entries).*2 !! i = Some ce ->
       (cols exits).*2 !! i = Some cx ->
       (cols filter_df).*2 !! j = Some cf ->
       (cols entries').*2 !! (i * width filter_df + j) = Some (zip_with andb cf ce) /\
       (cols exits').*2 !! (i * width filter_df + j) = Some cx) /\
    (forall k, k < width entries * width filter_df ->
       exists i j, i < width entries /\ j < width filter_df /\ k = i * width filter_df + j).
Proof.
  intros Hidx Hw. unfold _add_filters.
  change (for_each add_filter [?x] ?s) with (s' ← add_filter s x; Ok s').
  destruct (add_filter_run entries exits fig_data (fname, (filter_df, filter_figures)))
    as (e1 & x1 & -> & _ & _ & _ & Hd1 & Hdx & _); [done..|].
  cbn [fst snd] in *. eexists e1, x1, _. split; [reflexivity|].
  split_and!.
  - rewrite <-(width_data e1), Hd1, length_cross, !length_fmap. done.
  - rewrite <-(width_data x1), Hdx, length_repeat, !length_fmap. unfold width in *. lia.
  - intros i j ce cx cf He Hx Hf. rewrite Hd1, Hdx. split.
    + rewrite <-(width_data filter_df). by apply lookup_cross_pair.
    + apply lookup_repeat; [done|]. rewrite <-(width_data filter_df). by eapply lookup_lt_Some.
  - intros k Hk.
    assert (0 < width filter_df) by (destruct (width filter_df); lia).
    exists (k `div` width filter_df), (k `mod` width filter_df).
    split_and!.
    + apply Nat.Div0.div_lt_upper_bound; lia.
    + apply Nat.mod_upper_bound; lia.
    + rewrite (Nat.div_mod_eq k (width filter_df)) at 1. lia.
Qed.

End compose_theorems.

Section compose_witness.
Import Strategy Examples.

Lemma add_filters_cross_product_witness :
  exists entries' exits' fig_data',
    _add_filters strat_entries strat_exits ∅ [("mmi", (mmi_signals, None))]
      = Ok (entries', exits', fig_data') /\
    width entries' = 6 /\ width exits' = 6 /\
    (cols entries').*2 !! 3 = Some [true; false; false] /\
    (cols exits').*2 !! 3 = Some [false; true; false].
Proof.
  destruct (add_filters_cross_product strat_entries strat_exits ∅ "mmi" mmi_signals None
              eq_refl eq_refl) as (e & x & f & Hrun & He & Hx & Hcols & _).
  exists e, x, f.
  destruct (Hcols 1 1 [true; false; false] [false; true; false]
              [true; true; false] eq_refl eq_refl eq_refl) as [H1 H2].
  repeat split; assumption.
Defined.

End compose_witness.

Section compose_labels.
Import Strategy.
Implicit Types (entries exits : table) (fig_data : bundle)
  (filters : list (string * (table * option bundle))).

Local Abbreviation and_cols :=
  (fun ca cb : list value * column => (ca.1 ++ cb.1, zip_with andb ca.2 cb.2)).

Lemma cross_cols_elem (fcols ecols : list (list value * column)) c :
  c ∈ cross and_cols fcols ecols ->
  exists cf ce, cf ∈ fcols /\ ce ∈ ecols /\ c = and_cols cf ce.
Proof.
  intros [k Hk]%list_elem_of_lookup.
  apply lookup_cross_inv in Hk as (i & j & a & b & _ & Ha & Hb & ->).
  exists a, b. split_and!; [| |done]; by eapply list_elem_of_lookup_2.
Qed.

Lemma cross_labels_NoDup (fcols ecols : list (list value * column)) n :
  Forall (fun l => length l = n) fcols.*1 ->
  NoDup fcols.*1 -> NoDup ecols.*1 ->
  NoDup (cross and_cols fcols ecols).*1.
Proof.
  intros Hn Hf He. apply NoDup_alt. intros k1 k2 l H1 H2.
  rewrite list_lookup_fmap in H1, H2.
  destruct (cross _ _ _ !! k1) as [c1|] eqn:E1; [|done].
  destruct (cross _ _ _ !! k2) as [c2|] eqn:E2; [|done].
  simpl in H1, H2.
  apply lookup_cross_inv in E1 as (i1 & j1 & a1 & b1 & -> & Ha1 & Hb1 & ->).
  apply lookup_cross_inv in E2 as (i2 & j2 & a2 & b2 & -> & Ha2 & Hb2 & ->).
  simpl in H1, H2. injection H1 as H1. injection H2 as H2. rewrite <-H1 in H2. clear H1.
  assert (fcols.*1 !! j1 = Some a1.1) as Hj1 by (by rewrite list_lookup_fmap, Ha1).
  assert (fcols.*1 !! j2 = Some a2.1) as Hj2 by (by rewrite list_lookup_fmap, Ha2).
  assert (ecols.*1 !! i1 = Some b1.1) as Hi1 by (by rewrite list_lookup_fmap, Hb1).
  assert (ecols.*1 !! i2 = Some b2.1) as Hi2 by (by rewrite list_lookup_fmap, Hb2).
  assert (length a1.1 = length a2.1) as Hlen.
  { rewrite Forall_lookup in Hn. rewrite (Hn _ _ Hj1), (Hn _ _ Hj2). done. }
  apply app_inj_1 in H2 as [Ha Hb]; [|done].
  rewrite <-Ha in Hj1. rewrite <-Hb in Hi1.
  rewrite (NoDup_lookup _ _ _ _ Hf Hj1 Hj2), (NoDup_lookup _ _ _ _ He Hi1 Hi2). done.
Qed.

Lemma stacked_levels_ok entries f :
  levels_ok entries -> levels_ok f.2.1 ->
  levels_ok (stacked (tiled entries f) (repeated entries f)).
Proof.
  intros He Hf. destruct (stacked_round entries f) as (_ & Hn & Hc).
  unfold levels_ok, labels in *. rewrite Hn, Hc. apply Forall_forall.
  intros l (c & -> & Hc')%list_elem_of_fmap.
  apply cross_cols_elem in Hc' as (cf & ce & Hcf & Hce & ->). cbn [fst].
  rewrite Forall_forall in He, Hf.
  rewrite !length_app, (He ce.1), (Hf cf.1).
  - unfold filter_names. by rewrite length_fmap.
  - apply list_elem_of_fmap. by exists cf.
  - apply list_elem_of_fmap. by exists ce.
Qed.

(** C4, as the code has it. After the composition with any list of filters
    on the row index of the strategy, each label with one value per level,
    when vectorbt stacks the two column indexes at every round (they are not
    equal, and no level repeats another in name and values): the level names
    of the output are the names of every filter, each behind its filter's
    name ([mmi] and [timeperiod] give [mmi_timeperiod]), over the names of
    the strategy; every output column is one column of each filter and one of
    the strategy, its label their labels concatenated in the same order, over
    the AND of their data; the exits carry the same labels; and when every
    input has pairwise distinct labels, so has the output, whatever the level
    names are. *)
Theorem add_filters_labels filters entries exits fig_data :
  Forall (fun f => index f.2.1 = index entries) filters ->
  width exits = width entries ->
  levels_ok entries ->
  Forall (fun f => levels_ok f.2.1) filters ->
  stacking entries filters = true ->
  exists entries' exits' fig_data',
    _add_filters entries exits fig_data filters = Ok (entries', exits', fig_data') /\
    names entries' = mjoin (reverse (filter_names <$> filters)) ++ names entries /\
    (forall l c, (l, c) ∈ cols entries' ->
       exists cfs le ce,
         Forall2 (fun f cf => cf ∈ cols f.2.1) filters cfs /\
         (le, ce) ∈ cols entries /\
         l = mjoin (reverse cfs.*1) ++ le /\
         c = and_all ce cfs.*2) /\
    (filters <> [] -> names exits' = names entries' /\ labels exits' = labels entries') /\
    (Forall (fun f => NoDup (labels f.2.1)) filters ->
     NoDup (labels entries) -> NoDup (labels entries')).
Proof.
  unfold _add_filters. revert entries exits fig_data.
  induction filters as [|f filters IH]; intros entries exits fig_data Hidx Hw Hlv Hlvs Hst.
  - exists entries, exits, fig_data. simpl. split_and!; try done.
    intros l c Hl. exists [], l, c. split_and!; [constructor|done|done|done].
  - apply Forall_cons in Hidx as [Hf Hidx]. apply Forall_cons in Hlvs as [Hlf Hlvs].
    cbn [stacking] in Hst. apply andb_true_iff in Hst as [Hst1 Hst].
    destruct (add_filter_stacked entries exits fig_data f Hf Hw Hlv Hlf Hst1)
      as (x1 & Hstep & Hw1 & Hxn & Hxl).
    destruct (stacked_round entries f) as (Hi1 & Hn1 & Hc1).
    set (e1 := stacked (tiled entries f) (repeated entries f)) in *.
    destruct (IH e1 x1 (merge_figures f.1 f.2.2 fig_data)) as
      (e' & x' & fd' & Hrun & Hn & Hl & Hx & Hnd);
      [by rewrite Hi1, Hf|done|by apply stacked_levels_ok|done|done|].
    exists e', x', fd'. split_and!.
    + change (for_each add_filter (f :: filters) ?s)
        with (s' ← add_filter s f; for_each add_filter filters s').
      rewrite Hstep. exact Hrun.
    + rewrite Hn, Hn1. rewrite fmap_cons, reverse_cons, join_app. simpl.
      by rewrite app_nil_r, <-app_assoc.
    + intros l c Hin. destruct (Hl l c Hin) as (cfs & le1 & ce1 & Hcfs & Hin1 & -> & ->).
      rewrite Hc1 in Hin1.
      apply cross_cols_elem in Hin1 as (cf & [le ce] & Hcf & Hce & Heq).
      injection Heq as -> ->.
      exists (cf :: cfs), le, ce. split_and!; [by constructor|done| |done].
      rewrite fmap_cons, reverse_cons, join_app. simpl. by rewrite app_nil_r, <-app_assoc.
    + intros _. destruct filters as [|g filters'].
      * simpl in Hrun. by simplify_eq.
      * by apply Hx.
    + intros [Hndf Hrest]%Forall_cons Hnde. apply Hnd; [done|].
      unfold labels. rewrite Hc1. by eapply cross_labels_NoDup.
Qed.

End compose_labels.

Section compose_labels_examples.
Import Strategy Examples.

(** The filter [a_b] with the parameter [c] contributes the level
    [a_b_c]; the strategy has a level of that name with the same values, so
    vectorbt keeps one of the two: the output has the two levels of the
    strategy, and its label holds no value of the filter. *)
Lemma add_filters_drops_level :
  filter_names ("a_b", (ab_signals, None)) = ["a_b_c"] /\
  labels ab_signals = [[VInt 20]] /\
  names abc_entries = ["a_b_c"; "n"] /\
  labels abc_entries = [[VInt 20; VInt 10]] /\
  exists entries' exits' fig_data',
    _add_filters abc_entries abc_exits ∅ [("a_b", (ab_signals, None))]
      = Ok (entries', exits', fig_data') /\
    names entries' = ["a_b_c"; "n"] /\
    labels entries' = [[VInt 20; VInt 10]].
Proof. split_and!; try reflexivity. eexists _, _, _. split_and!; reflexivity. Qed.

Lemma add_filters_labels_witness :
  exists entries' exits' fig_data',
    _add_filters strat_entries strat_exits ∅
      [("mmi", (mmi_signals, None)); ("vol", (vol_signals, None))]
      = Ok (entries', exits', fig_data') /\
    names entries' = ["vol_timeperiod"; "mmi_timeperiod"; "n"] /\
    NoDup (labels entries').
Proof.
  destruct (add_filters_labels
              [("mmi", (mmi_signals, None)); ("vol", (vol_signals, None))]
              strat_entries strat_exits ∅) as (e & x & f & Hrun & Hn & _ & _ & Hnd).
  - repeat constructor.
  - reflexivity.
  - repeat constructor.
  - repeat constructor.
  - vm_compute. reflexivity.
  - exists e, x, f. split; [exact Hrun|]. split; [exact Hn|].
    apply Hnd.
    + repeat constructor; by apply (bool_decide_unpack _).
    + by apply (bool_decide_unpack _).
Defined.

End compose_labels_examples.

(** * Properties of the merge of diagnostic bundles *)

Section merge_figures_facts.
Import Strategy.
Implicit Types (fig_data ff : bundle) (figs : gmap string artifact) (cat fname : string).

#[global] Instance prefixed_inj fname : Inj (=) (=) (prefixed fname).
Proof.
  intros n1 n2 H. unfold prefixed in H.
  apply (inj (String.app fname)) in H. by apply (inj (String.app "_")) in H.
Qed.

(** The loop over the artifacts of one category: each is inserted behind
    the filter's name, over what the category held. *)
Lemma merge_loop cat fname figs fig_data d0 :
  fig_data !! cat = Some d0 ->
  map_fold (fun name fig fd => setitem2 cat (prefixed fname name) fig fd) fig_data figs
  = <[cat := kmap (prefixed fname) figs ∪ d0]> fig_data.
Proof.
  intros Hd0.
  apply (map_fold_weak_ind (fun r m => r = <[cat := kmap (prefixed fname) m ∪ d0]> fig_data)).
  - rewrite kmap_empty, (left_id_L ∅ (∪)). by rewrite insert_id.
  - intros name fig m r Hname ->. unfold setitem2.
    rewrite alter_insert_eq, kmap_insert, insert_union_l; [done|apply _].
Qed.

Lemma merge_category_eq cat fname ff fig_data :
  merge_category cat fname ff fig_data =
    match ff !! cat with
    | Some figs => <[cat := kmap (prefixed fname) figs ∪ default ∅ (fig_data !! cat)]> fig_data
    | None => fig_data
    end.
Proof.
  unfold merge_category. destruct (ff !! cat) as [figs|]; [|done].
  destruct (fig_data !! cat) as [d0|] eqn:Hcat; simpl.
  - by apply merge_loop.
  - rewrite (merge_loop _ _ _ _ ∅) by apply lookup_insert_eq.
    by rewrite insert_insert_eq.
Qed.

Lemma merge_category_lookup cat fname ff fig_data :
  merge_category cat fname ff fig_data !! cat =
    match ff !! cat with
    | Some figs => Some (kmap (prefixed fname) figs ∪ default ∅ (fig_data !! cat))
    | None => fig_data !! cat
    end.
Proof.
  rewrite merge_category_eq. destruct (ff !! cat); [|done]. by rewrite lookup_insert_eq.
Qed.

Lemma merge_category_lookup_ne cat cat' fname ff fig_data :
  cat <> cat' -> merge_category cat fname ff fig_data !! cat' = fig_data !! cat'.
Proof.
  intros Hne. rewrite merge_category_eq. destruct (ff !! cat); [|done].
  by rewrite lookup_insert_ne.
Qed.

(** The bundle one filter leaves behind. *)
Lemma merge_figures_lookup fname ff fig_data cat :
  merge_figures fname (Some ff) fig_data !! cat =
    if bool_decide (cat = "figures" \/ cat = "overlaps") then
      match ff !! cat with
      | Some figs => Some (kmap (prefixed fname) figs ∪ default ∅ (fig_data !! cat))
      | None => fig_data !! cat
      end
    else fig_data !! cat.
Proof.
  unfold merge_figures. case_bool_decide as Hcat.
  - destruct Hcat as [-> | ->].
    + rewrite merge_category_lookup_ne by done. apply merge_category_lookup.
    + rewrite merge_category_lookup. by rewrite merge_category_lookup_ne by done.
  - rewrite !merge_category_lookup_ne; [done| |]; intros <-; tauto.
Qed.

End merge_figures_facts.

Section merge_theorems.
Import Strategy.
Implicit Types (entries exits : table) (fig_data : bundle)
  (filters : list (string * (table * option bundle))).

(** C5 (as the code has it). Whenever the tables compose (the filters are
    on the row index of the strategy), the call returns, and its bundle is
    the strategy's bundle after the merge of each filter in turn. A filter
    without a bundle changes nothing. Of a filter's bundle only the
    categories [figures] and [overlaps] are merged: every artifact of the
    category is stored behind the filter's name in the category of the same
    name of the output, over what that category held, so an artifact already
    stored under the same prefixed key is replaced; every other category of
    the output is left as it was. No error comes from the bundles. *)
Theorem add_filters_bundle filters entries exits fig_data :
  Forall (fun f => index f.2.1 = index entries) filters ->
  width exits = width entries ->
  (exists entries' exits',
     _add_filters entries exits fig_data filters =
       Ok (entries', exits',
           foldl (fun fd f => merge_figures f.1 f.2.2 fd) fig_data filters)) /\
  (forall fname fd, merge_figures fname None fd = fd) /\
  (forall fname (ff fd : bundle) cat,
     merge_figures fname (Some ff) fd !! cat =
       if bool_decide (cat = "figures" \/ cat = "overlaps") then
         match ff !! cat with
         | Some figs => Some (kmap (prefixed fname) figs ∪ default ∅ (fd !! cat))
         | None => fd !! cat
         end
       else fd !! cat) /\
  (forall fname (figs d : gmap string artifact) name,
     (kmap (prefixed fname) figs ∪ d) !! prefixed fname name =
       match figs !! name with Some fig => Some fig | None => d !! prefixed fname name end).
Proof.
  intros Hidx Hw. split_and!.
  - unfold _add_filters. revert entries exits fig_data Hidx Hw.
    induction filters as [|f filters IH]; intros entries exits fig_data Hidx Hw.
    + by exists entries, exits.
    + apply Forall_cons in Hidx as [Hf Hidx].
      destruct (add_filter_run entries exits fig_data f Hf Hw)
        as (e1 & x1 & Hstep & Hi1 & _ & _ & _ & _ & _ & Hxl).
      destruct (IH e1 x1 (merge_figures f.1 f.2.2 fig_data)) as (e' & x' & Hrun);
        [by rewrite Hi1|by apply same_labels_width|].
      exists e', x'.
      change (for_each add_filter (f :: filters) ?s)
        with (s' ← add_filter s f; for_each add_filter filters s').
      rewrite Hstep. exact Hrun.
  - done.
  - intros. apply merge_figures_lookup.
  - intros fname figs d name. rewrite lookup_union, lookup_kmap by apply _.
    destruct (figs !! name); [|by rewrite (left_id_L None _)].
    by destruct (d !! prefixed fname name).
Qed.

End merge_theorems.

Section merge_examples.
Import Strategy Examples.

(** With the filters [a] (artifact [b_c]) and [a_b] (artifact [c]) the call
    returns: the category [figures] of the output holds the one key [a_b_c]
    with the artifact of the second filter, that of the first is gone, and
    the category [notes] of the first filter is not in the output. *)
Lemma add_filters_bundle_overwrites :
  exists entries' exits' fig_data',
    _add_filters strat_entries strat_exits ∅ colliding_filters
      = Ok (entries', exits', fig_data') /\
    fig_data' !! "figures" = Some {[ "a_b_c" := [2]%Z ]} /\
    fig_data' !! "notes" = None.
Proof. vm_compute. eexists _, _, _. split_and!; reflexivity. Qed.

Lemma add_filters_bundle_witness :
  exists entries' exits',
    _add_filters strat_entries strat_exits ∅ colliding_filters =
      Ok (entries', exits',
          foldl (fun fd f => merge_figures f.1 f.2.2 fd) ∅ colliding_filters).
Proof.
  refine (proj1 (add_filters_bundle colliding_filters strat_entries strat_exits ∅ _ _)).
  - repeat constructor.
  - reflexivity.
Defined.

End merge_examples.

(** * Properties of the back-test entry point *)

Section prog_facts.
Context {S : Type}.

Lemma bind_ok {A B} (m : prog S A) (f : A -> prog S B) s a s' :
  m s = (Ok a, s') -> (m ≫= f) s = f a s'.
Proof. intros H. unfold mbind, prog_bind. by rewrite H. Qed.

Lemma bind_raise {A B} (m : prog S A) (f : A -> prog S B) s e s' :
  m s = (Raise e, s') -> (m ≫= f) s = (Raise e, s').
Proof. intros H. unfold mbind, prog_bind. by rewrite H. Qed.

Lemma keeps_ret {A} (P : S -> Prop) (a : A) : keeps P (mret a).
Proof. by intros s. Qed.

Lemma keeps_lift {A} (P : S -> Prop) (r : result A) : keeps P (lift r).
Proof. by intros s. Qed.

Lemma keeps_bind {A B} (P : S -> Prop) (m : prog S A) (f : A -> prog S B) :
  keeps P m -> (forall a, keeps P (f a)) -> keeps P (m ≫= f).
Proof.
  intros Hm Hf s Hs. unfold mbind, prog_bind.
  specialize (Hm s Hs). destruct (m s) as [[a|e] s']; simpl in *; [by apply Hf|done].
Qed.

End prog_facts.

Section backtest_theorems.
Import Strategy.

Context {bar prices portfolio kwargs objective : Type}.
Context (default_parameters : assignment).
Context (enumerate_variables : option spec -> list assignment).
Context (enumerate_signal : list bar -> list assignment -> prog instance (table * table * bundle)).
Context (stop_early : list bar -> table -> table -> spec -> result (table * table)).
Context (close : list bar -> result prices).
Context (from_signals : prices -> squeezed -> squeezed -> kwargs -> result portfolio).
Context (plot_strategy :
  list bar -> squeezed -> squeezed -> portfolio -> bundle -> option string -> result unit).
Context (plot_combination : portfolio -> Z -> objective -> result unit).

Local Abbreviation compute_signals' :=
  (compute_signals default_parameters enumerate_variables enumerate_signal stop_early).
Local Abbreviation backtest' :=
  (backtest default_parameters enumerate_variables enumerate_signal stop_early
     close from_signals plot_strategy plot_combination).

Implicit Types (ohlcv : list bar) (variables : nat) (w : world) (side : string)
  (filters : list (string * (list bar -> result (table * option bundle)))).

(** C10. With [signals=True] the call is the computation of the signals and
    nothing else: it returns the entries, the exits and the diagnostics when
    that computation returns, it fails with the exception of that
    computation otherwise, and [side] has no part in it, so that any two
    values of [side] give the same result and the same state. *)
Theorem backtest_signals_ignore_side ohlcv variables filters lookback plot side
    cscv_nbins cscv_objective html args w :
  backtest' ohlcv variables filters lookback plot true side cscv_nbins cscv_objective html args w
    = match compute_signals' ohlcv variables filters lookback w with
      | (Ok (entries, exits, fig_data), w') => (Ok (Signals entries exits fig_data), w')
      | (Raise e, w') => (Raise e, w')
      end
  /\ forall side',
       backtest' ohlcv variables filters lookback plot true side
         cscv_nbins cscv_objective html args w
       = backtest' ohlcv variables filters lookback plot true side'
           cscv_nbins cscv_objective html args w.
Proof.
  split; [|intros side']; unfold backtest, mbind, prog_bind;
    destruct (compute_signals _ _ _ _ _ _ _ _ w) as [[[[entries exits] fig_data]|e] w']; done.
Qed.

(** C6 (as the code has it). The side is examined after the signals are
    computed. When that computation returns, a call with [signals=False]
    fails with [Exception('Shorting is not support yet')] for the side
    ['short'], fails with [Exception("side should be 'long' or 'short'")]
    for every side other than ['long'] and ['short'], and for the side
    ['long'] takes the closing prices, fills the entries and the exits, and
    runs the simulator and the plots, with their result and neither of the
    two exceptions. When that computation raises, the call raises the same
    exception, whatever the side. *)
Theorem backtest_side_validation ohlcv variables filters lookback plot
    cscv_nbins cscv_objective html args w :
  (forall entries exits fig_data w',
     compute_signals' ohlcv variables filters lookback w
       = (Ok (entries, exits, fig_data), w') ->
     backtest' ohlcv variables filters lookback plot false "short"
         cscv_nbins cscv_objective html args w
       = (Raise (PyErr "Exception" "Shorting is not support yet"), w') /\
     (forall side, side <> "long" -> side <> "short" ->
        backtest' ohlcv variables filters lookback plot false side
          cscv_nbins cscv_objective html args w
        = (Raise (PyErr "Exception" "side should be 'long' or 'short'"), w')) /\
     backtest' ohlcv variables filters lookback plot false "long"
         cscv_nbins cscv_objective html args w
       = (c ← close (ohlcv_lookback ohlcv lookback);
          filled_entries ← fillna entries;
          filled_exits ← fillna exits;
          p ← from_signals c filled_entries filled_exits args;
          _ ← report plot_strategy plot_combination (ohlcv_lookback ohlcv lookback)
                entries exits p fig_data plot cscv_nbins cscv_objective html;
          Ok (Portfolio p), w')) /\
  (forall e w',
     compute_signals' ohlcv variables filters lookback w = (Raise e, w') ->
     forall side,
       backtest' ohlcv variables filters lookback plot false side
         cscv_nbins cscv_objective html args w
       = (Raise e, w')).
Proof.
  split.
  - intros entries exits fig_data w' Hsig. split_and!.
    + unfold backtest. rewrite (bind_ok _ _ _ _ _ Hsig). done.
    + intros side Hlong Hshort. unfold backtest. rewrite (bind_ok _ _ _ _ _ Hsig).
      cbn beta iota zeta. unfold simulate.
      rewrite !bool_decide_false by done. done.
    + unfold backtest. rewrite (bind_ok _ _ _ _ _ Hsig).
      cbn beta iota zeta. unfold simulate. rewrite bool_decide_true by done.
      unfold mbind at 1 2, prog_bind, lift.
      destruct (close _) as [c|e]; [|done]. cbn [mbind result_bind].
      destruct (fillna entries) as [fe|e]; [|done]. cbn [mbind result_bind].
      destruct (fillna exits) as [fx|e]; [|done]. cbn [mbind result_bind].
      destruct (from_signals _ _ _ _) as [p|e]; [|done]. simpl.
      by destruct (report _ _ _ _ _ _ _ _ _ _ _).
  - intros e w' Hsig side. unfold backtest. by rewrite (bind_raise _ _ _ _ _ Hsig).
Qed.

(** The stop loop writes the copy alone. *)
Lemma split_stops_keeps es variables copy stop_vars (P : world -> Prop) :
  (forall w d, P w -> P (World (<[copy := d]> (heap w)) (self w))) ->
  keeps P (split_stops es variables copy stop_vars).
Proof.
  intros Hcopy. revert stop_vars.
  induction es as [|e es IH]; intros stop_vars; [apply keeps_ret|].
  simpl. apply keeps_bind; [by intros w|]. intros [|]; [|apply IH].
  apply keeps_bind; [by intros w|]. intros v.
  apply keeps_bind; [|intros _; apply IH].
  intros w Hw. unfold pop. destruct (dict_mem e _); [|done]. by apply Hcopy.
Qed.

Lemma on_self_heap {A} (p : prog instance A) w : heap (on_self p w).2 = heap w.
Proof. unfold on_self. by destruct (p (self w)). Qed.

Lemma on_self_keeps {A} (p : prog instance A) (P : world -> Prop) :
  (forall w i, P w -> P (World (heap w) i)) -> keeps P (on_self p).
Proof.
  intros HP w Hw. unfold on_self. destruct (p (self w)) as [r i]. by apply HP.
Qed.

Lemma backtest_state ohlcv variables filters lookback plot signals side
    cscv_nbins cscv_objective html args w :
  (backtest' ohlcv variables filters lookback plot signals side
     cscv_nbins cscv_objective html args w).2
  = (compute_signals' ohlcv variables filters lookback w).2.
Proof.
  unfold backtest, mbind at 1, prog_bind at 1.
  destruct (compute_signals _ _ _ _ _ _ _ _ w) as [[[[entries exits] fig_data]|e] w']; [|done].
  destruct signals; [done|]. unfold mbind, prog_bind, lift. simpl.
  destruct (simulate _ _ _ _ _ _ _) as [p|e]; [|done].
  by destruct (report _ _ _ _ _ _ _ _ _ _ _).
Qed.

(** The copy is a new object: the stop loop leaves the caller's [dict]
    alone. *)
Lemma enumerate_keeps variables w :
  is_Some (heap w !! variables) ->
  heap (enumerate default_parameters enumerate_variables variables w).2 !! variables
  = heap w !! variables.
Proof.
  intros Hvar.
  assert (fresh (dom (heap w)) <> variables) as Hfresh.
  { intros Heq. apply elem_of_dom in Hvar. rewrite <-Heq in Hvar.
    by apply is_fresh in Hvar. }
  set (copy := fresh (dom (heap w))) in *.
  set (P := fun w' : world => heap w' !! variables = heap w !! variables).
  assert (forall w' d, P w' -> P (World (<[copy := d]> (heap w')) (self w'))) as Hcopy.
  { intros w' d Hw'. unfold P in *. simpl. by rewrite lookup_insert_ne. }
  unfold enumerate, mbind at 1, prog_bind at 1, copy_copy. fold copy.
  match goal with |- heap (?f ?w1).2 !! _ = _ => change (P (f w1).2) end.
  apply keeps_bind; [by apply split_stops_keeps| |by apply Hcopy].
  intros stop_vars. apply keeps_bind; [by intros w'|]. intros without_stop.
  apply keeps_ret.
Qed.

(** C9. Whatever the call does and however it ends, the [dict] the caller
    passed as [variables] holds after the call what it held before: the stop
    parameters are popped from the copy, which is another object. *)
Theorem backtest_keeps_variables ohlcv variables filters lookback plot signals side
    cscv_nbins cscv_objective html args w :
  is_Some (heap w !! variables) ->
  heap (backtest' ohlcv variables filters lookback plot signals side
          cscv_nbins cscv_objective html args w).2 !! variables
  = heap w !! variables.
Proof.
  intros Hvar. rewrite backtest_state.
  set (P := fun w' : world => heap w' !! variables = heap w !! variables).
  change (P (compute_signals' ohlcv variables filters lookback w).2).
  unfold compute_signals. apply keeps_bind; [|intros [stop_vars ve]|done].
  { intros w0 Hw0. unfold P in *. rewrite enumerate_keeps; [done|]. by rewrite Hw0. }
  apply keeps_bind; [apply on_self_keeps; by intros w' i|].
  intros [[entries exits] fig_data].
  apply keeps_bind.
  - destruct filters; [apply keeps_ret|].
    apply keeps_bind; [apply on_self_keeps; by intros w' i|]. intros _.
    apply keeps_bind; [apply keeps_lift|]. intros fs.
    apply keeps_bind; [apply on_self_keeps; by intros w' i|]. intros _. apply keeps_lift.
  - intros [[entries' exits'] fig_data'].
    apply keeps_bind; [apply on_self_keeps; by intros w' i|]. intros _.
    apply keeps_bind; [apply keeps_lift|]. intros [e x]. apply keeps_ret.
Qed.

End backtest_theorems.

Section backtest_examples.
Import Strategy Examples.

(** A call with [signals=False] and the side ['short'] whose filter fails
    on the price table: the failure is that of the filter. *)
Lemma backtest_short_fails_earlier :
  (run_backtest [("f", broken_filter)] false "short").1 = Raise (PyErr "KeyError" "volume").
Proof. vm_compute. reflexivity. Qed.

(** A strategy of one column on a price table of one row: [squeeze] gives
    a scalar, and the side ['long'] fails on [fillna]. *)
Example simulate_one_cell :
  exists msg,
    simulate close from_signals ohlcv (squeeze one_cell) (squeeze one_cell) "long" ()
    = Raise (PyErr "AttributeError" msg).
Proof. eexists. reflexivity. Qed.

Lemma backtest_keeps_variables_witness :
  heap (run_backtest [] false "long").2 !! 0
  = Some [("n", Sweep [VInt 10; VInt 20; VInt 30]); ("sl_stop", Fixed (VInt 1))].
Proof.
  unfold run_backtest. rewrite backtest_keeps_variables; [reflexivity|].
  by eexists.
Defined.

Lemma backtest_side_validation_witness :
  (run_backtest [] false "short").1 = Raise (PyErr "Exception" "Shorting is not support yet").
Proof.
  destruct (compute_signals [("n", VInt 10)] utility.enumerate_variables enumerate_signal
              stop_early ohlcv 0 [] None caller)
    as [[[[entries exits] fig_data]|e] w'] eqn:Hsig; [|by vm_compute in Hsig].
  destruct (proj1 (backtest_side_validation [("n", VInt 10)] utility.enumerate_variables
                     enumerate_signal stop_early close from_signals plot_strategy
                     plot_combination ohlcv 0 [] None false 10 () None () caller)
              entries exits fig_data w' Hsig) as [Hshort _].
  unfold run_backtest. rewrite Hshort. reflexivity.
Defined.

End backtest_examples.

(** * Properties of the variant runner of a filter *)

Section set_parameters_facts.
Implicit Types (cls k : string) (a : assignment) (self : instance) (m : gmap string value).

Lemma written_lookup_notin a m k : k ∉ a.*1 -> written a m !! k = m !! k.
Proof.
  revert m. induction a as [|[k' v'] a IH]; intros m Hk; [done|].
  simpl in *. apply not_elem_of_cons in Hk as [Hne Hk].
  unfold written in *. simpl. rewrite IH by done. by rewrite lookup_insert_ne.
Qed.

Lemma written_lookup_in a m k v :
  NoDup a.*1 -> (k, v) ∈ a -> written a m !! k = Some v.
Proof.
  revert m. induction a as [|[k' v'] a IH]; intros m Hnd Hin.
  - by apply elem_of_nil in Hin.
  - simpl in *. apply NoDup_cons in Hnd as [Hk' Hnd].
    apply elem_of_cons in Hin as [Heq|Hin].
    + injection Heq as -> ->.
      change (written ((k', v') :: a) m) with (written a (<[k' := v']> m)).
      rewrite written_lookup_notin by done. by rewrite lookup_insert_eq.
    + by apply IH.
Qed.

Lemma setattr_ok cls k v self self' :
  setattr cls k v self = (Ok (), self') ->
  self' = Instance (<[k := v]> (attrs self)) (_variables self).
Proof. unfold setattr. repeat case_bool_decide; by intros [= <-]. Qed.

Lemma setattrs_ok cls a self self' :
  setattrs cls a self = (Ok (), self') ->
  self' = Instance (written a (attrs self)) (_variables self).
Proof.
  revert self. induction a as [|[k v] a IH]; intros self.
  - intros [= <-]. by destruct self.
  - change (setattrs cls ((k, v) :: a)) with (_ ← setattr cls k v; setattrs cls a).
    unfold mbind, prog_bind. destruct (setattr cls k v self) as [[[]|e] self1] eqn:Hset; [|done].
    apply setattr_ok in Hset as ->. intros ->%IH. done.
Qed.

Lemma set_parameters_eq cls a :
  set_parameters cls a = (_ ← setattrs cls a; set_variables a).
Proof. by destruct a. Qed.

(** What a call of [set_parameters] that returns leaves on the instance. *)
Lemma set_parameters_ok cls a self self' :
  set_parameters cls a self = (Ok (), self') ->
  self' = Instance (delete "_variables" (written a (attrs self))) (Some a).
Proof.
  rewrite set_parameters_eq. unfold mbind, prog_bind.
  destruct (setattrs cls a self) as [[[]|e] self1] eqn:Hset; [|done].
  apply setattrs_ok in Hset as ->. by intros [= <-].
Qed.

Lemma set_parameters_lookup_in cls self self' a k v :
  set_parameters cls a self = (Ok (), self') ->
  NoDup a.*1 -> (k, v) ∈ a -> k <> "_variables" -> attrs self' !! k = Some v.
Proof.
  intros ->%set_parameters_ok Hnd Hin Hk. simpl.
  rewrite lookup_delete_ne by done. by apply written_lookup_in.
Qed.

Lemma set_parameters_lookup_notin cls self self' a k :
  set_parameters cls a self = (Ok (), self') ->
  k ∉ a.*1 -> k <> "_variables" -> attrs self' !! k = attrs self !! k.
Proof.
  intros ->%set_parameters_ok Hin Hk. simpl.
  rewrite lookup_delete_ne by done. by apply written_lookup_notin.
Qed.

(** The loop of the assignments of a sweep, each set in turn. *)
Lemma each_snoc {S A} (body : A -> prog S unit) xs x s :
  each body (xs ++ [x]) s = (_ ← each body xs; body x) s.
Proof.
  revert s. induction xs as [|y xs IH]; intros s; simpl.
  - unfold mbind, prog_bind, mret, prog_ret. by destruct (body x s) as [[[]|e] s'].
  - unfold mbind, prog_bind in *. destruct (body y s) as [[[]|e] s']; [|done]. apply IH.
Qed.

End set_parameters_facts.

(** Without a stop parameter in the copy, the stop loop changes nothing. *)
Lemma split_stops_none es variables copy stop_vars w :
  (forall e, e ∈ es -> dict_mem e (Strategy.heap w !!! copy) = false) ->
  Strategy.split_stops es variables copy stop_vars w = (Ok stop_vars, w).
Proof.
  induction es as [|e es IH]; intros Hes; [done|].
  change (Strategy.split_stops (e :: es) variables copy stop_vars)
    with (b ← Strategy.contains e copy;
          if (b : bool) then
            v ← Strategy.getitem variables e;
            _ ← Strategy.pop copy e;
            Strategy.split_stops es variables copy (dict_set e v stop_vars)
          else Strategy.split_stops es variables copy stop_vars).
  erewrite bind_ok by reflexivity.
  rewrite Hes by (apply list_elem_of_here).
  apply IH. intros e' He'. apply Hes. by apply list_elem_of_further.
Qed.

Section runner_theorems.
Import Filter.

Context {bar : Type}.
Context (func : instance -> list bar -> result results).
Context (default_parameters : assignment).
Context (enumerate_variables : option spec -> list assignment).
Context (remove_pd_object : assignment -> assignment).
Context (pd_DataFrame : list (string * pyobj) -> result frame).
Context (Index_map : list value -> list value).
Context (MultiIndex_from_tuples : list (list value) -> list string -> result (list (list value))).

Local Abbreviation variant' := (variant func remove_pd_object).
Local Abbreviation variants' := (variants func remove_pd_object).
Local Abbreviation variable_enumerate' :=
  (variable_enumerate default_parameters enumerate_variables).
Local Abbreviation ret_f' :=
  (ret_f func default_parameters enumerate_variables remove_pd_object pd_DataFrame
     Index_map MultiIndex_from_tuples).

Implicit Types (ohlcv : list bar) (self : instance) (v : assignment) (vs : list assignment)
  (st : list (string * pyobj) * pyobj).

Lemma call_ok name self u self' : call name self = (Ok u, self') -> self' = self.
Proof. unfold call. destruct (attrs self !! name); by intros [= <-]. Qed.

(** A round of the loop that returns: the parameters were set, the function
    ran on the instance that holds them and returned, and the instance is
    left as [set_parameters] left it. *)
Lemma variant_inv ohlcv st v self st' self' :
  variant' ohlcv st v self = (Ok st', self') ->
  set_parameters v self = (Ok (), self') /\
  exists results,
    func self' ohlcv = Ok results /\
    (let v := remove_pd_object v in
     match iterate results with
     | Some items =>
         '(a, b) ← unpack2 items;
         signals ← store_signal v a st.1;
         Ok (signals, b)
     | None =>
         signals ← store_signal v (as_object results) st.1;
         Ok (signals, st.2)
     end) = Ok st'.
Proof.
  unfold variant. destruct st as [signals fig_data]. unfold mbind at 1 2 3 4, prog_bind, lift.
  destruct (call "set_parameters" self) as [[u|e] self0] eqn:Hc1; [|done].
  apply call_ok in Hc1 as ->.
  destruct (set_parameters v self) as [[[]|e] self1] eqn:Hset; [|done].
  destruct (call "func" self1) as [[u'|e] self2] eqn:Hc2; [|done].
  apply call_ok in Hc2 as ->.
  destruct (func self1 ohlcv) as [results|e] eqn:Hf; [|done].
  intros Hrun. injection Hrun as Hrun <-. split; [done|]. by exists results.
Qed.

(** Each round of the loop leaves its assignment on the instance. *)
Lemma variants_state ohlcv vs st self st' self' :
  variants' ohlcv vs st self = (Ok st', self') ->
  each set_parameters vs self = (Ok (), self').
Proof.
  revert st self. induction vs as [|v vs IH]; intros st self Hrun.
  - by injection Hrun as _ <-.
  - change (variants' ohlcv (v :: vs) st self)
      with ((st' ← variant' ohlcv st v; variants' ohlcv vs st') self) in Hrun.
    unfold mbind, prog_bind in Hrun. simpl each. unfold mbind, prog_bind.
    destruct (variant' ohlcv st v self) as [[st1|e] self1] eqn:Hv; [|done].
    apply variant_inv in Hv as [-> _]. by apply IH in Hrun.
Qed.

(** The loop over [vs ++ [v]] is the loop over [vs] and then the round of
    [v]. *)
Lemma variants_snoc ohlcv vs v st self :
  variants' ohlcv (vs ++ [v]) st self =
    (st' ← variants' ohlcv vs st; variant' ohlcv st' v) self.
Proof.
  revert st self. induction vs as [|v' vs IH]; intros st self.
  - change (variants' ohlcv ([] ++ [v]) st self)
      with ((st' ← variant' ohlcv st v; mret st') self).
    change ((st' ← variants' ohlcv [] st; variant' ohlcv st' v) self)
      with (variant' ohlcv st v self).
    unfold mbind, prog_bind. by destruct (variant' ohlcv st v self) as [[?|?] ?].
  - change (variants' ohlcv ((v' :: vs) ++ [v]) st self)
      with ((st' ← variant' ohlcv st v'; variants' ohlcv (vs ++ [v]) st') self).
    change (variants' ohlcv (v' :: vs) st)
      with (st' ← variant' ohlcv st v'; variants' ohlcv vs st').
    unfold mbind, prog_bind in *.
    destruct (variant' ohlcv st v' self) as [[st1|e] self1]; [|done].
    apply IH.
Qed.

(** What [ret_f] returns comes from a complete run of the loop. *)
Lemma ret_f_inv variables ohlcv self t fig self' :
  ret_f' variables ohlcv self = (Ok (t, fig), self') ->
  exists signals,
    variants' ohlcv (variable_enumerate' variables) ([], OBundle ∅) self
      = (Ok (signals, fig), self').
Proof.
  unfold ret_f, mbind, prog_bind, lift. intros Hrun.
  destruct (variants' _ _ _ _) as [[[signals fig']|e] self1]; [|done].
  exists signals.
  destruct (pd_DataFrame signals) as [fr|e]; [|done].
  destruct (decode_columns _ _ fr) as [t'|e]; [|done].
  unfold mret, prog_ret in Hrun. by simplify_eq.
Qed.

Lemma variable_enumerate_ne variables : variable_enumerate' variables <> [].
Proof.
  unfold variable_enumerate.
  destruct (enumerate_variables variables);
    [rewrite bool_decide_true by done|rewrite bool_decide_false by done]; done.
Qed.

(** C8 (as the code has it). A sweep leaves its assignments on the
    instance: when [ret_f] returns, the instance is the one before the call
    after [set_parameters] of each assignment in turn; its [_variables] is
    the last assignment of the sweep, each parameter of that assignment,
    unless its name is [_variables], is an attribute with the value it has
    there, and an attribute that no assignment of the sweep names is as
    before. *)
Theorem ret_f_leaves_last_assignment variables ohlcv self t fig self' :
  ret_f' variables ohlcv self = (Ok (t, fig), self') ->
  each set_parameters (variable_enumerate' variables) self = (Ok (), self') /\
  _variables self' = last (variable_enumerate' variables) /\
  (forall (a : assignment) k (val : value), last (variable_enumerate' variables) = Some a ->
     NoDup a.*1 -> (k, val) ∈ a -> k <> "_variables" -> attrs self' !! k = Some val) /\
  (forall k, Forall (fun a : assignment => k ∉ a.*1) (variable_enumerate' variables) ->
     k <> "_variables" -> attrs self' !! k = attrs self !! k).
Proof.
  intros Hrun. apply ret_f_inv in Hrun as [signals Hrun].
  apply variants_state in Hrun.
  pose proof (variable_enumerate_ne variables) as Hne.
  generalize dependent (variable_enumerate' variables). intros ve Hrun Hne.
  split; [done|].
  destruct (exists_last Hne) as (vs & a & ->).
  rewrite each_snoc in Hrun. unfold mbind, prog_bind in Hrun.
  destruct (each set_parameters vs self) as [[[]|e] self1] eqn:Hvs; [|done].
  rewrite last_snoc. split_and!.
  - apply set_parameters_ok in Hrun. by subst self'.
  - intros a' k val [= <-] Hnd Hin Hk. by eapply set_parameters_lookup_in.
  - intros k Hk Hv. apply Forall_app in Hk as [Hks Ha].
    rewrite Forall_singleton in Ha.
    rewrite (set_parameters_lookup_notin _ _ _ _ _ Hrun) by done.
    clear Hne Hrun. revert self Hvs. induction vs as [|a' vs IH]; intros self Hvs.
    + by injection Hvs as <-.
    + apply Forall_cons in Hks as [Ha' Hks]. simpl in Hvs. unfold mbind, prog_bind in Hvs.
      destruct (set_parameters a' self) as [[[]|e] self2] eqn:Hset; [|done].
      rewrite (IH Hks self2 Hvs). by eapply set_parameters_lookup_notin.
Qed.

(** C2 (as the code has it). The bundle [ret_f] returns is the one of the
    last variant alone: when the function, run under the last assignment of
    the sweep, returns a pair, the second item of that pair is what [ret_f]
    returns beside the table, whatever the earlier variants returned. *)
Theorem ret_f_keeps_last_bundle variables ohlcv self t fig self' vs v a b :
  variable_enumerate' variables = vs ++ [v] ->
  ret_f' variables ohlcv self = (Ok (t, fig), self') ->
  func (each set_parameters (vs ++ [v]) self).2 ohlcv = Ok (RTuple [a; b]) ->
  fig = b.
Proof.
  intros Hve Hrun Hlast. apply ret_f_inv in Hrun as [signals Hrun].
  rewrite Hve in Hrun. rewrite (variants_state _ _ _ _ _ _ Hrun) in Hlast. cbn [snd] in Hlast.
  rewrite variants_snoc in Hrun. unfold mbind, prog_bind in Hrun.
  destruct (variants' ohlcv vs _ self) as [[[signals1 fig1]|e] self1] eqn:Hvs; [|done].
  apply variant_inv in Hrun as (_ & results & Hf & Hres).
  rewrite Hlast in Hf. injection Hf as <-. cbn [iterate unpack2 mbind result_bind] in Hres.
  destruct (store_signal _ _ _) as [signals2|e]; [|done].
  cbn [mbind result_bind] in Hres. by simplify_eq.
Qed.

(** C7. When the helper enumerates no assignment for the empty spec, the
    assignments that [ret_f] and [backtest] run for it are the default
    parameters and nothing else: the loop of [ret_f] is then one round, for
    the defaults, and [backtest], called with an empty [dict], hands the
    defaults alone to the run of the strategy. For no spec at all is the
    list of assignments empty. *)
Theorem empty_spec_runs_defaults :
  enumerate_variables (Some []) = [] ->
  variable_enumerate' (Some []) = [default_parameters] /\
  Strategy.variable_enumerate default_parameters enumerate_variables [] = [default_parameters] /\
  (forall ohlcv st self,
     variants' ohlcv (variable_enumerate' (Some [])) st self
     = variant' ohlcv st default_parameters self) /\
  (forall variables w, Strategy.heap w !! variables = Some [] ->
     (Strategy.enumerate default_parameters enumerate_variables variables w).1
     = Ok ([], [default_parameters])) /\
  (forall variables, variable_enumerate' variables <> []) /\
  (forall variables,
     Strategy.variable_enumerate default_parameters enumerate_variables variables <> []).
Proof.
  intros Hempty.
  assert (variable_enumerate' (Some []) = [default_parameters]) as Hve.
  { unfold variable_enumerate. by rewrite Hempty. }
  assert (Strategy.variable_enumerate default_parameters enumerate_variables []
          = [default_parameters]) as Hve'.
  { unfold Strategy.variable_enumerate. by rewrite Hempty. }
  split_and!; try done.
  - intros ohlcv st self. rewrite Hve. simpl. unfold mbind, prog_bind.
    by destruct (variant' ohlcv st default_parameters self) as [[?|?] ?].
  - intros variables w Hvar. unfold Strategy.enumerate.
    erewrite bind_ok by reflexivity.
    erewrite bind_ok.
    2:{ apply split_stops_none. intros e _. simpl.
        by rewrite lookup_total_insert_eq, (lookup_total_correct _ _ _ Hvar). }
    erewrite bind_ok by reflexivity. simpl.
    by rewrite lookup_total_insert_eq, (lookup_total_correct _ _ _ Hvar), Hve'.
  - intros variables. unfold variable_enumerate.
    destruct (enumerate_variables variables);
      [rewrite bool_decide_true by done|rewrite bool_decide_false by done]; done.
  - intros variables. unfold Strategy.variable_enumerate.
    by destruct (enumerate_variables (Some variables)).
Qed.

End runner_theorems.

Section runner_examples.
Import Examples.

(** The filter [mmi], 20 by default, swept over the periods 10 and 30: the
    run returns, and the instance that held the period 20 before the call
    holds the period 30 after it. *)
Lemma ret_f_changes_instance :
  is_ok (run_filter sweep_10_30).1 = true /\
  Filter.init mmi_defaults = Ok mmi_instance /\
  mmi_instance = Instance {[ "timeperiod" := VInt 20 ]} (Some [("timeperiod", VInt 20)]) /\
  (run_filter sweep_10_30).2
    = Instance {[ "timeperiod" := VInt 30 ]} (Some [("timeperiod", VInt 30)]).
Proof. vm_compute. repeat split. Qed.

Lemma ret_f_leaves_last_assignment_witness :
  _variables (run_filter sweep_10_30).2 = Some [("timeperiod", VInt 30)].
Proof.
  unfold run_filter.
  destruct (Filter.ret_f _ _ _ _ _ _ _ _ _ _) as [[[t fig]|e] self'] eqn:Hrun;
    [|by vm_compute in Hrun].
  exact (proj1 (proj2 (ret_f_leaves_last_assignment mmi mmi_defaults
                         utility.enumerate_variables utility.remove_pd_object pd_DataFrame
                         Index_map MultiIndex_from_tuples sweep_10_30 ohlcv mmi_instance
                         t fig self' Hrun))).
Defined.

(** The same sweep: both variants return diagnostics, the first the series
    [10], the second the series [30]; the bundle of the run holds the second
    and nothing of the first. *)
Lemma ret_f_drops_first_bundle :
  exists t s,
    (run_filter sweep_10_30).1
      = Ok (t, OBundle {[ "figures" := {[ "mmi_index" := [30%Z] ]} ]}) /\
    mmi (Filter.set_parameters [("timeperiod", VInt 10)] mmi_instance).2 ohlcv
      = Ok (RTuple [s; OBundle {[ "figures" := {[ "mmi_index" := [10%Z] ]} ]}]).
Proof. vm_compute. eexists _, _. split; reflexivity. Qed.

Lemma ret_f_keeps_last_bundle_witness :
  exists t, (run_filter sweep_10_30).1
    = Ok (t, OBundle {[ "figures" := {[ "mmi_index" := [30%Z] ]} ]}).
Proof.
  destruct (run_filter sweep_10_30) as [[[t fig]|e] self'] eqn:Hrun;
    [|by vm_compute in Hrun].
  exists t. simpl. do 2 f_equal.
  eapply (ret_f_keeps_last_bundle mmi mmi_defaults utility.enumerate_variables
            utility.remove_pd_object pd_DataFrame Index_map MultiIndex_from_tuples
            sweep_10_30 ohlcv mmi_instance t fig self'
            [[("timeperiod", VInt 10)]] [("timeperiod", VInt 30)]).
  - reflexivity.
  - exact Hrun.
  - vm_compute. reflexivity.
Defined.

Lemma empty_spec_runs_defaults_witness :
  Filter.variable_enumerate mmi_defaults utility.enumerate_variables (Some []) = [mmi_defaults].
Proof.
  exact (proj1 (empty_spec_runs_defaults mmi mmi_defaults utility.enumerate_variables
                  utility.remove_pd_object eq_refl)).
Defined.

End runner_examples.
(** * The columns of a sweep: keys and labels *)

Section codec_columns.
Import Codec Filter.

Lemma result_bind_ok {A B} (a : A) (k : A -> result B) : Ok a ≫= k = k a.
Proof. done. Qed.

Lemma mapM_cons {A B} (f : A -> result B) x l :
  mapM f (x :: l) = y ← f x; k ← mapM f l; Ok (y :: k).
Proof. done. Qed.

Lemma mapM_fmap_ext {A B C} (g : A -> B) (f : B -> result C) (h : A -> result C) l :
  Forall (fun x => f (g x) = h x) l -> mapM f (g <$> l) = mapM h l.
Proof.
  induction 1 as [|x l Hx _ IH]; [done|]. rewrite fmap_cons, !mapM_cons, Hx.
  destruct (h x); [|done]. by rewrite result_bind_ok, IH.
Qed.

Lemma mapM_ok {A B} (f : A -> B) (l : list A) :
  mapM (M := result) (fun x => Ok (f x)) l = Ok (f <$> l).
Proof. induction l as [|x l IH]; [done|]. by rewrite mapM_cons, result_bind_ok, IH. Qed.

Lemma dict_get_head {V} k (v : V) d : dict_get k ((k, v) :: d) = Ok v.
Proof. simpl. by rewrite bool_decide_true. Qed.

Lemma dict_get_tail {V} k k' (v : V) d : k' <> k -> dict_get k ((k', v) :: d) = dict_get k d.
Proof. intros. simpl. by rewrite bool_decide_false. Qed.

Lemma mapM_heads p (hs : list value) (ts : list assignment) :
  length hs = length ts ->
  mapM (dict_get p) (zip_with (fun h t => (p, h) :: t) hs ts) = Ok hs.
Proof.
  revert ts. induction hs as [|h hs IH]; intros [|t ts] Hlen; try done.
  cbn [zip_with]. rewrite mapM_cons, dict_get_head, result_bind_ok, IH by (simpl in Hlen; lia).
  done.
Qed.

Lemma mapM_tails p p' (hs : list value) (ts : list assignment) :
  p <> p' -> length hs = length ts ->
  mapM (dict_get p') (zip_with (fun h t => (p, h) :: t) hs ts) = mapM (dict_get p') ts.
Proof.
  intros Hne. revert ts. induction hs as [|h hs IH]; intros [|t ts] Hlen; try done.
  cbn [zip_with]. rewrite !mapM_cons, dict_get_tail, IH by (done || simpl in Hlen; lia).
  done.
Qed.

Lemma zip_with_cons_nil {A} (hs : list A) (ts : list (list A)) :
  length hs = length ts -> Forall (fun t => t = []) ts ->
  (fun x => [x]) <$> hs = zip_with cons hs ts.
Proof.
  revert ts. induction hs as [|h hs IH]; intros [|t ts] Hlen Hts; try done.
  apply Forall_cons in Hts as [-> Hts]. cbn [zip_with]. rewrite fmap_cons.
  f_equal. apply IH; [simpl in Hlen; lia|done].
Qed.

Lemma zip_with_cons_snd (p : string) (hs : list value) (ts : list assignment) :
  length hs = length ts ->
  zip_with cons hs ((fun a : assignment => a.*2) <$> ts)
  = (fun a : assignment => a.*2) <$> zip_with (fun h t => (p, h) :: t) hs ts.
Proof.
  revert ts. induction hs as [|h hs IH]; intros [|t ts] Hlen; try done.
  rewrite fmap_cons. cbn [zip_with]. rewrite fmap_cons. f_equal.
  apply IH. simpl in Hlen; lia.
Qed.

(** The arrays [ret_f] reads off the keys, one per parameter, transpose to
    the values of the assignments. *)
Lemma arrays_transpose (param_names : list string) (vs : list assignment) :
  NoDup param_names ->
  Forall (fun a : assignment => a.*1 = param_names) vs ->
  exists arrays,
    mapM (fun p => mapM (dict_get p) vs) param_names = Ok arrays /\
    length arrays = length param_names /\
    (param_names <> [] -> zip_star arrays = (fun a : assignment => a.*2) <$> vs).
Proof.
  revert vs. induction param_names as [|p ps IH]; intros vs Hnd Hkeys.
  { by exists []. }
  apply NoDup_cons in Hnd as [Hp Hnd].
  assert (exists hs : list value, exists ts : list assignment,
            vs = zip_with (fun h t => (p, h) :: t) hs ts /\ length hs = length ts /\
            Forall (fun t : assignment => t.*1 = ps) ts) as (hs & ts & -> & Hlen & Hts).
  { induction Hkeys as [|a vs Ha _ (hs & ts & -> & Hlen & Hts)].
    - by exists [], [].
    - destruct a as [|[k h] t]; [done|]. injection Ha as -> Ht.
      exists (h :: hs), (t :: ts). split_and!; [done|simpl; lia|by constructor]. }
  destruct (IH ts Hnd Hts) as (arrays & Harr & Hlarr & Hzip).
  assert (mapM (fun p' => mapM (dict_get p') (zip_with (fun h t => (p, h) :: t) hs ts)) ps
          = Ok arrays) as Hrest.
  { rewrite <-Harr. clear -Hp Hlen.
    induction ps as [|p' ps IHps]; [done|].
    apply not_elem_of_cons in Hp as [Hne Hp].
    rewrite !mapM_cons, mapM_tails, IHps by done. done. }
  exists (hs :: arrays). split_and!.
  - by rewrite mapM_cons, mapM_heads, result_bind_ok, Hrest.
  - simpl. by rewrite Hlarr.
  - intros _. destruct ps as [|p' ps].
    + destruct arrays; [|done]. cbn [zip_star].
      rewrite (zip_with_cons_nil hs ((fun a : assignment => a.*2) <$> ts)).
      * by apply zip_with_cons_snd.
      * by rewrite length_fmap.
      * apply Forall_fmap. eapply Forall_impl; [exact Hts|].
        intros t Ht. by destruct t.
    + destruct arrays as [|r arrays]; [done|].
      change (zip_star (hs :: r :: arrays)) with (zip_with cons hs (zip_star (r :: arrays))).
      rewrite Hzip by done. by apply zip_with_cons_snd.
Qed.

Lemma mapM_ext_all {A B} (f g : A -> result B) l :
  (forall x, f x = g x) -> mapM f l = mapM g l.
Proof. intros Hfg. induction l as [|x l IH]; [done|]. by rewrite !mapM_cons, Hfg, IH. Qed.

Lemma mapM_ok_Forall {A B} (f : A -> result B) (g : A -> B) l :
  Forall (fun x => f x = Ok (g x)) l -> mapM f l = Ok (g <$> l).
Proof.
  induction 1 as [|x l Hx _ IH]; [done|]. by rewrite mapM_cons, Hx, result_bind_ok, IH.
Qed.

Lemma dict_get_lookup (a : assignment) p v :
  (list_to_map a : gmap string value) !! p = Some v -> dict_get p a = Ok v.
Proof.
  induction a as [|[k w] a IH]; [done|]. simpl. case_bool_decide as Hk.
  - subst k. rewrite lookup_insert_eq. by intros [= ->].
  - rewrite lookup_insert_ne by done. exact IH.
Qed.

(** The values of a parameter that every assignment has. *)
Lemma mapM_level p (vs : list assignment) :
  Forall (fun a : assignment => p ∈ a.*1) vs -> mapM (dict_get p) vs = Ok (level p vs).
Proof.
  induction 1 as [|a vs Ha _ IH]; [done|].
  assert (is_Some ((list_to_map a : gmap string value) !! p)) as [v Hv].
  { apply elem_of_dom. by rewrite dom_list_to_map_L, elem_of_list_to_set. }
  rewrite mapM_cons, (dict_get_lookup _ _ _ Hv), result_bind_ok, IH, result_bind_ok.
  unfold level. simpl. by rewrite Hv.
Qed.

Lemma zip_labels (cols : list (assignment * column)) :
  zip ((fun a : assignment => a.*2) <$> cols.*1) cols.*2
  = (fun ac => (ac.1.*2, ac.2)) <$> cols.
Proof. induction cols as [|[a c] cols IH]; [done|]. rewrite !fmap_cons. simpl. by rewrite IH. Qed.

(** X1: a frame whose column keys are what [str] prints for assignments
    over the same parameters (at least one), with integer, string and finite
    float values, is decoded into the table whose level names are the
    parameter names and whose column labels are the values of each
    assignment, in column order, over the same data, when pandas keeps the
    values of each level and the tuples made of them as they are. *)
Theorem decode_columns_labels Index_map MultiIndex_from_tuples idx (a0 : assignment)
    (c0 : column) (vs : list (assignment * column)) (keys : list string) :
  a0 <> [] -> NoDup a0.*1 ->
  Forall (fun ac : assignment * column =>
            ac.1.*1 = a0.*1 /\ Forall (fun kv => supported kv.2 = true) ac.1)
         ((a0, c0) :: vs) ->
  Forall2 (fun (ac : assignment * column) key => str ac.1 = Ok key) ((a0, c0) :: vs) keys ->
  Forall (fun p => Index_map (level p ((a0, c0) :: vs).*1) = level p ((a0, c0) :: vs).*1)
         a0.*1 ->
  MultiIndex_from_tuples ((fun a : assignment => a.*2) <$> ((a0, c0) :: vs).*1) a0.*1
    = Ok ((fun a : assignment => a.*2) <$> ((a0, c0) :: vs).*1) ->
  decode_columns Index_map MultiIndex_from_tuples (Frame idx (zip keys ((a0, c0) :: vs).*2))
  = Ok (Table idx a0.*1 ((fun ac => (ac.1.*2, ac.2)) <$> (a0, c0) :: vs)).
Proof.
  intros Hne Hnd Hall Hkeys Hmap Htuples.
  set (cols := (a0, c0) :: vs) in *.
  assert (zip keys cols.*2 = (fun ac : assignment * column => (text ac.1, ac.2)) <$> cols)
    as ->.
  { clear -Hall Hkeys. induction Hkeys as [|ac key cols keys Hkey _ IH]; [done|].
    apply Forall_cons in Hall as [[_ Hs] Hall].
    rewrite str_text in Hkey by done. injection Hkey as <-.
    rewrite !fmap_cons. cbn [zip zip_with]. by rewrite IH. }
  assert (Forall (fun ac : assignment * column => eval (text ac.1) = Ok ac.1) cols) as Heval.
  { eapply Forall_impl; [exact Hall|]. intros ac [Hk Hs].
    apply eval_text; [by rewrite Hk|done]. }
  pose proof (Forall_inv Heval) as Heval0. cbn [fst] in Heval0.
  assert (Forall (fun a : assignment => a.*1 = a0.*1) cols.*1) as Hnames.
  { apply Forall_fmap. eapply Forall_impl; [exact Hall|]. by intros ac [Hk _]. }
  assert (forall p, p ∈ a0.*1 -> mapM (dict_get p) cols.*1 = Ok (level p cols.*1)) as Hlevel.
  { intros p Hp. apply mapM_level. eapply Forall_impl; [exact Hnames|].
    intros a Ha. simpl in Ha. by rewrite Ha. }
  destruct (arrays_transpose _ _ Hnd Hnames) as (arrays & Harr & _ & Hzip).
  specialize (Hzip ltac:(by destruct a0)).
  assert (arrays = (fun p => level p cols.*1) <$> a0.*1) as ->.
  { rewrite (mapM_ok_Forall _ (fun p => level p cols.*1)) in Harr; [by injection Harr|].
    apply Forall_forall. intros p Hp. by apply Hlevel. }
  unfold decode_columns. cbn [f_cols f_index].
  assert (mapM (fun p =>
                  values ← mapM (fun sc : string * column => a ← eval sc.1; dict_get p a)
                                ((fun ac : assignment * column => (text ac.1, ac.2)) <$> cols);
                  Ok (Index_map values)) a0.*1
          = Ok ((fun p => level p cols.*1) <$> a0.*1)) as Harr'.
  { apply mapM_ok_Forall. rewrite Forall_forall in Hmap. apply Forall_forall. intros p Hp.
    rewrite (mapM_fmap_ext _ _ (fun ac : assignment * column => dict_get p ac.1)).
    - rewrite <-(mapM_fmap_ext fst (dict_get p) (fun ac : assignment * column => dict_get p ac.1))
        by (by apply Forall_true).
      rewrite (Hlevel p Hp), result_bind_ok. by rewrite (Hmap p Hp).
    - eapply Forall_impl; [exact Heval|]. intros ac Hac. cbn [fst]. by rewrite Hac. }
  subst cols. rewrite fmap_cons at 1. cbn [fst]. rewrite Heval0, !result_bind_ok.
  rewrite Harr', result_bind_ok. cbv zeta. rewrite Hzip, Htuples, result_bind_ok.
  rewrite bool_decide_true by (by rewrite !length_fmap).
  f_equal. f_equal. rewrite <-zip_labels. f_equal.
  rewrite <-!list_fmap_compose. done.
Qed.

(** X2: the column key tells assignments apart: two assignments with
    integer, string and finite float values print the same key only when
    they are the same assignment, so no two variants of a sweep over such
    values share a column of the signal table. *)
Theorem str_injective (a b : assignment) (key : string) :
  NoDup a.*1 -> NoDup b.*1 ->
  Forall (fun kv => plain kv.2 = true) a ->
  Forall (fun kv => plain kv.2 = true) b ->
  str a = Ok key ->
  str b = Ok key <-> a = b.
Proof.
  intros Hna Hnb Ha Hb Hka. split; [|by intros <-]. intros Hkb.
  apply str_ok in Hka as [Hsa ->]; [|done]. apply str_ok in Hkb as [Hsb Heq]; [|done].
  pose proof (eval_text a Hna Hsa) as Hea. rewrite Heq, (eval_text b Hnb Hsb) in Hea.
  by injection Hea.
Qed.

End codec_columns.

Section columns_examples.
Import Codec Filter Examples.

Lemma decode_columns_labels_witness :
  decode_columns Index_map MultiIndex_from_tuples
    (Frame rows [("{'timeperiod': 10}", [true; false; true]);
                 ("{'timeperiod': 30}", [false; false; true])])
  = Ok (Table rows ["timeperiod"]
          [([VInt 10], [true; false; true]); ([VInt 30], [false; false; true])]).
Proof.
  apply (decode_columns_labels Index_map MultiIndex_from_tuples rows
           [("timeperiod", VInt 10)] [true; false; true]
           [([("timeperiod", VInt 30)], [false; false; true])]
           ["{'timeperiod': 10}"; "{'timeperiod': 30}"]).
  - done.
  - apply (bool_decide_unpack _). vm_compute. exact I.
  - repeat constructor.
  - repeat constructor.
  - repeat constructor.
  - reflexivity.
Defined.

Lemma str_injective_witness :
  str [("timeperiod", VInt 30)] = Ok "{'timeperiod': 10}"
  <-> [("timeperiod", VInt 10)] = [("timeperiod", VInt 30)].
Proof.
  apply str_injective.
  - apply (bool_decide_unpack _). vm_compute. exact I.
  - apply (bool_decide_unpack _). vm_compute. exact I.
  - repeat constructor.
  - repeat constructor.
  - reflexivity.
Defined.

End columns_examples.
(** * The run of a sweep: parameters, failures and columns *)

Section parameters_extras.
Implicit Types (cls : string) (a : assignment) (self : instance).

Lemma written_union a (m : gmap string value) :
  NoDup a.*1 -> written a m = list_to_map a ∪ m.
Proof.
  revert m. induction a as [|[k v] a IH]; intros m Hnd.
  - simpl. by rewrite (left_id_L ∅ (∪)).
  - apply NoDup_cons in Hnd as [Hk Hnd].
    change (written ((k, v) :: a) m) with (written a (<[k := v]> m)).
    rewrite IH by done. simpl.
    rewrite <-insert_union_r, insert_union_l; [done|].
    by apply not_elem_of_list_to_map_1.
Qed.

(** X3: [set_parameters] of both classes. When [set_parameters(variables)]
    returns, the attributes of the instance are those it had, overridden by
    the items of [variables], but for the name [_variables], which holds
    [variables] itself; no other attribute is ever removed, so a parameter
    set by an earlier call stays readable when a later assignment does not
    name it. *)
Theorem set_parameters_attrs cls self self' a :
  NoDup a.*1 ->
  set_parameters cls a self = (Ok (), self') ->
  attrs self' = delete "_variables" (list_to_map a ∪ attrs self) /\
  _variables self' = Some a /\
  (forall k, k <> "_variables" -> is_Some (attrs self !! k) -> is_Some (attrs self' !! k)).
Proof.
  intros Hnd ->%set_parameters_ok. cbn [attrs _variables]. rewrite written_union by done.
  split_and!; try done.
  intros k Hk [v Hv]. rewrite lookup_delete_ne by done. rewrite lookup_union.
  rewrite Hv. destruct (list_to_map a !! k); by eexists.
Qed.

End parameters_extras.

Section runner_extras.
Import Filter.

Context {bar : Type}.
Context (func : instance -> list bar -> result results).
Context (default_parameters : assignment).
Context (enumerate_variables : option spec -> list assignment).
Context (remove_pd_object : assignment -> assignment).
Context (pd_DataFrame : list (string * pyobj) -> result frame).
Context (Index_map : list value -> list value).
Context (MultiIndex_from_tuples : list (list value) -> list string -> result (list (list value))).

Local Abbreviation variant' := (variant func remove_pd_object).
Local Abbreviation variants' := (variants func remove_pd_object).
Local Abbreviation variable_enumerate' :=
  (variable_enumerate default_parameters enumerate_variables).
Local Abbreviation ret_f' :=
  (ret_f func default_parameters enumerate_variables remove_pd_object pd_DataFrame
     Index_map MultiIndex_from_tuples).

Implicit Types (ohlcv : list bar) (self : instance) (v : assignment) (vs : list assignment)
  (st : list (string * pyobj) * pyobj).

Lemma variants_app ohlcv vs ws st self :
  variants' ohlcv (vs ++ ws) st self =
    (st' ← variants' ohlcv vs st; variants' ohlcv ws st') self.
Proof.
  revert st self. induction vs as [|v vs IH]; intros st self; [done|].
  change (variants' ohlcv ((v :: vs) ++ ws) st self)
    with ((st' ← variant' ohlcv st v; variants' ohlcv (vs ++ ws) st') self).
  change (variants' ohlcv (v :: vs) st)
    with (st' ← variant' ohlcv st v; variants' ohlcv vs st').
  unfold mbind, prog_bind in *.
  destruct (variant' ohlcv st v self) as [[st1|e] self1]; [|done].
  apply IH.
Qed.

(** A round of the loop that raises ends the run. *)
Lemma ret_f_variant_raise variables ohlcv self vs v vs' st self1 e self2 :
  variable_enumerate' variables = vs ++ v :: vs' ->
  variants' ohlcv vs ([], OBundle ∅) self = (Ok st, self1) ->
  variant' ohlcv st v self1 = (Raise e, self2) ->
  ret_f' variables ohlcv self = (Raise e, self2).
Proof.
  intros Hvs Hrun Hv. unfold ret_f. rewrite Hvs.
  unfold mbind at 1, prog_bind at 1. rewrite variants_app.
  unfold mbind at 1, prog_bind at 1. rewrite Hrun.
  change (variants' ohlcv (v :: vs') st)
    with (st' ← variant' ohlcv st v; variants' ohlcv vs' st').
  unfold mbind at 1, prog_bind at 1. by rewrite Hv.
Qed.

(** The round of [v] when the methods are those of the class and the
    parameters can be set: what is left is the call of the function. *)
Lemma variant_call ohlcv st v self1 self2 :
  attrs self1 !! "set_parameters" = None ->
  set_parameters v self1 = (Ok (), self2) ->
  attrs self2 !! "func" = None ->
  variant' ohlcv st v self1
  = (results ← func self2 ohlcv;
     let v := remove_pd_object v in
     match iterate results with
     | Some items =>
         '(a, b) ← unpack2 items;
         signals ← store_signal v a st.1;
         Ok (signals, b)
     | None =>
         signals ← store_signal v (as_object results) st.1;
         Ok (signals, st.2)
     end, self2).
Proof.
  intros Hsp Hset Hfunc. unfold variant. destruct st as [signals fig_data].
  unfold mbind at 1 2 3 4, prog_bind, lift, call. rewrite Hsp, Hset, Hfunc.
  by destruct (func self2 ohlcv).
Qed.

Lemma each_set_parameters vs v self self1 self2 :
  each set_parameters vs self = (Ok (), self1) ->
  set_parameters v self1 = (Ok (), self2) ->
  each set_parameters (vs ++ [v]) self = (Ok (), self2).
Proof. intros Hvs Hv. rewrite each_snoc. unfold mbind, prog_bind. by rewrite Hvs. Qed.

(** X4: when the user function raises on a variant, the run raises that
    exception, the variants after it are not run, and the instance keeps the
    parameters of the variants up to the one that failed. The function and
    [set_parameters] are those of the class: no parameter of an earlier
    variant has their name. *)
Theorem ret_f_function_raises variables ohlcv self vs v vs' st self1 self2 e :
  variable_enumerate' variables = vs ++ v :: vs' ->
  variants' ohlcv vs ([], OBundle ∅) self = (Ok st, self1) ->
  attrs self1 !! "set_parameters" = None ->
  set_parameters v self1 = (Ok (), self2) ->
  attrs self2 !! "func" = None ->
  func self2 ohlcv = Raise e ->
  ret_f' variables ohlcv self = (Raise e, self2) /\
  each set_parameters (vs ++ [v]) self = (Ok (), self2).
Proof.
  intros Hvs Hrun Hsp Hset Hfunc Hf. split.
  - eapply ret_f_variant_raise; [done..|].
    rewrite (variant_call _ _ _ _ _ Hsp Hset Hfunc). by rewrite Hf.
  - eapply each_set_parameters; [|done]. by eapply variants_state.
Qed.

(** X5: a [pd.Series] is iterable, so a user function that returns the bare
    signal series, without the diagnostics beside it, has the series
    unpacked into two names: unless the series has exactly two rows the run
    raises [ValueError], whatever the other variants return. *)
Theorem ret_f_bare_series variables ohlcv self vs v vs' st self1 self2 idx c :
  variable_enumerate' variables = vs ++ v :: vs' ->
  variants' ohlcv vs ([], OBundle ∅) self = (Ok st, self1) ->
  attrs self1 !! "set_parameters" = None ->
  set_parameters v self1 = (Ok (), self2) ->
  attrs self2 !! "func" = None ->
  func self2 ohlcv = Ok (RSeries idx c) ->
  length c <> 2 ->
  (exists msg, ret_f' variables ohlcv self = (Raise (PyErr "ValueError" msg), self2)) /\
  each set_parameters (vs ++ [v]) self = (Ok (), self2).
Proof.
  intros Hvs Hrun Hsp Hset Hfunc Hf Hlen.
  assert (exists msg, unpack2 (OBool <$> c) = Raise (PyErr "ValueError" msg)) as [msg Hmsg].
  { destruct c as [|b1 [|b2 [|b3 c]]]; try done; by eexists. }
  split.
  - exists msg. eapply ret_f_variant_raise; [done..|].
    rewrite (variant_call _ _ _ _ _ Hsp Hset Hfunc). rewrite Hf.
    cbn [iterate mbind result_bind]. by rewrite Hmsg.
  - eapply each_set_parameters; [|done]. by eapply variants_state.
Qed.

End runner_extras.

Section dict_set_facts.
Context {V : Type}.
Implicit Types (d : list (string * V)) (k : string) (v : V).

Lemma dict_set_keys d k v :
  (dict_set k v d).*1 = if bool_decide (k ∈ d.*1) then d.*1 else d.*1 ++ [k].
Proof.
  induction d as [|[k' v'] d IH]; [done|]. cbn [dict_set]. rewrite fmap_cons. cbn [fst].
  destruct (decide (k' = k)) as [->|Hne].
  - rewrite bool_decide_true by done. rewrite bool_decide_true by left. done.
  - rewrite bool_decide_false by done. rewrite fmap_cons, IH. cbn [fst].
    destruct (decide (k ∈ d.*1)) as [Hin|Hin].
    + rewrite !bool_decide_true; [done|by right|done].
    + rewrite !bool_decide_false; [done| |done].
      apply not_elem_of_cons. split; [congruence|done].
Qed.

End dict_set_facts.

Section runner_columns.
Import Filter.

Context {bar : Type}.
Context (func : instance -> list bar -> result results).
Context (remove_pd_object : assignment -> assignment).

Local Abbreviation variant'' := (variant func remove_pd_object).
Local Abbreviation variants'' := (variants func remove_pd_object).

Implicit Types (ohlcv : list bar) (self : instance) (v : assignment) (vs : list assignment)
  (signals : list (string * pyobj)).

Lemma store_signal_inv v a signals signals' :
  store_signal v a signals = Ok signals' ->
  exists key, Codec.str v = Ok key /\ signals' = dict_set key a signals.
Proof.
  unfold store_signal. destruct (Codec.str v) as [key|e]; [|done].
  intros [= <-]. by exists key.
Qed.

Lemma variant_key ohlcv signals fig v self signals' fig' self' :
  variant'' ohlcv (signals, fig) v self = (Ok (signals', fig'), self') ->
  exists key a, Codec.str (remove_pd_object v) = Ok key /\ signals' = dict_set key a signals.
Proof.
  intros (_ & r & _ & Hrun)%variant_inv. cbn [fst snd] in Hrun. cbv zeta in Hrun.
  destruct (iterate r) as [items|].
  - destruct (unpack2 items) as [[a b]|e]; [|done]. cbn [mbind result_bind] in Hrun.
    destruct (store_signal _ a signals) as [s1|e] eqn:Hs; [|done].
    apply store_signal_inv in Hs as (key & Hkey & ->).
    injection Hrun as <- _. by exists key, a.
  - destruct (store_signal _ _ signals) as [s1|e] eqn:Hs; [|done].
    apply store_signal_inv in Hs as (key & Hkey & ->).
    injection Hrun as <- _. by eexists key, _.
Qed.

Lemma variants_keys ohlcv vs signals fig self signals' fig' self' :
  variants'' ohlcv vs (signals, fig) self = (Ok (signals', fig'), self') ->
  NoDup signals.*1 ->
  NoDup signals'.*1 /\
  (forall k, k ∈ signals'.*1 <->
     k ∈ signals.*1 \/ exists v, v ∈ vs /\ Codec.str (remove_pd_object v) = Ok k) /\
  length signals' <= length signals + length vs.
Proof.
  revert signals fig self. induction vs as [|v vs IH]; intros signals fig self Hrun Hnd.
  - injection Hrun as <- _ _. split_and!; [done| |lia].
    intros k. split; [by left|]. intros [?|[v [Hv _]]]; [done|]. by apply elem_of_nil in Hv.
  - change (variants'' ohlcv (v :: vs) (signals, fig) self)
      with ((st' ← variant'' ohlcv (signals, fig) v; variants'' ohlcv vs st') self) in Hrun.
    unfold mbind, prog_bind in Hrun.
    destruct (variant'' ohlcv (signals, fig) v self) as [[[signals1 fig1]|e] self1] eqn:Hv;
      [|done].
    destruct (variant_key _ _ _ _ _ _ _ _ Hv) as (key & a & Hkey & ->).
    pose proof (dict_set_keys signals key a) as Hkeys.
    destruct (IH _ _ _ Hrun) as (Hnd' & Hin & Hlen).
    { rewrite Hkeys. case_bool_decide as Hk; [done|].
      apply NoDup_app. split_and!; [done| |apply NoDup_singleton].
      by intros k Hk' ->%list_elem_of_singleton. }
    split_and!; [done| |].
    + intros k. rewrite Hin, Hkeys. split.
      * intros [Hk|(v' & Hv' & Hk')].
        -- case_bool_decide; [by left|].
           apply elem_of_app in Hk as [?| ->%list_elem_of_singleton]; [by left|].
           right. exists v. split; [left|done].
        -- right. exists v'. split; [by right|done].
      * intros [Hk|(v' & [-> | Hv']%elem_of_cons & Hk')].
        -- left. case_bool_decide; [done|]. apply elem_of_app. by left.
        -- left. rewrite Hkey in Hk'. injection Hk' as <-.
           case_bool_decide; [done|]. apply elem_of_app. right. left.
        -- right. by exists v'.
    + assert (length (dict_set key a signals) <= S (length signals)) as Hl.
      { rewrite <-!(length_fmap fst), Hkeys. case_bool_decide; [lia|].
        rewrite length_app. simpl. lia. }
      simpl. lia.
Qed.

(** X15: the signals of a sweep are kept by column key: when the loop of
    [ret_f] completes, there is one column per key that some variant
    printed, so never more columns than variants, and variants whose
    assignments print the same key (after [remove_pd_object]) share one. *)
Theorem variants_columns ohlcv vs fig self signals' fig' self' :
  variants'' ohlcv vs ([], fig) self = (Ok (signals', fig'), self') ->
  NoDup signals'.*1 /\
  (forall k, k ∈ signals'.*1 <->
     exists v, v ∈ vs /\ Codec.str (remove_pd_object v) = Ok k) /\
  length signals' <= length vs.
Proof.
  intros Hrun. destruct (variants_keys _ _ _ _ _ _ _ _ Hrun) as (Hnd & Hin & Hlen);
    [constructor|].
  split_and!; [done| |done].
  intros k. rewrite Hin. split; [intros [[]%elem_of_nil|?]|]; by auto.
Qed.

End runner_columns.

Section sweep_examples.
Import Filter Examples.

Lemma set_parameters_attrs_witness :
  exists self',
    Filter.set_parameters [("threshold", VInt 5)] mmi_instance = (Ok (), self') /\
    attrs self' = delete "_variables" ({[ "threshold" := VInt 5 ]} ∪ {[ "timeperiod" := VInt 20 ]}).
Proof.
  eexists. split; [reflexivity|].
  refine (proj1 (set_parameters_attrs "Filter" mmi_instance _ [("threshold", VInt 5)] _ _)).
  - apply (bool_decide_unpack _). vm_compute. exact I.
  - reflexivity.
Defined.

Lemma ret_f_function_raises_witness :
  exists self',
    Filter.ret_f fussy mmi_defaults utility.enumerate_variables utility.remove_pd_object
      pd_DataFrame Index_map MultiIndex_from_tuples sweep_10_30 ohlcv mmi_instance
    = (Raise (PyErr "ZeroDivisionError" "division by zero"), self') /\
    attrs self' !! "timeperiod" = Some (VInt 30).
Proof.
  exists (Instance {[ "timeperiod" := VInt 30 ]} (Some [("timeperiod", VInt 30)])).
  split; [|reflexivity].
  refine (proj1 (ret_f_function_raises fussy mmi_defaults utility.enumerate_variables
            utility.remove_pd_object pd_DataFrame Index_map MultiIndex_from_tuples
            sweep_10_30 ohlcv mmi_instance
            [[("timeperiod", VInt 10)]] [("timeperiod", VInt 30)] [] _ _
            (Instance {[ "timeperiod" := VInt 30 ]} (Some [("timeperiod", VInt 30)]))
            _ _ _ _ _ _ _)).
  - reflexivity.
  - vm_compute. reflexivity.
  - vm_compute. reflexivity.
  - vm_compute. reflexivity.
  - vm_compute. reflexivity.
  - vm_compute. reflexivity.
Defined.

Lemma ret_f_bare_series_witness :
  exists msg self',
    Filter.ret_f bare mmi_defaults utility.enumerate_variables utility.remove_pd_object
      pd_DataFrame Index_map MultiIndex_from_tuples sweep_10_30 ohlcv mmi_instance
    = (Raise (PyErr "ValueError" msg), self').
Proof.
  destruct (ret_f_bare_series bare mmi_defaults utility.enumerate_variables
              utility.remove_pd_object pd_DataFrame Index_map MultiIndex_from_tuples
              sweep_10_30 ohlcv mmi_instance
              [] [("timeperiod", VInt 10)] [[("timeperiod", VInt 30)]]
              ([], OBundle ∅) mmi_instance
              (Instance {[ "timeperiod" := VInt 10 ]} (Some [("timeperiod", VInt 10)]))
              rows [true; true; true]) as [[msg Hrun] _].
  - reflexivity.
  - reflexivity.
  - vm_compute. reflexivity.
  - vm_compute. reflexivity.
  - vm_compute. reflexivity.
  - vm_compute. reflexivity.
  - vm_compute. lia.
  - eexists msg, _. exact Hrun.
Defined.

Lemma variants_columns_witness :
  exists signals fig self',
    Filter.variants mmi utility.remove_pd_object ohlcv
      [[("timeperiod", VInt 10)]; [("timeperiod", VInt 30)]] ([], OBundle ∅)
      mmi_instance = (Ok (signals, fig), self') /\
    NoDup signals.*1 /\ length signals <= 2.
Proof.
  destruct (Filter.variants mmi utility.remove_pd_object ohlcv
              [[("timeperiod", VInt 10)]; [("timeperiod", VInt 30)]] ([], OBundle ∅)
              mmi_instance) as [[[signals fig]|e] self'] eqn:Hrun;
    [|by vm_compute in Hrun].
  exists signals, fig, self'. split; [done|].
  destruct (variants_columns mmi utility.remove_pd_object ohlcv _ _ _ _ _ _ Hrun)
    as (Hnd & _ & Hlen).
  by split.
Defined.

End sweep_examples.
(** * Filters: enumeration and composition over a list *)

Section enumerate_filters_extras.
Import Strategy.
Context {bar : Type}.
Implicit Types (ohlcv : list bar)
  (filters : list (string * (list bar -> result (table * option bundle)))).

Lemma enumerate_filters_loop ohlcv filters rs acc :
  NoDup (acc.*1 ++ filters.*1) ->
  Forall2 (fun f r => f.2 ohlcv = Ok r) filters rs ->
  for_each (fun ret f => r ← f.2 ohlcv; Ok (dict_set f.1 r ret)) filters acc
  = Ok (acc ++ zip filters.*1 rs).
Proof.
  intros Hnd Hrs. revert acc Hnd.
  induction Hrs as [|f r filters rs Hf _ IH]; intros acc Hnd.
  - by rewrite app_nil_r.
  - change (for_each ?body (f :: filters) acc)
      with (s' ← body acc f; for_each body filters s').
    cbv beta. rewrite Hf. cbn [mbind result_bind].
    rewrite dict_set_fresh.
    + rewrite IH; [by rewrite <-app_assoc|].
      rewrite fmap_app, <-app_assoc. exact Hnd.
    + apply NoDup_app in Hnd as (_ & Hdisj & _). intros Hin.
      apply (Hdisj _ Hin). rewrite fmap_cons. left.
Qed.

(** X6: when every filter returns on the price table, [_enumerate_filters]
    returns, under each filter's name and in the order of [filters], the
    table and the diagnostics that filter returned. *)
Theorem enumerate_filters_results ohlcv filters rs :
  NoDup filters.*1 ->
  Forall2 (fun f r => f.2 ohlcv = Ok r) filters rs ->
  _enumerate_filters ohlcv filters = Ok (zip filters.*1 rs).
Proof. intros Hnd Hrs. by apply (enumerate_filters_loop ohlcv filters rs []). Qed.

(** X7: the exception of the first filter that raises is the exception of
    [_enumerate_filters], whatever the filters after it would return. *)
Theorem enumerate_filters_raises ohlcv filters1 f filters2 e :
  Forall (fun f => is_ok (f.2 ohlcv) = true) filters1 ->
  f.2 ohlcv = Raise e ->
  _enumerate_filters ohlcv (filters1 ++ f :: filters2) = Raise e.
Proof.
  intros Hok Hf. unfold _enumerate_filters. generalize (@nil (string * (table * option bundle))).
  induction Hok as [|g filters1 Hg _ IH]; intros acc.
  - change (for_each ?body ([] ++ f :: filters2) acc)
      with (s' ← body acc f; for_each body filters2 s').
    cbv beta. by rewrite Hf.
  - change (for_each ?body ((g :: filters1) ++ f :: filters2) acc)
      with (s' ← body acc g; for_each body (filters1 ++ f :: filters2) s').
    cbv beta. destruct (g.2 ohlcv) as [r|e']; [|done]. cbn [mbind result_bind]. apply IH.
Qed.

End enumerate_filters_extras.

Section add_filters_extras.
Import Strategy.
Implicit Types (entries exits : table) (fig_data : bundle)
  (filters : list (string * (table * option bundle))).

Lemma implies_refl c : implies c c.
Proof. by intros i. Qed.

Lemma implies_trans c1 c2 c3 : implies c1 c2 -> implies c2 c3 -> implies c1 c3.
Proof. intros H12 H23 i Hi. by apply H23, H12. Qed.

Lemma andb_implies cf ce : implies (zip_with andb cf ce) cf /\ implies (zip_with andb cf ce) ce.
Proof.
  split; intros i Hi; rewrite lookup_zip_with in Hi;
    destruct (cf !! i) as [[]|], (ce !! i) as [[]|]; by simplify_eq/=.
Qed.

Lemma add_filters_run filters entries exits fig_data :
  Forall (fun f => index f.2.1 = index entries) filters ->
  width exits = width entries ->
  exists entries' exits' fig_data',
    _add_filters entries exits fig_data filters = Ok (entries', exits', fig_data') /\
    index entries' = index entries /\ index exits' = index exits /\
    width entries' = variants_of filters * width entries /\
    width exits' = width entries' /\
    (forall c', c' ∈ (cols entries').*2 ->
       (exists c, c ∈ (cols entries).*2 /\ implies c' c) /\
       Forall (fun f => exists cf, cf ∈ (cols f.2.1).*2 /\ implies c' cf) filters) /\
    (forall c', c' ∈ (cols exits').*2 -> c' ∈ (cols exits).*2) /\
    (Forall (fun f => 0 < width f.2.1) filters ->
     forall c, c ∈ (cols exits).*2 -> c ∈ (cols exits').*2).
Proof.
  unfold _add_filters. revert entries exits fig_data.
  induction filters as [|f filters IH]; intros entries exits fig_data Hidx Hw.
  - exists entries, exits, fig_data. split_and!; try done.
    intros c' Hc'. split; [|done]. exists c'. split; [done|apply implies_refl].
  - apply Forall_cons in Hidx as [Hf Hidx].
    destruct (add_filter_run entries exits fig_data f Hf Hw)
      as (e1 & x1 & Hstep & Hi1 & Hix1 & _ & Hd1 & Hx1 & _ & Hxl).
    assert (width e1 = width f.2.1 * width entries) as Hw1
      by (rewrite <-(width_data e1), Hd1, length_cross, !length_fmap; unfold width; lia).
    destruct (IH e1 x1 (merge_figures f.1 f.2.2 fig_data)) as
      (e' & x' & fd' & Hrun & Hi & Hix & Hwe & Hwx & Hent & Hex & Hex2);
      [by rewrite Hi1|by apply same_labels_width|].
    exists e', x', fd'. split_and!.
    + change (for_each add_filter (f :: filters) ?s)
        with (s' ← add_filter s f; for_each add_filter filters s').
      rewrite Hstep. exact Hrun.
    + by rewrite Hi.
    + by rewrite Hix.
    + rewrite Hwe, Hw1. unfold variants_of. simpl. lia.
    + done.
    + intros c' Hc'. destruct (Hent c' Hc') as [(c1 & Hc1in & Himp) Hfs].
      rewrite Hd1 in Hc1in. apply list_elem_of_lookup in Hc1in as [k Hk].
      apply lookup_cross_inv in Hk as (i & j & cf & ce & _ & Hjf & Hie & ->).
      destruct (andb_implies cf ce) as [Hcf Hce].
      split.
      * exists ce. split; [by eapply list_elem_of_lookup_2|by eapply implies_trans].
      * constructor; [|done]. exists cf.
        split; [by eapply list_elem_of_lookup_2|by eapply implies_trans].
    + intros c' Hc'. apply Hex in Hc'. rewrite Hx1 in Hc'. by apply elem_of_repeat in Hc'.
    + intros [Hpos Hrest]%Forall_cons c Hc. apply Hex2; [done|]. rewrite Hx1.
      by apply elem_of_repeat_2.
Qed.

(** X9: any number of filters on the row index of the strategy compose:
    the call returns, entries and exits keep their row indexes, and both
    have as many columns as the strategy has, times the number of columns of
    every filter. *)
Theorem add_filters_shape filters entries exits fig_data :
  Forall (fun f => index f.2.1 = index entries) filters ->
  width exits = width entries ->
  exists entries' exits' fig_data',
    _add_filters entries exits fig_data filters = Ok (entries', exits', fig_data') /\
    index entries' = index entries /\ index exits' = index exits /\
    width entries' = variants_of filters * width entries /\
    width exits' = variants_of filters * width entries.
Proof.
  intros Hidx Hw.
  destruct (add_filters_run filters entries exits fig_data Hidx Hw)
    as (e' & x' & fd' & Hrun & Hi & Hix & Hwe & Hwx & _).
  exists e', x', fd'. split_and!; try done. by rewrite Hwx.
Qed.

(** X10: filters only take entries away. Every entries column that comes
    out is true only at rows where one entries column of the strategy is
    true and where one column of every filter is true. *)
Theorem add_filters_entries_below filters entries exits fig_data entries' exits' fig_data' :
  Forall (fun f => index f.2.1 = index entries) filters ->
  width exits = width entries ->
  _add_filters entries exits fig_data filters = Ok (entries', exits', fig_data') ->
  forall c', c' ∈ (cols entries').*2 ->
    (exists c, c ∈ (cols entries).*2 /\ implies c' c) /\
    Forall (fun f => exists cf, cf ∈ (cols f.2.1).*2 /\ implies c' cf) filters.
Proof.
  intros Hidx Hw Hrun.
  destruct (add_filters_run filters entries exits fig_data Hidx Hw)
    as (e' & x' & fd' & Hrun' & _ & _ & _ & _ & Hent & _).
  rewrite Hrun in Hrun'. by simplify_eq.
Qed.

(** X11: filters leave the exits as they are. Every exits column that comes
    out holds the data of an exits column of the strategy, and when no
    filter table is empty every exits column of the strategy is among
    them. *)
Theorem add_filters_exits_copied filters entries exits fig_data entries' exits' fig_data' :
  Forall (fun f => index f.2.1 = index entries) filters ->
  width exits = width entries ->
  _add_filters entries exits fig_data filters = Ok (entries', exits', fig_data') ->
  (forall c', c' ∈ (cols exits').*2 -> c' ∈ (cols exits).*2) /\
  (Forall (fun f => 0 < width f.2.1) filters ->
   forall c, c ∈ (cols exits).*2 -> c ∈ (cols exits').*2).
Proof.
  intros Hidx Hw Hrun.
  destruct (add_filters_run filters entries exits fig_data Hidx Hw)
    as (e' & x' & fd' & Hrun' & _ & _ & _ & _ & _ & Hex & Hex2).
  rewrite Hrun in Hrun'. by simplify_eq.
Qed.

End add_filters_extras.

Section filters_examples.
Import Strategy Examples.

Lemma enumerate_filters_results_witness :
  _enumerate_filters ohlcv [("mmi", mmi_filter); ("vol", vol_filter)]
  = Ok (zip ["mmi"; "vol"] [(mmi_signals, None); (vol_signals, None)]).
Proof.
  apply (enumerate_filters_results ohlcv [("mmi", mmi_filter); ("vol", vol_filter)]
           [(mmi_signals, None); (vol_signals, None)]).
  - apply (bool_decide_unpack _). vm_compute. exact I.
  - repeat constructor.
Defined.

Lemma enumerate_filters_raises_witness :
  _enumerate_filters ohlcv ([("mmi", mmi_filter)] ++ ("f", broken_filter) :: [("vol", vol_filter)])
  = Raise (PyErr "KeyError" "volume").
Proof.
  apply enumerate_filters_raises.
  - repeat constructor.
  - reflexivity.
Defined.

Lemma add_filters_shape_witness :
  exists entries' exits' fig_data',
    _add_filters strat_entries strat_exits ∅ two_filters = Ok (entries', exits', fig_data') /\
    index entries' = rows /\ index exits' = rows /\
    width entries' = 12 /\ width exits' = 12.
Proof.
  destruct (add_filters_shape two_filters strat_entries strat_exits ∅)
    as (e' & x' & fd' & Hrun & Hi & Hix & Hwe & Hwx).
  - repeat constructor.
  - reflexivity.
  - by exists e', x', fd'.
Defined.

Lemma add_filters_entries_below_witness :
  exists entries' exits' fig_data',
    _add_filters strat_entries strat_exits ∅ two_filters = Ok (entries', exits', fig_data') /\
    forall c', c' ∈ (cols entries').*2 ->
      exists c, c ∈ (cols strat_entries).*2 /\ implies c' c.
Proof.
  destruct (_add_filters strat_entries strat_exits ∅ two_filters)
    as [[[e' x'] fd']|err] eqn:Hrun; [|by vm_compute in Hrun].
  exists e', x', fd'. split; [done|]. intros c' Hc'.
  refine (proj1 (add_filters_entries_below two_filters strat_entries strat_exits ∅
                   e' x' fd' _ _ Hrun c' Hc')).
  - repeat constructor.
  - reflexivity.
Defined.

Lemma add_filters_exits_copied_witness :
  exists entries' exits' fig_data',
    _add_filters strat_entries strat_exits ∅ two_filters = Ok (entries', exits', fig_data') /\
    forall c', c' ∈ (cols exits').*2 -> c' ∈ (cols strat_exits).*2.
Proof.
  destruct (_add_filters strat_entries strat_exits ∅ two_filters)
    as [[[e' x'] fd']|err] eqn:Hrun; [|by vm_compute in Hrun].
  exists e', x', fd'. split; [done|].
  refine (proj1 (add_filters_exits_copied two_filters strat_entries strat_exits ∅
                   e' x' fd' _ _ Hrun)).
  - repeat constructor.
  - reflexivity.
Defined.

End filters_examples.
(** * The start and the end of a back-test *)

Section dict_facts.
Context {V : Type}.
Implicit Types (d : list (string * V)) (k : string) (v : V).

Lemma dict_get_elem d k v : NoDup d.*1 -> (k, v) ∈ d -> dict_get k d = Ok v.
Proof.
  induction d as [|[k' v'] d IH]; intros Hnd Hin; [by apply elem_of_nil in Hin|].
  apply NoDup_cons in Hnd as [Hk Hnd]. simpl.
  apply elem_of_cons in Hin as [[= -> ->]|Hin].
  - by rewrite bool_decide_true.
  - rewrite bool_decide_false; [by apply IH|].
    intros ->. apply Hk. apply list_elem_of_fmap. by exists (k, v).
Qed.

Lemma dict_mem_true d k : dict_mem k d = true <-> k ∈ d.*1.
Proof. unfold dict_mem. apply bool_decide_eq_true. Qed.

Lemma dict_mem_false d k : dict_mem k d = false <-> k ∉ d.*1.
Proof. unfold dict_mem. apply bool_decide_eq_false. Qed.

Lemma elem_of_keys d k : k ∈ d.*1 -> exists v, (k, v) ∈ d.
Proof. intros ([k' v] & -> & Hin)%list_elem_of_fmap. by exists v. Qed.

Lemma elem_of_unique d k v v' : NoDup d.*1 -> (k, v) ∈ d -> (k, v') ∈ d -> v = v'.
Proof.
  intros Hnd Hv Hv'. pose proof (dict_get_elem d k v Hnd Hv) as H1.
  pose proof (dict_get_elem d k v' Hnd Hv') as H2. congruence.
Qed.

End dict_facts.

Section stops.
Import Strategy.
Implicit Types (w : world) (d c : spec) (es : list string).

Lemma filter_keys_cons (c : spec) e es :
  filter (fun kv => kv.1 ∉ es) (dict_pop e c) = filter (fun kv => kv.1 ∉ e :: es) c.
Proof.
  unfold dict_pop. induction c as [|[k v] c IH]; [done|].
  rewrite !filter_cons. cbn [fst].
  destruct (decide (k <> e)) as [Hne|Heq%dec_stable].
  - rewrite filter_cons. cbn [fst].
    destruct (decide (k ∉ es)) as [Hk|Hk].
    + rewrite decide_True by (by apply not_elem_of_cons). by rewrite IH.
    + rewrite decide_False by (rewrite not_elem_of_cons; tauto). done.
  - subst k. rewrite decide_False by (intros Hn; apply Hn; left). done.
Qed.

Lemma filter_keys_skip (c : spec) e es :
  e ∉ c.*1 ->
  filter (fun kv => kv.1 ∉ e :: es) c = filter (fun kv => kv.1 ∉ es) c.
Proof.
  induction c as [|[k v] c IH]; [done|]. rewrite fmap_cons, not_elem_of_cons. cbn [fst].
  intros [Hne He]. rewrite !filter_cons. cbn [fst]. rewrite IH by done.
  destruct (decide (k ∉ es)) as [Hk|Hk].
  - rewrite decide_True; [done|]. apply not_elem_of_cons. split; [congruence|done].
  - rewrite decide_False; [done|]. rewrite not_elem_of_cons. tauto.
Qed.

Lemma filter_keys_nil (c : spec) : filter (fun kv => kv.1 ∉ []) c = c.
Proof.
  induction c as [|kv c IH]; [done|]. rewrite filter_cons, IH.
  rewrite decide_True; [done|]. apply not_elem_of_nil.
Qed.

(** The stop loop: the keys of [es] leave the copy [c] for the stops, with
    the values they have in the caller's [dict]. *)
Lemma split_stops_run es variables copy d c sv w :
  variables <> copy ->
  heap w !! variables = Some d -> heap w !! copy = Some c ->
  NoDup d.*1 -> (forall kv, kv ∈ c -> kv ∈ d) ->
  NoDup es -> NoDup sv.*1 -> (forall e, e ∈ es -> e ∉ sv.*1) ->
  exists stops w',
    split_stops es variables copy sv w = (Ok stops, w') /\
    heap w' = <[copy := filter (fun kv => kv.1 ∉ es) c]> (heap w) /\
    self w' = self w /\
    NoDup stops.*1 /\
    (forall e v, (e, v) ∈ stops <-> (e, v) ∈ sv \/ (e ∈ es /\ (e, v) ∈ c)).
Proof.
  intros Hne. revert c sv w. induction es as [|e es IH];
    intros c sv w Hd Hc Hndd Hsub Hndes Hndsv Hdisj.
  - exists sv, w. split_and!; try done.
    + by rewrite filter_keys_nil, insert_id.
    + intros e v. split; [by left|]. intros [?|[[]%elem_of_nil _]]; done.
  - apply NoDup_cons in Hndes as [Hees Hndes].
    change (split_stops (e :: es) variables copy sv)
      with (b ← contains e copy;
            if (b : bool) then
              v ← getitem variables e;
              _ ← pop copy e;
              split_stops es variables copy (dict_set e v sv)
            else split_stops es variables copy sv).
    erewrite bind_ok by reflexivity.
    rewrite (lookup_total_correct _ _ _ Hc).
    destruct (dict_mem e c) eqn:Hmem.
    + apply dict_mem_true in Hmem. destruct (elem_of_keys _ _ Hmem) as [v Hv].
      pose proof (dict_get_elem d e v Hndd (Hsub _ Hv)) as Hget.
      assert (e ∉ sv.*1) as Hfresh by (apply Hdisj; left).
      erewrite bind_ok; [|unfold getitem; by rewrite (lookup_total_correct _ _ _ Hd), Hget].
      erewrite bind_ok;
        [|unfold pop; rewrite (lookup_total_correct _ _ _ Hc);
          by rewrite (proj2 (dict_mem_true c e) Hmem)].
      rewrite dict_set_fresh by done.
      destruct (IH (dict_pop e c) (sv ++ [(e, v)])
                  (World (<[copy := dict_pop e c]> (heap w)) (self w)))
        as (stops & w' & Hrun & Hheap & Hself & Hnds & Hstops).
      * cbn [heap]. by rewrite lookup_insert_ne.
      * cbn [heap]. by rewrite lookup_insert_eq.
      * done.
      * intros kv Hkv. apply Hsub. unfold dict_pop in Hkv.
        by apply list_elem_of_filter in Hkv as [_ ?].
      * done.
      * rewrite fmap_app. apply NoDup_app. split_and!; [done| |apply NoDup_singleton].
        intros k Hk ->%list_elem_of_singleton. done.
      * intros k Hk. rewrite fmap_app, not_elem_of_app. split.
        -- apply Hdisj. by right.
        -- intros ->%list_elem_of_singleton. done.
      * exists stops, w'. split_and!; try done.
        -- rewrite Hheap. cbn [heap]. by rewrite insert_insert_eq, filter_keys_cons.
        -- intros k v'. rewrite Hstops, elem_of_app, list_elem_of_singleton.
           unfold dict_pop. rewrite list_elem_of_filter, elem_of_cons. cbn [fst].
           split.
           ++ intros [[?|[= -> ->]]|[Hk [Hke Hkc]]]; [by left|right|right]; by auto.
           ++ intros [?|[[->|Hk] Hkc]]; [by auto| |].
              ** left. right. f_equal. eapply elem_of_unique; [exact Hndd|by apply Hsub|by apply Hsub].
              ** right. split_and!; [done| |done]. by intros ->.
    + apply dict_mem_false in Hmem.
      destruct (IH c sv w) as (stops & w' & Hrun & Hheap & Hself & Hnds & Hstops);
        try done.
      { intros k Hk. apply Hdisj. by right. }
      exists stops, w'. split_and!; try done.
      * by rewrite filter_keys_skip.
      * intros k v'. rewrite Hstops, elem_of_cons. split.
        -- intros [?|[? ?]]; by auto.
        -- intros [?|[[->|Hk] Hkc]]; [by auto| |by auto].
           exfalso. apply Hmem. apply list_elem_of_fmap. by exists (e, v').
Qed.

End stops.

Section backtest_extras.
Import Strategy.

Context {bar prices portfolio kwargs objective : Type}.
Context (default_parameters : assignment).
Context (enumerate_variables : option spec -> list assignment).
Context (enumerate_signal : list bar -> list assignment -> prog instance (table * table * bundle)).
Context (stop_early : list bar -> table -> table -> spec -> result (table * table)).
Context (close : list bar -> result prices).
Context (from_signals : prices -> squeezed -> squeezed -> kwargs -> result portfolio).

Local Abbreviation compute_signals' :=
  (compute_signals default_parameters enumerate_variables enumerate_signal stop_early).
Local Abbreviation backtest' :=
  (backtest default_parameters enumerate_variables enumerate_signal stop_early
     close from_signals).

Implicit Types (ohlcv : list bar) (variables : nat) (w : world) (side : string)
  (filters : list (string * (list bar -> result (table * option bundle)))).

(** X12: the start of [backtest] splits the caller's [variables] in two.
    The stop parameters ([sl_stop], [ts_stop], [tp_stop]) that the caller
    gave, each with the value given, go to the stop overlay and are each
    there once; the spec that is enumerated is the caller's without them, in
    the caller's order. Looking the stop values up never fails. *)
Theorem enumerate_splits_stops variables w (d : spec) :
  heap w !! variables = Some d -> NoDup d.*1 ->
  exists stop_vars w',
    enumerate default_parameters enumerate_variables variables w
    = (Ok (stop_vars,
           variable_enumerate default_parameters enumerate_variables
             (filter (fun kv => kv.1 ∉ exit_vars) d)), w') /\
    NoDup stop_vars.*1 /\
    (forall e c, (e, c) ∈ stop_vars <-> e ∈ exit_vars /\ (e, c) ∈ d).
Proof.
  intros Hd Hnd.
  assert (variables <> fresh (dom (heap w))) as Hfresh.
  { intros Heq. assert (variables ∈ dom (heap w)) as Hin by (apply elem_of_dom; by eexists).
    rewrite Heq in Hin. by apply is_fresh in Hin. }
  set (copy := fresh (dom (heap w))) in *.
  destruct (split_stops_run exit_vars variables copy d d []
              (World (<[copy := d]> (heap w)) (self w)))
    as (stops & w' & Hrun & Hheap & Hself & Hnds & Hstops); try done.
  - cbn [heap]. by rewrite lookup_insert_ne.
  - cbn [heap]. by rewrite lookup_insert_eq.
  - apply (bool_decide_unpack _). by vm_compute.
  - constructor.
  - intros e _ []%elem_of_nil.
  - exists stops, w'. split_and!; [|done|].
    + unfold enumerate.
      erewrite bind_ok;
        [|unfold copy_copy; fold copy; by rewrite (lookup_total_correct _ _ _ Hd)].
      erewrite bind_ok by exact Hrun.
      erewrite bind_ok; [|reflexivity].
      unfold mret, prog_ret. do 3 f_equal.
      rewrite Hheap. cbn [heap]. by rewrite lookup_total_insert_eq.
    + intros e c. rewrite Hstops. split; [intros [[]%elem_of_nil|?]|]; by auto.
Qed.

(** X13: [lookback] keeps the last rows of the price table: with a positive
    [lookback] the rows used are the last [lookback] rows, all of them when
    there are fewer; without one, or with 0, the whole table is used. A
    negative [lookback] does not count from the end: it drops that many of
    the first rows. *)
Theorem ohlcv_lookback_rows ohlcv :
  ohlcv_lookback ohlcv None = ohlcv /\
  ohlcv_lookback ohlcv (Some 0%Z) = ohlcv /\
  (forall n, (0 < n)%Z ->
     length (ohlcv_lookback ohlcv (Some n)) = Z.to_nat n `min` length ohlcv /\
     exists older, ohlcv = older ++ ohlcv_lookback ohlcv (Some n)) /\
  (forall n, (n < 0)%Z ->
     ohlcv = take (Z.to_nat (- n)) ohlcv ++ ohlcv_lookback ohlcv (Some n) /\
     length (ohlcv_lookback ohlcv (Some n)) = length ohlcv - Z.to_nat (- n)).
Proof.
  split_and!; try done.
  - intros n Hn. unfold ohlcv_lookback.
    destruct (Z.eqb_spec n 0) as [->|_]; [lia|].
    destruct (Z.ltb_spec 0 n) as [_|?]; [|lia]. split.
    + rewrite length_drop. lia.
    + exists (take (length ohlcv - Z.to_nat n) ohlcv). by rewrite take_drop.
  - intros n Hn. unfold ohlcv_lookback.
    destruct (Z.eqb_spec n 0) as [->|_]; [lia|].
    destruct (Z.ltb_spec 0 n) as [?|_]; [lia|]. split.
    + by rewrite take_drop.
    + by rewrite length_drop.
Qed.

(** X14: [html] alone plots a single backtest only. When the entries that
    come out of the stop overlay are no [pd.Series] (a sweep of more than
    one column) and [plot] is false, a call with [html] returns what the
    call without it returns, and no file is written: no plot function is
    called. *)
Theorem backtest_html_needs_series ohlcv variables filters lookback signals side
    cscv_nbins (cscv_objective : objective) html args w entries exits fig_data w'
    (plot_strategy plot_strategy' :
       list bar -> squeezed -> squeezed -> portfolio -> bundle -> option string -> result unit)
    (plot_combination plot_combination' : portfolio -> Z -> objective -> result unit) :
  compute_signals' ohlcv variables filters lookback w = (Ok (entries, exits, fig_data), w') ->
  is_series entries = false ->
  backtest' plot_strategy plot_combination ohlcv variables filters lookback false signals
    side cscv_nbins cscv_objective html args w
  = backtest' plot_strategy' plot_combination' ohlcv variables filters lookback false signals
      side cscv_nbins cscv_objective None args w.
Proof.
  intros Hsig Hser. unfold backtest. rewrite !(bind_ok _ _ _ _ _ Hsig).
  cbn beta iota zeta. destruct signals; [done|].
  unfold report. rewrite Hser, andb_false_r. done.
Qed.

End backtest_extras.

Section backtest_start_examples.
Import Strategy Examples.

Lemma enumerate_splits_stops_witness :
  exists stop_vars w',
    enumerate [("n", VInt 10)] utility.enumerate_variables 0 caller
    = (Ok (stop_vars,
           variable_enumerate [("n", VInt 10)] utility.enumerate_variables
             (filter (fun kv => kv.1 ∉ exit_vars)
                [("n", Sweep [VInt 10; VInt 20; VInt 30]); ("sl_stop", Fixed (VInt 1))])), w') /\
    NoDup stop_vars.*1 /\
    (forall e c, (e, c) ∈ stop_vars <->
       e ∈ exit_vars /\
       (e, c) ∈ [("n", Sweep [VInt 10; VInt 20; VInt 30]); ("sl_stop", Fixed (VInt 1))]).
Proof.
  apply (enumerate_splits_stops [("n", VInt 10)] utility.enumerate_variables 0 caller).
  - reflexivity.
  - apply (bool_decide_unpack _). vm_compute. exact I.
Defined.

Lemma backtest_html_needs_series_witness :
  Strategy.backtest [("n", VInt 10)] utility.enumerate_variables enumerate_signal stop_early
    close from_signals plot_strategy plot_combination
    ohlcv 0 [] None false false "long" 10 () (Some "report.html") () caller
  = run_backtest [] false "long".
Proof.
  unfold run_backtest.
  eapply (backtest_html_needs_series [("n", VInt 10)] utility.enumerate_variables
            enumerate_signal stop_early close from_signals ohlcv 0 [] None false "long" 10 ()
            (Some "report.html") () caller).
  - vm_compute. reflexivity.
  - reflexivity.
Defined.

End backtest_start_examples.
